(** * pyisotools: the File System Table engine of [pyisotools/iso.py]

    A shallow embedding of the FST codec ([load_file_systemv],
    [_read_nodes], [save_file_systemv]), of the layout planner
    ([get_auto_blob_size], [pre_calc_metadata]) and of the override tables
    ([_get_alignment], [_get_location], [_get_greatest_alignment]), together
    with the part of [build] and [from_root] that decides where file
    payloads go and how large the image gets.

    A name is held in its Shift-JIS form, one [ascii] for each byte of the
    encoding, so that [len(name)] and [name.encode("shift-jis")] are two
    functions of it, [name_len] and [encode_name].  What the host does
    when a file is opened or a directory is made, what [PurePath.match]
    answers, and the fields a fresh node has before a pass has written
    them are parameters.  The recursion limit of the interpreter is not
    part of the embedding: the functions that call themselves once for
    each level of directories ([_read_nodes], [_load_from_path] and the
    inner functions of the passes) are followed to any depth. *)

From Stdlib Require Import ZArith List Bool Lia Sorting.Sorted.
From Stdlib Require Structures.OrderedTypeEx.
From Stdlib.Strings Require Import String Ascii Byte.
Import ListNotations.
Local Open Scope Z_scope.
Set Warnings "-register-all".

(** [length] is the one of lists throughout; the one of strings is written
    [String.length]. *)
Abbreviation length := List.length.

(** ** Helpers of [pyisotools/iohelper.py] *)

(** Modelled from the spec: [align_int] of [iohelper.py] is not part of the
    sources at hand; the spec calls it rounding a value up to an alignment
    ("round the running total up to the file's alignment"). *)
Definition align_int (num alignment : Z) : Z :=
  (num + (alignment - 1)) / alignment * alignment.

(** Python truthiness of an optional integer: [None] and [0] are false. *)
Definition truthy (o : option Z) : bool :=
  match o with
  | None => false
  | Some v => negb (v =? 0)
  end.

(** ** Tree model *)

(** Modelled from the spec: the node class [FSTNode] of [fst.py] is not part
    of the sources at hand.  Section 3 of the spec gives a tagged variant,
    File or Directory, with the common fields [name], [entryId], [excluded],
    the file-only fields [size], [fileOffset], [alignment], [forcedLocation]
    and the directory-only fields [dirParentId], [dirNextId]; the field
    names are the attribute names [iso.py] reads and writes. *)
Record NodeInfo := mkInfo {
  name : string;
  _id : Z;
  _exclude : bool
}.

Record FileInfo := mkFile {
  size : Z;
  _fileoffset : Z;
  _alignment : Z;
  _position : option Z
}.

Record DirInfo := mkDir {
  _dirparent : Z;
  _dirnext : Z
}.

Inductive FSTNode :=
| FileNode (c : NodeInfo) (f : FileInfo)
| DirNode (c : NodeInfo) (d : DirInfo) (children : list FSTNode).

Definition info (n : FSTNode) : NodeInfo :=
  match n with
  | FileNode c _ => c
  | DirNode c _ _ => c
  end.

Definition is_file (n : FSTNode) : bool :=
  match n with
  | FileNode _ _ => true
  | DirNode _ _ _ => false
  end.

(** [child._position]: only files carry a forced location. *)
Definition position_of (n : FSTNode) : option Z :=
  match n with
  | FileNode _ f => _position f
  | DirNode _ _ _ => None
  end.

Definition set_id (c : NodeInfo) (i : Z) : NodeInfo :=
  mkInfo (name c) i (_exclude c).

Definition set_fileoffset (f : FileInfo) (o : Z) : FileInfo :=
  mkFile (size f) o (_alignment f) (_position f).

(** Modelled from the spec: [rchildren] of [fst.py], "pre-order depth-first,
    directories before their children, siblings in stored order". *)
Fixpoint rchildren_node (n : FSTNode) : list FSTNode :=
  match n with
  | FileNode _ _ => [n]
  | DirNode _ _ ch => n :: flat_map rchildren_node ch
  end.

Definition rchildren (ch : list FSTNode) : list FSTNode :=
  flat_map rchildren_node ch.

(** Modelled from the spec: the number of entries a node stands for, itself
    and its included descendants; for the root this is the "total entry
    count (including root)", for a directory it makes [dirNextId] the
    "entryId one past the last descendant".  This is [len(node)]. *)
Fixpoint entries_node (n : FSTNode) : Z :=
  if _exclude (info n) then
    match n with
    | FileNode _ _ => 0
    | DirNode _ _ ch => fold_right (fun c acc => entries_node c + acc) 0 ch
    end
  else
    match n with
    | FileNode _ _ => 1
    | DirNode _ _ ch => 1 + fold_right (fun c acc => entries_node c + acc) 0 ch
    end.

Definition entries (ch : list FSTNode) : Z :=
  fold_right (fun c acc => entries_node c + acc) 0 ch.

(** [len(node)]: the included descendants and the node itself. *)
Definition node_len (ch : list FSTNode) : Z := 1 + entries ch.

(** Modelled from the spec: [child.size] of a directory in
    [pre_calc_metadata], where the spec has [dirNextId] be
    "entryId + totalIncludedDescendantCount". *)
Definition dir_size (ch : list FSTNode) : Z := entries ch.

(** ** Layout planner *)

(** [GamecubeISO.MaxSize] *)
Definition MaxSize : Z := 1459978240.

(** The inner [_collect_size] of [get_auto_blob_size], one child at a time. *)
Fixpoint _collect_child (child : FSTNode) (_size : Z) : Z :=
  if _exclude (info child) || truthy (position_of child) then _size
  else
    match child with
    | FileNode _ f => align_int _size (_alignment f) + size f
    | DirNode _ _ ch => fold_left (fun s c => _collect_child c s) ch _size
    end.

Definition _collect_size (ch : list FSTNode) (_size : Z) : Z :=
  fold_left (fun s c => _collect_child c s) ch _size.

Definition get_auto_blob_size (ch : list FSTNode) : Z := _collect_size ch 0.

(** The state the loop of [pre_calc_metadata] threads: [_dataOfs] and
    [_curEntry]. *)
Record PlanState := mkPlan {
  _dataOfs : Z;
  _curEntry : Z
}.

(** One iteration of the loop of [pre_calc_metadata] on a file. *)
Definition plan_file (st : PlanState) (c : NodeInfo) (f : FileInfo)
  : PlanState * FSTNode :=
  let f1 :=
    match _position f with
    | Some p =>
        if truthy (_position f)
        then set_fileoffset f (align_int p (_alignment f)) else f
    | None => f
    end in
  if _exclude c then (st, FileNode c (set_fileoffset f1 0))
  else
    (mkPlan (_dataOfs st + size f1) (_curEntry st + 1),
     FileNode (set_id c (_curEntry st))
              (set_fileoffset f1 (align_int (_dataOfs st) (_alignment f1)))).

(** The loop of [pre_calc_metadata] over [rchildren], written as a walk of
    the tree in the same order; [parent_id] is [child.parent._id] at the
    time the child is reached. *)
Fixpoint plan_node (parent_id : Z) (st : PlanState) (n : FSTNode)
  : PlanState * FSTNode :=
  match n with
  | FileNode c f => plan_file st c f
  | DirNode c d ch =>
      let walk := fix walk (pid : Z) (st : PlanState) (l : list FSTNode)
        : PlanState * list FSTNode :=
        match l with
        | [] => (st, [])
        | x :: l' =>
            let '(st1, x') := plan_node pid st x in
            let '(st2, l'') := walk pid st1 l' in
            (st2, x' :: l'')
        end in
      if _exclude c then
        let '(st', ch') := walk (_id c) st ch in
        (st', DirNode c d ch')
      else
        let i := _curEntry st in
        let '(st', ch') := walk i (mkPlan (_dataOfs st) (i + 1)) ch in
        (st', DirNode (set_id c i) (mkDir parent_id (dir_size ch + i)) ch')
  end.

Fixpoint plan_list (pid : Z) (st : PlanState) (l : list FSTNode)
  : PlanState * list FSTNode :=
  match l with
  | [] => (st, [])
  | x :: l' =>
      let '(st1, x') := plan_node pid st x in
      let '(st2, l'') := plan_list pid st1 l' in
      (st2, x' :: l'')
  end.

(** [pre_calc_metadata(startpos)] on the children of the root, whose own id
    is 0; the final loop state is returned with the tree. *)
Definition pre_calc_metadata_state (startpos : Z) (ch : list FSTNode)
  : PlanState * list FSTNode :=
  plan_list 0 (mkPlan (align_int startpos 4) 1) ch.

Definition pre_calc_metadata (startpos : Z) (ch : list FSTNode) : list FSTNode :=
  snd (pre_calc_metadata_state startpos ch).

(** ** Override tables *)

(** [SortedDict] of [sortedcontainers]: the items in ascending key order,
    keys compared as Python compares strings, character by character. *)
Definition SortedDict := list (string * Z).

Fixpoint sd_setitem (k : string) (v : Z) (d : SortedDict) : SortedDict :=
  match d with
  | [] => [(k, v)]
  | (k', v') :: d' =>
      match String.compare k k' with
      | Lt => (k, v) :: d
      | Eq => (k, v) :: d'
      | Gt => (k', v') :: sd_setitem k v d'
      end
  end.

(** [SortedDict(data)]: the pairs of [data] entered one after the other. *)
Definition SortedDict_of (data : list (string * Z)) : SortedDict :=
  fold_left (fun d kv => sd_setitem (fst kv) (snd kv) d) data [].

(** The order of the keys, and of the items by their keys. *)
Definition str_lt (a b : string) : Prop := String.compare a b = Lt.

Definition key_lt (a b : string * Z) : Prop := str_lt (fst a) (fst b).

(** [d.get(k)] *)
Fixpoint sd_get (d : SortedDict) (k : string) : option Z :=
  match d with
  | [] => None
  | (k', v) :: d' => if String.eqb k k' then Some v else sd_get d' k
  end.

(** [d.peekitem()]: the last item, [IndexError] on an empty dict. *)
Definition sd_peekitem (d : SortedDict) : option (string * Z) :=
  last (map Some d) None.

(** [str.strip()]: the white space of Python at both ends is dropped.  A
    pattern of a table is held one character to an [ascii]; among the
    characters below U+0100 the white space is 9 to 13, 28 to 32, 133 and
    160. *)
Definition is_space (c : ascii) : bool :=
  let n := N_of_ascii c in
  (((9 <=? n) && (n <=? 13)) || ((28 <=? n) && (n <=? 32))
   || (n =? 133) || (n =? 160))%N.

Fixpoint lstrip (s : list ascii) : list ascii :=
  match s with
  | c :: r => if is_space c then lstrip r else s
  | [] => []
  end.

Definition strip (s : string) : string :=
  string_of_list_ascii
    (rev (lstrip (rev (lstrip (list_ascii_of_string s))))).

Section Tables.

(** [fnmatch.fnmatch] of the Python library: [fnmatch name pat]. *)
Variable fnmatch : string -> string -> bool.

(** The loop of [_get_alignment] over [items()]. *)
Fixpoint first_match (_path : string) (items : SortedDict) : option Z :=
  match items with
  | [] => None
  | (entry, align) :: rest =>
      if fnmatch _path (strip entry) then Some align
      else first_match _path rest
  end.

Definition _get_alignment (_alignmentTable : SortedDict) (_path : string) : Z :=
  match _alignmentTable with
  | [] => 4
  | _ :: _ =>
      match first_match _path _alignmentTable with
      | Some align => align
      | None => 4
      end
  end.

Definition _get_location (_locationTable : SortedDict) (_path : string)
  : option Z :=
  match _locationTable with
  | [] => None
  | _ :: _ => sd_get _locationTable _path
  end.

(** [_get_excluded] over the [SortedList] of patterns. *)
Definition _get_excluded (_excludeTable : list string) (_path : string) : bool :=
  existsb (fun entry => fnmatch _path (strip entry)) _excludeTable.

End Tables.

Definition _get_greatest_alignment (_alignmentTable : SortedDict) : Z :=
  match sd_peekitem _alignmentTable with
  | Some item => snd item
  | None => 4
  end.

(** A matcher for the patterns made of literal characters, [*] and [?],
    which [fnmatch] matches in the same way; the examples use it. *)
Fixpoint glob (pat name : list ascii) : bool :=
  match pat with
  | [] => match name with [] => true | _ :: _ => false end
  | p :: pat' =>
      if Ascii.eqb p "*"%char then
        (fix star (name : list ascii) : bool :=
           glob pat' name ||
           match name with
           | [] => false
           | _ :: name' => star name'
           end) name
      else
        match name with
        | [] => false
        | c :: name' =>
            (Ascii.eqb p "?"%char || Ascii.eqb p c) && glob pat' name'
        end
  end.

Definition glob_match (name pat : string) : bool :=
  glob (list_ascii_of_string pat) (list_ascii_of_string name).

(** ** Errors *)

(** The exceptions of the code.  [StructError] stands for the failure of a
    reader or writer of [iohelper.py] that cannot get or pack its bytes,
    [OverflowError] for the one of [int.to_bytes], [UnicodeDecodeError] for
    the one of [bytes.decode], [ValueError] for the one of [PurePath.match],
    [OSError] for a seek to a negative position and for a file or a
    directory the host refuses.  [LayoutConflict] is the name the spec
    gives; nothing in [iso.py] raises it. *)
Inductive error :=
| InvalidFSTError (msg : string)
| InvalidEntryError (msg : string)
| FileSystemTooLargeError (total limit : Z)
| StructError
| OverflowError
| UnicodeDecodeError
| ValueError
| OSError
| LayoutConflict.

(** What a call comes to: a value, an exception, no return at all (a loop
    that does not end), or the recursion bound of the embedding used up. *)
Inductive outcome (A : Type) :=
| Ok (a : A)
| Raise (e : error)
| NoReturn
| OutOfFuel.
Arguments Ok {A} a.
Arguments Raise {A} e.
Arguments NoReturn {A}.
Arguments OutOfFuel {A}.

Definition bind {A B : Type} (m : outcome A) (k : A -> outcome B) : outcome B :=
  match m with
  | Ok a => k a
  | Raise e => Raise e
  | NoReturn => NoReturn
  | OutOfFuel => OutOfFuel
  end.

Notation "'do' x <- m ; k" := (bind m (fun x => k))
  (at level 10, x pattern, m at level 100, k at level 200).

(** ** Loading a directory of the host *)

(** What [path.iterdir()] finds, in the order [sorted] gives. *)
Inductive HostEntry :=
| HostFile (name : string) (st_size : Z)
| HostDir (name : string) (entries : list HostEntry)
| HostOther (name : string).

Definition join (dir nm : string) : string :=
  match dir with
  | EmptyString => nm
  | _ => (dir ++ "/" ++ nm)%string
  end.

(** Modelled from the spec: [FSTNode.file] and [FSTNode.folder] of [fst.py]
    are not part of the sources at hand.  The spec gives a new node its
    name and the defaults "alignment 4, no forced location, not excluded".
    Of the id, the file offset and the directory links it says that a
    layout pass assigns them, not what they hold before: that is left
    open, and [Unset] has it. *)
Record Unset := mkUnset {
  u_id : Z;
  u_fileoffset : Z;
  u_dirparent : Z;
  u_dirnext : Z
}.

Section LoadFromPath.

Variable fnmatch : string -> string -> bool.
(** [PurePath.match] of the Python library, on the host path: [None] when
    the call raises [ValueError], as it does for an empty pattern. *)
Variable path_match : string -> string -> option bool.
Variable unset : Unset.
Variables _alignmentTable _locationTable : SortedDict.

(** The loop [for p in ignoreList] of [_load_from_path] on the entry
    [entry]: every pattern is tried, in order. *)
Fixpoint ignored (ignoreList : list string) (entry : string) : outcome bool :=
  match ignoreList with
  | [] => Ok false
  | p :: rest =>
      match path_match entry p with
      | None => Raise ValueError
      | Some m =>
          do disable <- ignored rest entry;
          Ok (m || disable)
      end
  end.

(** One entry of the loop of [_load_from_path]; [hostdir] is [path] and
    [vdir] the virtual path of [parentnode] (modelled from the spec:
    "slash-joined ancestor names", relative to the data root).  The
    patterns are tried on every entry, before the entry is looked at. *)
Fixpoint _load_entry (ignoreList : list string) (hostdir vdir : string)
    (entry : HostEntry) : outcome FSTNode :=
  match entry with
  | HostFile nm st_size =>
      do disable <- ignored ignoreList (join hostdir nm);
      let vpath := join vdir nm in
      Ok (FileNode (mkInfo nm (u_id unset) disable)
            (mkFile st_size (u_fileoffset unset)
               (_get_alignment fnmatch _alignmentTable vpath)
               (_get_location _locationTable vpath)))
  | HostDir nm entries =>
      do disable <- ignored ignoreList (join hostdir nm);
      do ch <- (fix loop (l : list HostEntry) : outcome (list FSTNode) :=
                  match l with
                  | [] => Ok []
                  | e :: l' =>
                      do n <- _load_entry ignoreList (join hostdir nm) (join vdir nm) e;
                      do r <- loop l';
                      Ok (n :: r)
                  end) entries;
      Ok (DirNode (mkInfo nm (u_id unset) false)
            (mkDir (u_dirparent unset) (u_dirnext unset)) ch)
  | HostOther nm =>
      do disable <- ignored ignoreList (join hostdir nm);
      Raise (InvalidEntryError "Not a dir or file")
  end.

Fixpoint _load_from_path (ignoreList : list string) (hostdir vdir : string)
    (entries : list HostEntry) : outcome (list FSTNode) :=
  match entries with
  | [] => Ok []
  | e :: l' =>
      do n <- _load_entry ignoreList hostdir vdir e;
      do r <- _load_from_path ignoreList hostdir vdir l';
      Ok (n :: r)
  end.

End LoadFromPath.

(** ** Byte streams *)

Definition Z_of_byte (b : byte) : Z := Z.of_N (Byte.to_N b).

Definition byte_of_Z (z : Z) : byte :=
  match Byte.of_N (Z.to_N (z mod 256)) with
  | Some b => b
  | None => x00
  end.

(** [int.from_bytes(l, "big", signed=False)] *)
Definition from_bytes (l : list byte) : Z :=
  fold_left (fun acc b => acc * 256 + Z_of_byte b) l 0.

(** The [n] low bytes of [v], most significant first. *)
Fixpoint be_bytes (n : nat) (v : Z) : list byte :=
  match n with
  | O => []
  | S n' => byte_of_Z (v / 256 ^ Z.of_nat n') :: be_bytes n' v
  end.

(** [v.to_bytes(n, "big", signed=False)] *)
Definition to_bytes (n : nat) (v : Z) : outcome (list byte) :=
  if (0 <=? v) && (v <? 256 ^ Z.of_nat n) then Ok (be_bytes n v)
  else Raise OverflowError.

(** A [BytesIO], or a file opened in binary mode: its bytes and the
    position of the next read or write. *)
Record BytesIO := mkIO {
  getvalue : list byte;
  tell : Z
}.

Definition seek (p : Z) (s : BytesIO) : BytesIO := mkIO (getvalue s) p.

(** The bytes from position [p] on; none at or after the end. *)
Definition from_pos (buf : list byte) (p : Z) : list byte :=
  if (p <? 0) || (Z.of_nat (length buf) <=? p) then []
  else skipn (Z.to_nat p) buf.

(** [s.read(n)]: at most [n] bytes, fewer at the end of the stream. *)
Definition read (n : nat) (s : BytesIO) : list byte * BytesIO :=
  let data := firstn n (from_pos (getvalue s) (tell s)) in
  (data, mkIO (getvalue s) (tell s + Z.of_nat (length data))).

(** The buffer after [data] is written at position [p]: a gap between the
    end and [p] is filled with zeros, bytes under [data] are replaced. *)
Definition overlay_at (p : nat) (data buf : list byte) : list byte :=
  firstn p buf ++ repeat x00 (p - length buf) ++ data
  ++ skipn (p + length data) buf.

(** [s.write(data)]; nothing happens for empty [data]. *)
Definition write (data : list byte) (s : BytesIO) : BytesIO :=
  match data with
  | [] => s
  | _ :: _ =>
      mkIO (overlay_at (Z.to_nat (tell s)) data (getvalue s))
           (tell s + Z.of_nat (length data))
  end.

(** Modelled from the spec: [read_ubyte] and [read_uint32] of [iohelper.py]
    are not part of the sources at hand; they read one byte and a
    "big-endian 32-bit integer".  A read that does not get all its bytes is
    taken to fail in the helper. *)
Definition read_ubyte (s : BytesIO) : outcome (Z * BytesIO) :=
  let '(data, s') := read 1 s in
  if Nat.eqb (length data) 1 then Ok (from_bytes data, s')
  else Raise StructError.

Definition read_uint32 (s : BytesIO) : outcome (Z * BytesIO) :=
  let '(data, s') := read 4 s in
  if Nat.eqb (length data) 4 then Ok (from_bytes data, s')
  else Raise StructError.

(** Modelled from the spec: [write_uint32] of [iohelper.py], four bytes
    big-endian; a value outside 32 bits is taken to fail in the helper. *)
Definition write_uint32 (s : BytesIO) (v : Z) : outcome BytesIO :=
  if (0 <=? v) && (v <? 2 ^ 32) then Ok (write (be_bytes 4 v) s)
  else Raise StructError.

Fixpoint take_until_nul (l : list byte) : list byte :=
  match l with
  | [] => []
  | b :: r => if Byte.eqb b x00 then [] else b :: take_until_nul r
  end.

(** ** Names and Shift-JIS *)

(** A name is a [str] of Python.  [iso.py] takes its length in
    characters, [len(name)], encodes it with the Shift-JIS codec of the
    Python library, and gets it from that codec, which gives a character
    one byte or two.  A name is held here as the bytes the codec gives
    it, one [ascii] to a byte: a name of ASCII characters is the string
    it reads as, and the katakana [U+30A2], which the codec writes [83 41],
    is the string of these two bytes and one character long.  The codec
    maps the texts it decodes one to one onto their bytes, so a decoded
    name is known by them.  A name the codec does not encode, and a name
    with [U+00A5] or [U+203E], which the codec writes as [5C] and [7E] and
    reads back as the backslash and the tilde, has no form here: the
    names are those the codec reads back as they are. *)

Definition byte_in (lo hi : N) (b : byte) : bool :=
  ((lo <=? Byte.to_N b) && (Byte.to_N b <=? hi))%N.

(** The characters of one byte: ASCII and the half-width katakana. *)
Definition sj_single (b : byte) : bool :=
  byte_in 0 127 b || byte_in 161 223 b.

(** A byte that opens a character of two bytes. *)
Definition sj_lead (b : byte) : bool :=
  byte_in 129 159 b || byte_in 224 252 b.

(** The characters of two bytes that the codec knows, those of JIS X
    0208: the first byte from, to; the second byte from, to. *)
Definition sj_double_table : list (N * N * N * N) :=
  [
   (129, 129, 64, 126); (129, 129, 128, 172); (129, 129, 184, 191);
   (129, 129, 200, 206); (129, 129, 218, 232); (129, 129, 240, 247);
   (129, 129, 252, 252); (130, 130, 79, 88); (130, 130, 96, 121);
   (130, 130, 129, 154); (130, 130, 159, 241); (131, 131, 64, 126);
   (131, 131, 128, 150); (131, 131, 159, 182); (131, 131, 191, 214);
   (132, 132, 64, 96); (132, 132, 112, 126); (132, 132, 128, 145);
   (132, 132, 159, 190); (136, 136, 159, 252); (137, 151, 64, 126);
   (137, 151, 128, 252); (152, 152, 64, 114); (152, 152, 159, 252);
   (153, 159, 64, 126); (153, 159, 128, 252); (224, 233, 64, 126);
   (224, 233, 128, 252); (234, 234, 64, 126); (234, 234, 128, 164)
  ]%N.

Definition sj_double (b1 b2 : byte) : bool :=
  existsb (fun r => let '(l1, l2, t1, t2) := r in
                    byte_in l1 l2 b1 && byte_in t1 t2 b2)
          sj_double_table.

(** The bytes of a text, character by character. *)
Fixpoint sj_chars (data : list byte) : list (list byte) :=
  match data with
  | [] => []
  | b :: r =>
      if sj_lead b then
        match r with
        | b2 :: r' => [b; b2] :: sj_chars r'
        | [] => [[b]]
        end
      else [b] :: sj_chars r
  end.

Definition sj_char (c : list byte) : bool :=
  match c with
  | [b] => sj_single b
  | [b1; b2] => sj_double b1 b2
  | _ => false
  end.

(** [data.decode("shift-jis")] does not raise: every character is one the
    codec knows. *)
Definition decodable (data : list byte) : bool :=
  forallb sj_char (sj_chars data).

(** [len(name)]: the number of characters. *)
Definition name_len (nm : string) : nat :=
  length (sj_chars (list_byte_of_string nm)).

(** [name.encode("shift-jis")] *)
Definition encode_name (nm : string) : list byte := list_byte_of_string nm.

(** Modelled from the spec: [read_string] of [iohelper.py], "reading a
    null-terminated string at stringTableBase + nameOffset using the
    historical Japanese 1-byte/2-byte mixed encoding".  The helper looks
    for the zero byte one byte at a time; at the end of the stream a read
    gives no byte, never the zero byte, and the search does not end.  The
    bytes before the zero byte are decoded, and the stream is left after
    the zero byte. *)
Definition read_string (s : BytesIO) (offset : Z) : outcome (string * BytesIO) :=
  let rest := from_pos (getvalue s) offset in
  if existsb (Byte.eqb x00) rest then
    let data := take_until_nul rest in
    if decodable data then
      Ok (string_of_list_byte data,
          mkIO (getvalue s) (offset + Z.of_nat (length data) + 1))
    else Raise UnicodeDecodeError
  else NoReturn.

(** ** Binary FST codec: decoding *)

(** Modelled from the spec: [FSTNode.FOLDER] of [fst.py], "byte0 type
    (0=file,1=directory)". *)
Definition FOLDER : Z := 1.

(** [_read_nodes]; [cur] is [self._curEntry].  [read_children] is the loop
    [while self._curEntry < _size] that adds the children, also the loop of
    [load_file_systemv].  A node made by [FSTNode.empty] of [fst.py] is
    given the defaults of the spec, "alignment 4, no forced location, not
    excluded". *)
Fixpoint _read_nodes (fuel : nat) (fst : BytesIO) (cur : Z) (strTabOfs : Z)
  : outcome (FSTNode * BytesIO * Z) :=
  match fuel with
  | O => OutOfFuel
  | S fuel' =>
      do (_type, fst) <- read_ubyte fst;
      let '(raw3, fst) := read 3 fst in
      let _nameOfs := from_bytes raw3 in
      do (_entryOfs, fst) <- read_uint32 fst;
      do (_size, fst) <- read_uint32 fst;
      let _oldpos := tell fst in
      do (nm, fst) <- read_string fst (strTabOfs + _nameOfs);
      let fst := seek _oldpos fst in
      let c := mkInfo nm cur false in
      let cur := cur + 1 in
      if _type =? FOLDER then
        do (ch, fst, cur) <- read_children fuel' fst cur _size strTabOfs;
        Ok (DirNode c (mkDir _entryOfs _size) ch, fst, cur)
      else
        Ok (FileNode c (mkFile _size _entryOfs 4 None), fst, cur)
  end
with read_children (fuel : nat) (fst : BytesIO) (cur : Z) (limit : Z)
    (strTabOfs : Z) : outcome (list FSTNode * BytesIO * Z) :=
  match fuel with
  | O => OutOfFuel
  | S fuel' =>
      if cur <? limit then
        do (child, fst, cur) <- _read_nodes fuel' fst cur strTabOfs;
        do (rest, fst, cur) <- read_children fuel' fst cur limit strTabOfs;
        Ok (child :: rest, fst, cur)
      else Ok ([], fst, cur)
  end.

(** The recursion bound: more than twice the number of records the buffer
    can hold. *)
Definition fuel_of (fst : BytesIO) : nat := S (S (length (getvalue fst))).

(** [load_file_systemv]: the children of the root, the stream and
    [self._curEntry] at the end. *)
Definition load_file_systemv (fst : BytesIO)
  : outcome (list FSTNode * BytesIO * Z) :=
  let '(b1, fst) := read 1 fst in
  if negb (if list_eq_dec byte_eq_dec b1 [x01] then true else false) then
    Raise (InvalidFSTError "Invalid Root flag found")
  else
    let '(b3, fst) := read 3 fst in
    if negb (if list_eq_dec byte_eq_dec b3 [x00; x00; x00] then true else false) then
      Raise (InvalidFSTError "Invalid Root string offset found")
    else
      let '(b4, fst) := read 4 fst in
      if negb (if list_eq_dec byte_eq_dec b4 [x00; x00; x00; x00] then true else false) then
        Raise (InvalidFSTError "Invalid Root offset found")
      else
        do (entryCount, fst) <- read_uint32 fst;
        read_children (fuel_of fst) fst 1 entryCount (entryCount * 12).

(** ** Binary FST codec: encoding *)

(** What the loop of [save_file_systemv] threads: [self._rawFST],
    [_curEntry] and [_strOfs]. *)
Record SaveState := mkSave {
  _rawFST : BytesIO;
  s_curEntry : Z;
  _strOfs : Z
}.

(** The body of the loop of [save_file_systemv] for an included node:
    [fieldA] is [child.parent._id] or [child._fileoffset], [fieldB] is
    [len(child) + _curEntry] or [child.size]. *)
Definition save_entry (_strTableOfs : Z) (is_dir : bool) (nm : string)
    (fieldA fieldB : Z) (st : SaveState) : outcome SaveState :=
  let fst := write [if is_dir then x01 else x00] (_rawFST st) in
  do raw3 <- to_bytes 3 (_strOfs st);
  let fst := write raw3 fst in
  do fst <- write_uint32 fst fieldA;
  do fst <- write_uint32 fst fieldB;
  let _oldpos := tell fst in
  let fst := seek (_strOfs st + _strTableOfs) fst in
  let fst := write (encode_name nm ++ [x00]) fst in
  let fst := seek _oldpos fst in
  Ok (mkSave fst (s_curEntry st + 1)
             (_strOfs st + Z.of_nat (name_len nm) + 1)).

(** The loop of [save_file_systemv] over [rchildren], as a walk of the tree
    in the same order; the node comes back with the id the loop gives it
    ([child._id = _curEntry]).  [parent_id] is [child.parent._id] when the
    child is reached: the id the loop has just given the parent, or the id
    an excluded parent already had. *)
Fixpoint save_node (_strTableOfs : Z) (parent_id : Z) (st : SaveState)
    (n : FSTNode) : outcome (SaveState * FSTNode) :=
  match n with
  | FileNode c f =>
      if _exclude c then Ok (st, n)
      else
        do st1 <- save_entry _strTableOfs false (name c) (_fileoffset f)
                    (size f) st;
        Ok (st1, FileNode (set_id c (s_curEntry st)) f)
  | DirNode c d ch =>
      let walk := fix walk (pid : Z) (st : SaveState) (l : list FSTNode)
        : outcome (SaveState * list FSTNode) :=
        match l with
        | [] => Ok (st, [])
        | x :: l' =>
            do (st1, x') <- save_node _strTableOfs pid st x;
            do (st2, l'') <- walk pid st1 l';
            Ok (st2, x' :: l'')
        end in
      if _exclude c then
        do (st1, ch') <- walk (_id c) st ch;
        Ok (st1, DirNode c d ch')
      else
        let i := s_curEntry st in
        do st1 <- save_entry _strTableOfs true (name c) parent_id
                    (node_len ch + i) st;
        do (st2, ch') <- walk i st1 ch;
        Ok (st2, DirNode (set_id c i) d ch')
  end.

Definition save_list (_strTableOfs : Z)
  : Z -> SaveState -> list FSTNode -> outcome (SaveState * list FSTNode) :=
  fix walk (pid : Z) (st : SaveState) (l : list FSTNode)
    : outcome (SaveState * list FSTNode) :=
    match l with
    | [] => Ok (st, [])
    | x :: l' =>
        do (st1, x') <- save_node _strTableOfs pid st x;
        do (st2, l'') <- walk pid st1 l';
        Ok (st2, x' :: l'')
    end.

(** Modelled from the spec: [strTableOfs] of [fst.py]; "the output buffer's
    size is 12 + includedCount×12 + stringTableBytes", so the strings start
    after the root record and the records of the included nodes. *)
Definition strTableOfs (ch : list FSTNode) : Z := node_len ch * 12.

(** [save_file_systemv(startpos, useConfig, preCalc)]: the tree after the
    layout pass, if one is asked for, and after the loop has numbered it,
    and [self._rawFST] after the writes.  Reading the tables again under
    [useConfig] changes no node. *)
Definition save_file_systemv (startpos : Z) (useConfig preCalc : bool)
    (rawFST : BytesIO) (ch : list FSTNode) : outcome (list FSTNode * BytesIO) :=
  let ch :=
    if useConfig then pre_calc_metadata (MaxSize - get_auto_blob_size ch) ch
    else if preCalc then pre_calc_metadata (MaxSize - get_auto_blob_size ch) ch
    else ch in
  let fst := seek 0 rawFST in
  let fst := write [x01; x00; x00; x00; x00; x00; x00; x00] fst in
  do fst <- write_uint32 fst (node_len ch);
  do (st, ch') <- save_list (strTableOfs ch) 0 (mkSave fst 1 0) ch;
  Ok (ch', _rawFST st).

(** ** Building an image *)

(** Modelled from the spec: [rfiles] of [fst.py], the files among the
    descendants in the order of [rchildren], each with its virtual path
    ([child.path], "slash-joined ancestor names"). *)
Fixpoint rfiles_node (vdir : string) (n : FSTNode) : list (string * FSTNode) :=
  match n with
  | FileNode c _ => [(join vdir (name c), n)]
  | DirNode c _ ch => flat_map (rfiles_node (join vdir (name c))) ch
  end.

Definition rfiles (ch : list FSTNode) : list (string * FSTNode) :=
  flat_map (rfiles_node EmptyString) ch.

Definition fileoffset_of (n : FSTNode) : Z :=
  match n with
  | FileNode _ f => _fileoffset f
  | DirNode _ _ _ => 0
  end.

(** The four statements of [build] that put one file into the image. *)
Definition write_file (ofs : Z) (data : list byte) (ISO : BytesIO)
  : outcome BytesIO :=
  let ISO := write (repeat x00 (Z.to_nat (ofs - tell ISO))) ISO in
  if ofs <? 0 then Raise OSError
  else
    let ISO := seek ofs ISO in
    let ISO := write data ISO in
    Ok (seek (Z.of_nat (length (getvalue ISO))) ISO).

Section Build.

Variable fnmatch : string -> string -> bool.
(** The payload of the host file at a virtual path, [read_bytes()]. *)
Variable read_bytes : string -> list byte.
Variable _excludeTable : list string.

(** The loop of [build] over [self.rfiles]. *)
Fixpoint write_files (files : list (string * FSTNode)) (ISO : BytesIO)
  : outcome BytesIO :=
  match files with
  | [] => Ok ISO
  | (vpath, child) :: rest =>
      if is_file child && negb (_get_excluded fnmatch _excludeTable vpath) then
        do ISO <- write_file (fileoffset_of child) (read_bytes vpath) ISO;
        write_files rest ISO
      else write_files rest ISO
  end.

(** The first statement of [build] that touches the tree: the call of
    [save_file_systemv] with the start of the data region. *)
Definition build_layout (_alignmentTable : SortedDict) (rawFST : BytesIO)
    (ch : list FSTNode) : outcome (list FSTNode * BytesIO) :=
  save_file_systemv
    (Z.land (MaxSize - get_auto_blob_size ch)
            (- _get_greatest_alignment _alignmentTable))
    false true rawFST ch.

(** [build], from the call of [save_file_systemv] on.  [ISO] is the image
    file as the boot header, the boot info, the apploader and the
    executable have left it when the padding up to [fstOffset] is written.
    The result is the image, and the tree and [self._rawFST] as [build]
    leaves them. *)
Definition build (_alignmentTable : SortedDict) (ISO : BytesIO)
    (fstOffset : Z) (rawFST : BytesIO) (ch : list FSTNode)
  : outcome (list byte * list FSTNode * BytesIO) :=
  do (ch, rawFST) <- build_layout _alignmentTable rawFST ch;
  let ISO := write (repeat x00 (Z.to_nat (fstOffset - tell ISO))) ISO in
  let ISO := write (getvalue rawFST) ISO in
  do ISO <- write_files (rfiles ch) ISO;
  let ISO := write (repeat x00 (Z.to_nat (MaxSize - tell ISO))) ISO in
  Ok (getvalue ISO, ch, rawFST).

End Build.

(** Modelled from the spec: [_collect_size] of the node class of [fst.py],
    which [ISOBase._collect_size] calls for a directory with the size it
    has come to: "directories: recursive sum of non-excluded descendant
    file sizes, 4-byte aligned at each directory boundary". *)
Fixpoint FSTNode_collect_size (node : FSTNode) (size0 : Z) : Z :=
  match node with
  | FileNode c f => if _exclude c then size0 else size0 + size f
  | DirNode c _ ch =>
      align_int (fold_left (fun s x => FSTNode_collect_size x s) ch size0) 4
  end.

Section RootSize.

Variable fnmatch : string -> string -> bool.
Variables _alignmentTable _locationTable : SortedDict.
Variable _excludeTable : list string.

(** One child of the loop of [ISOBase._collect_size]; the path of a child
    of the root is its name.  The test on the location is [is not None]:
    an entry of the table counts whatever its value. *)
Definition ISOBase_collect_child (size0 : Z) (node : FSTNode) : Z :=
  if _get_excluded fnmatch _excludeTable (name (info node))
     || match _get_location _locationTable (name (info node)) with
        | Some _ => true
        | None => false
        end
  then size0
  else
    match node with
    | FileNode c f =>
        align_int size0 (_get_alignment fnmatch _alignmentTable (name c))
        + size f
    | DirNode _ _ _ => FSTNode_collect_size node size0
    end.

(** [ISOBase._collect_size(size)] on the children of the root. *)
Definition ISOBase_collect_size (ch : list FSTNode) (size0 : Z) : Z :=
  align_int (fold_left ISOBase_collect_child ch size0) 4.

(** Modelled from the spec: [datasize] of [fst.py], the size of a node in
    bytes; for the root it is what [ISOBase._collect_size] collects from
    0. *)
Definition datasize (ch : list FSTNode) : Z := ISOBase_collect_size ch 0.

(** The size test of [from_root]. *)
Definition from_root_check (fstOffset fstSize : Z) (ch : list FSTNode)
  : outcome unit :=
  let total := Z.land (fstOffset + fstSize + 2047) (-2048) + datasize ch in
  if total >? MaxSize then Raise (FileSystemTooLargeError total MaxSize)
  else Ok tt.

End RootSize.

(** ** Inputs of the examples *)



(** A data directory with the one file [a.bin] of 4 bytes, and a Location
    table that puts it at 4096. *)
Definition forced_host : list HostEntry := [HostFile "a.bin" 4].
Definition forced_location_table : SortedDict :=
  SortedDict_of [("a.bin"%string, 4096)].

(** A data directory with [a.bin] of 10 bytes and [b.bin] of 5 bytes, and an
    Alignment table that gives [a.bin] the alignment 32. *)
Definition two_files_host : list HostEntry :=
  [HostFile "a.bin" 10; HostFile "b.bin" 5].
Definition two_files_alignment : SortedDict :=
  SortedDict_of [("a.bin"%string, 32)].

(** A data directory with the one file [a.bin] of 6 bytes. *)
Definition six_bytes_host : list HostEntry := [HostFile "a.bin" 6].

(** [load_file_system], called with an empty [ignoreList]: the entries of
    the data directory are loaded with the exclusion table as the list of
    patterns to ignore, and the layout pass follows. *)
Definition load_file_system (fnmatch : string -> string -> bool)
    (path_match : string -> string -> option bool) (unset : Unset)
    (_alignmentTable _locationTable : SortedDict) (_excludeTable : list string)
    (entries : list HostEntry) : outcome (list FSTNode) :=
  do ch <- _load_from_path fnmatch path_match unset _alignmentTable
             _locationTable _excludeTable EmptyString EmptyString entries;
  Ok (pre_calc_metadata (MaxSize - get_auto_blob_size ch) ch).

(** Following the spec: the automatic payload size as section 4.3 words it,
    "running total starts at 0; for each file, round the running total up to
    the file's alignment, add the file's size; for each directory, recurse
    then round the subtotal up to 4", over the files that are neither
    excluded nor forced. *)
Fixpoint spec_payload_child (child : FSTNode) (total : Z) : Z :=
  match child with
  | FileNode c f =>
      if _exclude c || truthy (_position f) then total
      else align_int total (_alignment f) + size f
  | DirNode c _ ch =>
      if _exclude c then total
      else align_int (fold_left (fun s x => spec_payload_child x s) ch total) 4
  end.

Definition spec_autoPayloadSize (ch : list FSTNode) : Z :=
  align_int (fold_left (fun s x => spec_payload_child x s) ch 0) 4.

(** The bytes the placement pass consumes: how far [_dataOfs] has moved from
    the start it was given. *)
Definition placement_consumed (startpos : Z) (ch : list FSTNode) : Z :=
  _dataOfs (fst (pre_calc_metadata_state startpos ch)) - startpos.

(** ** Views used by the proofs *)

(** The [n] bytes of a buffer at position [p]. *)
Definition seg (buf : list byte) (p : Z) (n : nat) : list byte :=
  firstn n (skipn (Z.to_nat p) buf).

(** The four reads at the head of [_read_nodes], taken together: the type,
    the name offset, the two fields and the stream after them. *)
Definition read_record (fst : BytesIO) : outcome (Z * Z * Z * Z * BytesIO) :=
  do (_type, fst) <- read_ubyte fst;
  let '(raw3, fst) := read 3 fst in
  do (_entryOfs, fst) <- read_uint32 fst;
  do (_size, fst) <- read_uint32 fst;
  Ok (_type, from_bytes raw3, _entryOfs, _size, fst).

(** The name [read_string] finds in the buffer at an offset. *)
Definition name_at (buf : list byte) (offset : Z) : outcome string :=
  do r <- read_string (mkIO buf 0) offset;
  Ok (fst r).

(** The root record as [load_file_systemv] checks it: its first 8 bytes. *)
Definition root_prefix : list byte :=
  [x01; x00; x00; x00; x00; x00; x00; x00].

(** The whole records a stream still holds. *)
Definition records_left (s : BytesIO) : nat :=
  Z.to_nat ((Z.of_nat (length (getvalue s)) - tell s) / 12).

(** What a call of [_read_nodes] on the stream [s] with the running id
    [cur] comes to: a node, the failure of a reader or of the codec, or
    the search for the end of a name that does not return. *)
Definition node_post (s : BytesIO) (cur : Z)
    (r : outcome (FSTNode * BytesIO * Z)) : Prop :=
  match r with
  | Ok (_, s', cur') =>
      getvalue s' = getvalue s /\
      tell s + 12 <= tell s' <= Z.of_nat (length (getvalue s)) /\
      cur < cur'
  | Raise e => e = StructError \/ e = UnicodeDecodeError
  | NoReturn => True
  | OutOfFuel => False
  end.

(** What the loop [while self._curEntry < limit] comes to. *)
Definition children_post (s : BytesIO) (cur limit : Z)
    (r : outcome (list FSTNode * BytesIO * Z)) : Prop :=
  match r with
  | Ok (_, s', cur') =>
      getvalue s' = getvalue s /\
      tell s <= tell s' /\
      (tell s <= Z.of_nat (length (getvalue s)) ->
       tell s' <= Z.of_nat (length (getvalue s))) /\
      cur <= cur' /\ limit <= cur'
  | Raise e => e = StructError \/ e = UnicodeDecodeError
  | NoReturn => True
  | OutOfFuel => False
  end.


(** An FST with the one file [a] of 4 bytes at offset 4096: the root
    record with the entry count 2, one record, the name. *)
Definition one_file_fst : list byte :=
  [x01; x00; x00; x00;  x00; x00; x00; x00;  x00; x00; x00; x02;
   x00; x00; x00; x00;  x00; x00; x10; x00;  x00; x00; x00; x04;
   x61; x00].

(** A buffer that declares 2 entries, root included, and whose first
    record is a directory that runs to entry 3. *)
Definition overrun_fst : list byte :=
  [x01; x00; x00; x00;  x00; x00; x00; x00;  x00; x00; x00; x02;
   x01; x00; x00; x00;  x00; x00; x00; x00;  x00; x00; x00; x03;
   x00; x00; x00; x00;  x00; x00; x10; x00;  x00; x00; x00; x04].

(** A buffer that declares 5 entries and holds the records of 3 files, then
    their names. *)
Definition truncated_fst : list byte :=
  [x01; x00; x00; x00;  x00; x00; x00; x00;  x00; x00; x00; x05;
   x00; x00; x00; x00;  x00; x00; x10; x00;  x00; x00; x00; x04;
   x00; x00; x00; x02;  x00; x00; x10; x04;  x00; x00; x00; x04;
   x00; x00; x00; x04;  x00; x00; x10; x08;  x00; x00; x00; x04;
   x61; x00; x62; x00; x63; x00].


(** ** The image as [build] writes it *)

(** The image file after the four statements of [build] for one file, when
    the position was at the end: zeros up to [ofs] if the file starts past
    the end, then the payload at [ofs], over whatever is there. *)
Definition put_file (ofs : Z) (data buf : list byte) : list byte :=
  let buf1 := buf ++ repeat x00 (Z.to_nat (ofs - Z.of_nat (length buf))) in
  match data with
  | [] => buf1
  | _ :: _ => overlay_at (Z.to_nat ofs) data buf1
  end.

(** The end of the last byte a list of files occupies, and 0 for none. *)
Definition files_end (files : list (Z * list byte)) : Z :=
  fold_right (fun f acc => Z.max (fst f + Z.of_nat (length (snd f))) acc) 0 files.


Section Written.

Variable fnmatch : string -> string -> bool.
Variable read_bytes : string -> list byte.
Variable _excludeTable : list string.

(** The files the loop of [build] writes, in its order: offset and
    payload. *)
Definition written (files : list (string * FSTNode)) : list (Z * list byte) :=
  map (fun f => (fileoffset_of (snd f), read_bytes (fst f)))
      (filter (fun f => is_file (snd f)
                        && negb (_get_excluded fnmatch _excludeTable (fst f)))
              files).

(** The image [build] produces from the image [buf0] the headers left,
    the encoded FST and the planned tree. *)
Definition image (buf0 : list byte) (fstOffset : Z) (rawFST : BytesIO)
    (ch : list FSTNode) : list byte :=
  let buf1 :=
    (buf0 ++ repeat x00 (Z.to_nat (fstOffset - Z.of_nat (length buf0))))
    ++ getvalue rawFST in
  let buf2 :=
    fold_left (fun b f => put_file (fst f) (snd f) b) (written (rfiles ch)) buf1 in
  buf2 ++ repeat x00 (Z.to_nat (MaxSize - Z.of_nat (length buf2))).

End Written.



Definition six_bytes_payload (vpath : string) : list byte := repeat x61 6.

(** The image file when [build] reaches the padding before the FST: 17408
    bytes of headers and executable, here zeros; the FST is to be put at
    18432, the next multiple of 2048. *)
Definition headers_image : list byte := repeat x00 (Z.to_nat 17408).

(** [bootheader.fstOffset] in the examples. *)
Definition example_fstOffset : Z := 18432.


(** ** The encoding as a value *)

(** The 12 bytes the loop of [save_file_systemv] writes for a node. *)
Definition record_bytes (is_dir : bool) (strOfs fieldA fieldB : Z) : list byte :=
  (if is_dir then x01 else x00)
  :: be_bytes 3 strOfs ++ be_bytes 4 fieldA ++ be_bytes 4 fieldB.

(** How far [_strOfs] moves over a node and its descendants: by the
    characters of each name and one more. *)
Fixpoint names_len_node (n : FSTNode) : Z :=
  (if _exclude (info n) then 0 else Z.of_nat (name_len (name (info n))) + 1)
  + match n with
    | FileNode _ _ => 0
    | DirNode _ _ ch => fold_right (fun c acc => names_len_node c + acc) 0 ch
    end.

Definition names_len (ch : list FSTNode) : Z :=
  fold_right (fun c acc => names_len_node c + acc) 0 ch.

(** The records of a node and its descendants, in the order of the walk,
    when the walk reaches the node with [_curEntry = cur] and
    [_strOfs = so]. *)
Fixpoint records_node (pid cur so : Z) (n : FSTNode) : list byte :=
  match n with
  | FileNode c f =>
      if _exclude c then []
      else record_bytes false so (_fileoffset f) (size f)
  | DirNode c d ch =>
      let walk := fix walk (pid cur so : Z) (l : list FSTNode) : list byte :=
        match l with
        | [] => []
        | x :: l' =>
            records_node pid cur so x
            ++ walk pid (cur + entries_node x) (so + names_len_node x) l'
        end in
      if _exclude c then walk (_id c) cur so ch
      else
        record_bytes true so pid (node_len ch + cur)
        ++ walk cur (cur + 1) (so + (Z.of_nat (name_len (name c)) + 1)) ch
  end.

Fixpoint records_list (pid cur so : Z) (l : list FSTNode) : list byte :=
  match l with
  | [] => []
  | x :: l' =>
      records_node pid cur so x
      ++ records_list pid (cur + entries_node x) (so + names_len_node x) l'
  end.

(** The names of a node and its descendants as the string table holds
    them. *)
Fixpoint strings_node (n : FSTNode) : list byte :=
  (if _exclude (info n) then [] else encode_name (name (info n)) ++ [x00])
  ++ match n with
     | FileNode _ _ => []
     | DirNode _ _ ch => flat_map strings_node ch
     end.

Definition strings_list (l : list FSTNode) : list byte :=
  flat_map strings_node l.

(** The whole table: root record with the entry count, records, names. *)
Definition fst_bytes (ch : list FSTNode) : list byte :=
  (root_prefix ++ be_bytes 4 (node_len ch))
  ++ records_list 0 1 0 ch ++ strings_list ch.

(** The tree [load_file_systemv] makes of the table of a tree. *)
Fixpoint decoded_node (pid cur : Z) (n : FSTNode) : FSTNode :=
  match n with
  | FileNode c f =>
      FileNode (mkInfo (name c) cur false) (mkFile (size f) (_fileoffset f) 4 None)
  | DirNode c d ch =>
      let walk := fix walk (pid cur : Z) (l : list FSTNode) : list FSTNode :=
        match l with
        | [] => []
        | x :: l' => decoded_node pid cur x :: walk pid (cur + entries_node x) l'
        end in
      DirNode (mkInfo (name c) cur false) (mkDir pid (node_len ch + cur))
              (walk cur (cur + 1) ch)
  end.

Fixpoint decoded_list (pid cur : Z) (l : list FSTNode) : list FSTNode :=
  match l with
  | [] => []
  | x :: l' => decoded_node pid cur x :: decoded_list pid (cur + entries_node x) l'
  end.

(** A character of one byte that is not the zero byte. *)
Definition sj_plain (b : byte) : bool := sj_single b && negb (Byte.eqb b x00).

(** A name of one-byte characters, none of them the zero byte: the names
    for which [len(name)] is the number of bytes [save_file_systemv]
    writes. *)
Definition one_byte (nm : string) : bool := forallb sj_plain (encode_name nm).

(** A tree whose included nodes have names of one-byte characters; the
    zero byte may be among them. *)
Fixpoint single_byte_names (n : FSTNode) : bool :=
  (_exclude (info n) || forallb sj_single (encode_name (name (info n))))
  && match n with
     | FileNode _ _ => true
     | DirNode _ _ ch => forallb single_byte_names ch
     end.

(** A tree in which no directory is excluded, as [_load_from_path] makes
    it. *)
Fixpoint dirs_included (n : FSTNode) : bool :=
  match n with
  | FileNode _ _ => true
  | DirNode c _ ch => negb (_exclude c) && forallb dirs_included ch
  end.

(** A node the codec can carry: not excluded, its name of one-byte
    characters without the zero byte, and for a file offset and size
    within 32 bits. *)
Inductive encodable : FSTNode -> Prop :=
| encodable_file c f :
    _exclude c = false -> one_byte (name c) = true ->
    0 <= _fileoffset f < 2 ^ 32 -> 0 <= size f < 2 ^ 32 ->
    encodable (FileNode c f)
| encodable_dir c d ch :
    _exclude c = false -> one_byte (name c) = true ->
    Forall encodable ch ->
    encodable (DirNode c d ch).

(** A node as [FSTNode.file], [FSTNode.folder] or [FSTNode.empty] make it
    when no table speaks of it: not excluded, alignment 4, no forced
    location; its name is of one-byte characters without the zero byte
    and a file size fits 32 bits. *)
Inductive plain : FSTNode -> Prop :=
| plain_file c f :
    _exclude c = false -> one_byte (name c) = true ->
    _alignment f = 4 -> _position f = None -> 0 <= size f < 2 ^ 32 ->
    plain (FileNode c f)
| plain_dir c d ch :
    _exclude c = false -> one_byte (name c) = true ->
    Forall plain ch ->
    plain (DirNode c d ch).


(** The buffer [buf] of [self._rawFST] during the loop of
    [save_file_systemv], [T] being the offset of the string table and [old]
    the buffer before the first write: the records written so far are [R],
    at the start, the names written so far are [S], from [T] on, and from
    the end of the names on the bytes are those of [old]. *)
Definition holds (T : nat) (old buf R S : list byte) : Prop :=
  (length R <= T)%nat /\
  (length old <= length buf)%nat /\
  (length R <= length buf)%nat /\
  (S <> [] -> T + length S <= length buf)%nat /\
  (length buf <= Nat.max (length old) (Nat.max (length R) (T + length S)))%nat /\
  (forall i, (i < length R)%nat -> nth i buf x00 = nth i R x00) /\
  (forall i, (T <= i < T + length S)%nat -> nth i buf x00 = nth (i - T) S x00) /\
  (forall i, (T + length S <= i)%nat -> nth i buf x00 = nth i old x00).


(** The tree as the loop of [save_file_systemv] numbers it, from
    [_curEntry = cur] on: an included node gets the running id, an
    excluded node keeps the id it has. *)
Fixpoint numbered_node (cur : Z) (n : FSTNode) : FSTNode :=
  match n with
  | FileNode c f => if _exclude c then n else FileNode (set_id c cur) f
  | DirNode c d ch =>
      let walk := fix walk (cur : Z) (l : list FSTNode) : list FSTNode :=
        match l with
        | [] => []
        | x :: l' => numbered_node cur x :: walk (cur + entries_node x) l'
        end in
      if _exclude c then DirNode c d (walk cur ch)
      else DirNode (set_id c cur) d (walk (cur + 1) ch)
  end.

Fixpoint numbered_list (cur : Z) (l : list FSTNode) : list FSTNode :=
  match l with
  | [] => []
  | x :: l' => numbered_node cur x :: numbered_list (cur + entries_node x) l'
  end.

(** What [save_node] does with a node whose names are of one-byte
    characters when the buffer holds the records [R] and the names [S]: it
    adds the records and the names of the node. *)
Definition save_node_ok (n : FSTNode) : Prop :=
  forall (Tn : nat) (old : list byte) (pid : Z) (buf : list byte) (cur so : Z)
         (R S : list byte),
    single_byte_names n = true ->
    holds Tn old buf R S ->
    so = Z.of_nat (length S) ->
    Z.of_nat (length R) + 12 * entries_node n <= Z.of_nat Tn ->
    0 <= pid < 2 ^ 32 -> 0 <= cur -> cur + entries_node n < 2 ^ 32 ->
    so + names_len_node n <= 2 ^ 24 ->
    exists buf',
      save_node (Z.of_nat Tn) pid
        (mkSave (mkIO buf (Z.of_nat (length R))) cur so) n =
      Ok (mkSave
            (mkIO buf' (Z.of_nat (length (R ++ records_node pid cur so n))))
            (cur + entries_node n) (so + names_len_node n),
          numbered_node cur n) /\
      holds Tn old buf' (R ++ records_node pid cur so n) (S ++ strings_node n).

Definition save_list_ok (l : list FSTNode) : Prop :=
  forall (Tn : nat) (old : list byte) (pid : Z) (buf : list byte) (cur so : Z)
         (R S : list byte),
    forallb single_byte_names l = true ->
    holds Tn old buf R S ->
    so = Z.of_nat (length S) ->
    Z.of_nat (length R) + 12 * entries l <= Z.of_nat Tn ->
    0 <= pid < 2 ^ 32 -> 0 <= cur -> cur + entries l < 2 ^ 32 ->
    so + names_len l <= 2 ^ 24 ->
    exists buf',
      save_list (Z.of_nat Tn) pid
        (mkSave (mkIO buf (Z.of_nat (length R))) cur so) l =
      Ok (mkSave
            (mkIO buf' (Z.of_nat (length (R ++ records_list pid cur so l))))
            (cur + entries l) (so + names_len l),
          numbered_list cur l) /\
      holds Tn old buf' (R ++ records_list pid cur so l) (S ++ strings_list l).


(** What [_read_nodes] makes of the records and names of a node found in
    the buffer [B] at the entry [cur] and the name offset [so]. *)
Definition decode_node_ok (n : FSTNode) : Prop :=
  forall (B : list byte) (T pid cur so : Z) (fuel : nat) (restR restS : list byte),
    0 <= cur -> 0 <= so -> 0 <= T ->
    skipn (Z.to_nat (12 * cur)) B = records_node pid cur so n ++ restR ->
    skipn (Z.to_nat (T + so)) B = strings_node n ++ restS ->
    0 <= pid < 2 ^ 32 -> cur + entries_node n < 2 ^ 32 ->
    so + names_len_node n <= 2 ^ 24 ->
    2 * entries_node n <= Z.of_nat fuel ->
    _read_nodes fuel (mkIO B (12 * cur)) cur T =
    Ok (decoded_node pid cur n, mkIO B (12 * (cur + entries_node n)),
        cur + entries_node n).

Definition decode_list_ok (l : list FSTNode) : Prop :=
  forall (B : list byte) (T pid cur so : Z) (fuel : nat) (restR restS : list byte),
    0 <= cur -> 0 <= so -> 0 <= T ->
    skipn (Z.to_nat (12 * cur)) B = records_list pid cur so l ++ restR ->
    skipn (Z.to_nat (T + so)) B = strings_list l ++ restS ->
    0 <= pid < 2 ^ 32 -> cur + entries l < 2 ^ 32 ->
    so + names_len l <= 2 ^ 24 ->
    2 * entries l + 1 <= Z.of_nat fuel ->
    read_children fuel (mkIO B (12 * cur)) cur (cur + entries l) T =
    Ok (decoded_list pid cur l, mkIO B (12 * (cur + entries l)),
        cur + entries l).


(** What the layout pass and the encoder read of a node before they write
    to it: the id, the offset and the directory links are put to 0. *)
Fixpoint inputs (n : FSTNode) : FSTNode :=
  match n with
  | FileNode c f =>
      FileNode (mkInfo (name c) 0 (_exclude c))
               (mkFile (size f) 0 (_alignment f) (_position f))
  | DirNode c d ch =>
      DirNode (mkInfo (name c) 0 (_exclude c)) (mkDir 0 0) (map inputs ch)
  end.


(** A data directory as loaded with empty tables: the directory [data]
    with [a.bin] of 10 bytes and [b.bin] of 20 bytes. *)
Definition data_dir_tree : list FSTNode :=
  [DirNode (mkInfo "data" 0 false) (mkDir 0 0)
     [FileNode (mkInfo "a.bin" 0 false) (mkFile 10 0 4 None);
      FileNode (mkInfo "b.bin" 0 false) (mkFile 20 0 4 None)]].


(** ** The offsets of the system area *)

(** [init_from_root]: where the executable and the FST go, after the
    apploader. *)
Definition dolOffset_of (trailerSize : Z) : Z :=
  Z.land (0x2440 + trailerSize + 0x1FFF) (- 0x2000).

Definition fstOffset_of (dolOffset dolSize : Z) : Z :=
  Z.land (dolOffset + dolSize + 0x7FF) (- 0x800).

(** ** What a loaded tree is compared with *)

(** An entry of the host that [_load_from_path] accepts: a file, or a
    directory of such entries. *)
Fixpoint regular (e : HostEntry) : bool :=
  match e with
  | HostFile _ _ => true
  | HostDir _ es => forallb regular es
  | HostOther _ => false
  end.

(** The entry of the host a node stands for: names, sizes and nesting. *)
Fixpoint host_of (n : FSTNode) : HostEntry :=
  match n with
  | FileNode c f => HostFile (name c) (size f)
  | DirNode c _ ch => HostDir (name c) (map host_of ch)
  end.

(** A pattern of the list matches the host path. *)
Definition matches (path_match : string -> string -> option bool)
    (ignoreList : list string) (hpath : string) : bool :=
  existsb (fun p => match path_match hpath p with
                    | Some m => m
                    | None => false
                    end) ignoreList.

(** What [_load_from_path] gives a file found under the virtual path
    [vpath] and the host path [hpath]. *)
Definition loaded_file (fnmatch : string -> string -> bool)
    (path_match : string -> string -> option bool)
    (_alignmentTable _locationTable : SortedDict) (ignoreList : list string)
    (hpath vpath : string) (n : FSTNode) : Prop :=
  match n with
  | FileNode c f =>
      _alignment f = _get_alignment fnmatch _alignmentTable vpath /\
      _position f = _get_location _locationTable vpath /\
      _exclude c = matches path_match ignoreList hpath
  | DirNode _ _ _ => False
  end.

(** The host paths of the entries of a directory and of what is under
    them: the paths [_load_from_path] tries the patterns on. *)
Fixpoint hpaths_entry (hostdir : string) (e : HostEntry) : list string :=
  match e with
  | HostFile nm _ => [join hostdir nm]
  | HostDir nm es =>
      join hostdir nm :: flat_map (hpaths_entry (join hostdir nm)) es
  | HostOther nm => [join hostdir nm]
  end.

Definition hpaths (hostdir : string) (es : list HostEntry) : list string :=
  flat_map (hpaths_entry hostdir) es.

(** [PurePath.match] raises on the host path for a pattern of the list. *)
Definition raises_on (path_match : string -> string -> option bool)
    (l : list string) (hpath : string) : Prop :=
  exists p, In p l /\ path_match hpath p = None.

(** It raises on one of the host paths. *)
Definition raises_among (path_match : string -> string -> option bool)
    (ignoreList : list string) (hpaths : list string) : Prop :=
  exists hpath, In hpath hpaths /\ raises_on path_match ignoreList hpath.


(** The directories among the descendants, in the order of [rchildren]. *)
Definition rdirs (ch : list FSTNode) : list FSTNode :=
  filter (fun n => negb (is_file n)) (rchildren ch).

(** What a call of [_load_from_path] or of its body comes to: a tree, for
    files and directories only; [InvalidEntryError], when there is
    something else; or the [ValueError] of [PurePath.match], when
    [raises] holds. *)
Definition load_post {A} (ok : bool) (raises : Prop) (mirrors : A -> Prop)
    (r : outcome A) : Prop :=
  match r with
  | Ok a => ok = true /\ mirrors a
  | Raise e =>
      (ok = false /\ e = InvalidEntryError "Not a dir or file") \/
      (raises /\ e = ValueError)
  | NoReturn => False
  | OutOfFuel => False
  end.

(** An entry of the host that the codec can carry and whose files tile:
    files and directories only, names of one-byte characters without the
    zero byte, file sizes that are multiples of 4 below 2^32. *)
Fixpoint host_ok (e : HostEntry) : bool :=
  match e with
  | HostFile nm sz =>
      one_byte nm && (0 <=? sz) && (sz <? 2 ^ 32) && (sz mod 4 =? 0)
  | HostDir nm es => one_byte nm && forallb host_ok es
  | HostOther _ => false
  end.

(** ** What a layout pass is compared with *)

(** The integers [start], [start + 1], ... : [n] of them. *)
Fixpoint zrange (start : Z) (n : nat) : list Z :=
  match n with
  | O => []
  | S n' => start :: zrange (start + 1) n'
  end.

(** The nodes the encoder writes a record for, in its order. *)
Definition included (ch : list FSTNode) : list FSTNode :=
  filter (fun n => negb (_exclude (info n))) (rchildren ch).

(** A power of two, the kind of alignment for which rounding up by
    division and rounding up by masking, as [iso.py] does it in place with
    [(x + 0x7FF) & -0x800], agree. *)
Definition is_pow2 (a : Z) : bool := (0 <? a) && (a =? 2 ^ Z.log2 a).

Definition alignment_of (n : FSTNode) : Z :=
  match n with
  | FileNode _ f => _alignment f
  | DirNode _ _ _ => 4
  end.

Definition size_of (n : FSTNode) : Z :=
  match n with
  | FileNode _ f => size f
  | DirNode _ _ _ => 0
  end.

(** The ids of the included nodes of a list. *)
Definition ids_of (l : list FSTNode) : list Z :=
  map (fun n => _id (info n)) (filter (fun n => negb (_exclude (info n))) l).

(** Offset and size of the included files, in the order of [rchildren]. *)
Definition placements_of (l : list FSTNode) : list (Z * Z) :=
  map (fun n => (fileoffset_of n, size_of n))
      (filter (fun n => is_file n && negb (_exclude (info n))) l).

Definition placements (ch : list FSTNode) : list (Z * Z) :=
  placements_of (rchildren ch).

(** The ranges [(offset, size)] follow one another without gap or overlap
    from [d] to [e]. *)
Fixpoint tiled (d : Z) (l : list (Z * Z)) (e : Z) : Prop :=
  match l with
  | [] => d = e
  | (o, s) :: r => o = d /\ 0 <= s /\ tiled (d + s) r e
  end.

(** A tree whose included files have the alignment 4, no forced location
    and a size that is a multiple of 4, and whose directories are not
    excluded. *)
Fixpoint tidy (n : FSTNode) : bool :=
  match n with
  | FileNode c f =>
      _exclude c ||
      ((_alignment f =? 4) && negb (truthy (_position f))
       && (0 <=? size f) && (size f mod 4 =? 0))
  | DirNode c _ ch => negb (_exclude c) && forallb tidy ch
  end.

(** The bytes of the included files of a node. *)
Fixpoint included_bytes_node (n : FSTNode) : Z :=
  match n with
  | FileNode c f => if _exclude c then 0 else size f
  | DirNode c _ ch => fold_right (fun x acc => included_bytes_node x + acc) 0 ch
  end.

Definition included_bytes (ch : list FSTNode) : Z :=
  fold_right (fun x acc => included_bytes_node x + acc) 0 ch.

(** Where a layout pass that starts at [start] may leave a node: an
    included file at a multiple of its alignment, not before [start]; an
    excluded file at 0. *)
Definition placed_ok (start : Z) (n : FSTNode) : Prop :=
  match n with
  | FileNode c f =>
      if _exclude c then _fileoffset f = 0
      else _fileoffset f mod _alignment f = 0 /\ start <= _fileoffset f
  | DirNode _ _ _ => True
  end.

(** A file the layout pass can place: its alignment is a power of two and
    its size is not negative. *)
Definition placeable (n : FSTNode) : bool :=
  match n with
  | FileNode _ f => is_pow2 (_alignment f) && (0 <=? size f)
  | DirNode _ _ _ => true
  end.

(** ** What a decoded tree is compared with *)

(** A node as [_read_nodes] makes it: the fields it took from the record
    are unsigned 32-bit values. *)
Definition decoded_fields (n : FSTNode) : Prop :=
  match n with
  | FileNode c f => 0 <= _fileoffset f < 2 ^ 32 /\ 0 <= size f < 2 ^ 32
  | DirNode c d _ => 0 <= _dirparent d < 2 ^ 32 /\ 0 <= _dirnext d < 2 ^ 32
  end.

(** ** What the encoder is compared with *)

(** A tree the encoder writes without a field out of range: the offset and
    the size of an included file are unsigned 32-bit values, and so is the
    id of an excluded directory, which the records of its children
    carry. *)
Fixpoint savable (n : FSTNode) : bool :=
  match n with
  | FileNode c f =>
      _exclude c ||
      ((0 <=? _fileoffset f) && (_fileoffset f <? 2 ^ 32)
       && (0 <=? size f) && (size f <? 2 ^ 32))
  | DirNode c _ ch =>
      (negb (_exclude c) || ((0 <=? _id c) && (_id c <? 2 ^ 32)))
      && forallb savable ch
  end.

(** The value of [_strOfs] at each included node, in the order of the
    walk, when the walk reaches the node with [_strOfs = so]. *)
Fixpoint name_offsets_node (so : Z) (n : FSTNode) : list Z :=
  match n with
  | FileNode c _ => if _exclude c then [] else [so]
  | DirNode c _ ch =>
      let walk := fix walk (so : Z) (l : list FSTNode) : list Z :=
        match l with
        | [] => []
        | x :: l' => name_offsets_node so x ++ walk (so + names_len_node x) l'
        end in
      if _exclude c then walk so ch
      else so :: walk (so + (Z.of_nat (name_len (name c)) + 1)) ch
  end.

Fixpoint name_offsets (so : Z) (l : list FSTNode) : list Z :=
  match l with
  | [] => []
  | x :: l' => name_offsets_node so x ++ name_offsets (so + names_len_node x) l'
  end.

(** Every name offset fits the three bytes a record has for it. *)
Definition offsets_fit (l : list Z) : bool :=
  forallb (fun o => o <? 2 ^ 24) l.

(** What [save_node] does with a node whose names are of one-byte
    characters when the buffer holds the records [R] and the names [S]: if
    every name offset fits it adds the records and the names of the node,
    and otherwise it raises [OverflowError]. *)
Definition save_node_result (n : FSTNode) : Prop :=
  forall (Tn : nat) (old : list byte) (pid : Z) (buf : list byte) (cur so : Z)
         (R S : list byte),
    single_byte_names n = true ->
    holds Tn old buf R S ->
    so = Z.of_nat (length S) ->
    Z.of_nat (length R) + 12 * entries_node n <= Z.of_nat Tn ->
    0 <= pid < 2 ^ 32 -> 0 <= cur -> cur + entries_node n < 2 ^ 32 ->
    if offsets_fit (name_offsets_node so n) then
      exists buf',
        save_node (Z.of_nat Tn) pid
          (mkSave (mkIO buf (Z.of_nat (length R))) cur so) n =
        Ok (mkSave
              (mkIO buf' (Z.of_nat (length (R ++ records_node pid cur so n))))
              (cur + entries_node n) (so + names_len_node n),
            numbered_node cur n) /\
        holds Tn old buf' (R ++ records_node pid cur so n) (S ++ strings_node n)
    else
      save_node (Z.of_nat Tn) pid
        (mkSave (mkIO buf (Z.of_nat (length R))) cur so) n = Raise OverflowError.

Definition save_list_result (l : list FSTNode) : Prop :=
  forall (Tn : nat) (old : list byte) (pid : Z) (buf : list byte) (cur so : Z)
         (R S : list byte),
    forallb single_byte_names l = true ->
    holds Tn old buf R S ->
    so = Z.of_nat (length S) ->
    Z.of_nat (length R) + 12 * entries l <= Z.of_nat Tn ->
    0 <= pid < 2 ^ 32 -> 0 <= cur -> cur + entries l < 2 ^ 32 ->
    if offsets_fit (name_offsets so l) then
      exists buf',
        save_list (Z.of_nat Tn) pid
          (mkSave (mkIO buf (Z.of_nat (length R))) cur so) l =
        Ok (mkSave
              (mkIO buf' (Z.of_nat (length (R ++ records_list pid cur so l))))
              (cur + entries l) (so + names_len l),
            numbered_list cur l) /\
        holds Tn old buf' (R ++ records_list pid cur so l) (S ++ strings_list l)
    else
      save_list (Z.of_nat Tn) pid
        (mkSave (mkIO buf (Z.of_nat (length R))) cur so) l = Raise OverflowError.

(** ** Taking an image apart *)

(** [iso.read(n)]: a negative [n] reads all that is left. *)
Definition read_upto (n : Z) (s : BytesIO) : list byte * BytesIO :=
  if n <? 0 then read (length (getvalue s)) s else read (Z.to_nat n) s.

(** The part of [init_from_iso] that makes the tree: the FST is cut out of
    the image at [bootheader.fstOffset], [bootheader.fstSize] bytes long,
    and decoded.  A seek to a negative position fails. *)
Definition init_from_iso (iso : BytesIO) (fstOffset fstSize : Z)
  : outcome (list FSTNode * BytesIO * Z) :=
  if fstOffset <? 0 then Raise OSError
  else
    let '(raw, _) := read_upto fstSize (seek fstOffset iso) in
    load_file_systemv (seek 0 (mkIO raw 0)).

(** Modelled from the spec: the descendants in the order of [rchildren],
    each with its virtual path ([child.path], "slash-joined ancestor
    names"). *)
Fixpoint rpaths_node (vdir : string) (n : FSTNode) : list (string * FSTNode) :=
  match n with
  | FileNode c _ => [(join vdir (name c), n)]
  | DirNode c _ ch =>
      (join vdir (name c), n) :: flat_map (rpaths_node (join vdir (name c))) ch
  end.

Definition rpaths (ch : list FSTNode) : list (string * FSTNode) :=
  flat_map (rpaths_node EmptyString) ch.

(** What [extract] leaves under the data directory for one node: a file
    with its bytes, or a directory. *)
Inductive Extracted :=
| ExtractedFile (path : string) (data : list byte)
| ExtractedDir (path : string).

Section Extract.

(** The host directory as [extract] meets it.  Whether the host lets a
    file be opened for writing ([_dest.open("wb")]) or a directory be made
    ([_dest.mkdir(exist_ok=True)]) under a path depends on the host, on
    the name and on what [extract] has made so far, [done]: an empty
    name, a name that is too long for the host, a name that is already
    taken by a directory are refused.  [None] is for a call the host
    accepts, [Some e] for one that raises [e]. *)
Variable open_error : list Extracted -> string -> option error.
Variable mkdir_error : list Extracted -> string -> option error.

(** The loop of [extract] over [self.rchildren]; the result is what the
    loop has made, in its order. *)
Fixpoint extract_nodes (done : list Extracted) (nodes : list (string * FSTNode))
    (iso : BytesIO) : outcome (list Extracted) :=
  match nodes with
  | [] => Ok done
  | (path, FileNode c f) :: rest =>
      match open_error done path with
      | Some e => Raise e
      | None =>
          if _fileoffset f <? 0 then Raise OSError
          else
            let '(data, iso) := read_upto (size f) (seek (_fileoffset f) iso) in
            extract_nodes (done ++ [ExtractedFile path data]) rest iso
      end
  | (path, DirNode _ _ _) :: rest =>
      match mkdir_error done path with
      | Some e => Raise e
      | None => extract_nodes (done ++ [ExtractedDir path]) rest iso
      end
  end.

Definition extract (iso : BytesIO) (ch : list FSTNode) : outcome (list Extracted) :=
  extract_nodes [] (rpaths ch) iso.

(** What the host answers when [extract] comes to a node. *)
Definition host_answer (done : list Extracted) (pn : string * FSTNode)
  : option error :=
  match snd pn with
  | FileNode _ _ => open_error done (fst pn)
  | DirNode _ _ _ => mkdir_error done (fst pn)
  end.

End Extract.

(** A host that refuses nothing. *)
Definition host_accepts (answer : list Extracted -> string -> option error)
  : Prop :=
  forall done path, answer done path = None.

(** The bytes of the image in the range of a file, as far as the image
    goes, and the directory of a directory. *)
Definition extracted_of (img : list byte) (pn : string * FSTNode) : Extracted :=
  match snd pn with
  | FileNode c f =>
      ExtractedFile (fst pn) (seg img (_fileoffset f) (Z.to_nat (size f)))
  | DirNode _ _ _ => ExtractedDir (fst pn)
  end.

(** The host directory as files and directories under their paths. *)
Definition on_host (read_bytes : string -> list byte) (pn : string * FSTNode)
  : Extracted :=
  if is_file (snd pn) then ExtractedFile (fst pn) (read_bytes (fst pn))
  else ExtractedDir (fst pn).

(** The payloads [build] writes, in its order. *)
Definition payloads (read_bytes : string -> list byte) (ch : list FSTNode)
  : list (list byte) :=
  map (fun pn => read_bytes (fst pn))
      (filter (fun pn => negb (_exclude (info (snd pn)))) (rfiles ch)).

(** The exclusion table says of every file what its mark says, and the
    host file is as long as the node records. *)
Definition host_agrees (fnmatch : string -> string -> bool)
    (read_bytes : string -> list byte) (_excludeTable : list string)
    (pn : string * FSTNode) : Prop :=
  _get_excluded fnmatch _excludeTable (fst pn) = _exclude (info (snd pn)) /\
  Z.of_nat (length (read_bytes (fst pn))) = size_of (snd pn).

(** Offset and length of what is written, file by file. *)
Definition ranges (ws : list (Z * list byte)) : list (Z * Z) :=
  map (fun w => (fst w, Z.of_nat (length (snd w)))) ws.

(** A node [extract] can seek to and read. *)
Definition in_range (pn : string * FSTNode) : Prop :=
  match snd pn with
  | FileNode c f => 0 <= _fileoffset f /\ 0 <= size f
  | DirNode _ _ _ => True
  end.

(** ** Making the tables again from the tree *)

(** [SortedList.add] of [sortedcontainers]. *)
Fixpoint sl_add (k : string) (l : list string) : list string :=
  match l with
  | [] => [k]
  | k' :: l' =>
      match String.compare k k' with
      | Lt => k :: l
      | _ => k' :: sl_add k l'
      end
  end.

(** The three tables of an [ISOBase]. *)
Record Tables := mkTables {
  t_alignment : SortedDict;
  t_location : SortedDict;
  t_exclude : list string
}.

(** The body of the loop of [_save_config_regen] for the node [node] with
    the path [path]. *)
Definition regen_step (tb : Tables) (pn : string * FSTNode) : Tables :=
  let '(path, node) := pn in
  let tb :=
    match node with
    | FileNode c f =>
        let tb :=
          if _alignment f >? 4
          then mkTables (sd_setitem path (_alignment f) (t_alignment tb))
                        (t_location tb) (t_exclude tb)
          else tb in
        match _position f with
        | Some p =>
            if truthy (Some p)
            then mkTables (t_alignment tb) (sd_setitem path p (t_location tb))
                          (t_exclude tb)
            else tb
        | None => tb
        end
    | DirNode _ _ _ => tb
    end in
  if _exclude (info node)
  then mkTables (t_alignment tb) (t_location tb) (sl_add path (t_exclude tb))
  else tb.

(** [_save_config_regen], up to the call of [save_config]: the tables are
    cleared and filled from the tree. *)
Definition _save_config_regen (ch : list FSTNode) : Tables :=
  fold_left regen_step (rpaths ch) (mkTables [] [] []).

(** The alignment a node brings to the table: one above 4. *)
Definition kept_alignment (n : FSTNode) : option Z :=
  match n with
  | FileNode _ f => if _alignment f >? 4 then Some (_alignment f) else None
  | DirNode _ _ _ => None
  end.

(** The location a node brings to the table: one that is not 0. *)
Definition kept_location (n : FSTNode) : option Z :=
  match n with
  | FileNode _ f => if truthy (_position f) then _position f else None
  | DirNode _ _ _ => None
  end.

(** The matcher takes the paths of the tree literally: a path matches the
    path it is, and no other. *)
Definition literal_on (fnmatch : string -> string -> bool) (paths : list string)
  : Prop :=
  forall p k, In p paths -> In k paths -> fnmatch p (strip k) = String.eqb p k.

(** A table filled from the nodes, path by path, with what [sel] takes of
    each node. *)
Definition fill (sel : FSTNode -> option Z) (nodes : list (string * FSTNode))
    (d : SortedDict) : SortedDict :=
  fold_left (fun d pn =>
               match sel (snd pn) with
               | Some v => sd_setitem (fst pn) v d
               | None => d
               end) nodes d.

(** ** What decoding keeps *)

(** What decoding keeps of a node the codec can carry. *)
Definition decoded_same (pid cur : Z) (n : FSTNode) : Prop :=
  let n' := decoded_node pid cur n in
  encodable n' /\
  entries_node n' = entries_node n /\
  names_len_node n' = names_len_node n /\
  strings_node n' = strings_node n /\
  host_of n' = host_of n /\
  map fileoffset_of (rchildren_node n') = map fileoffset_of (rchildren_node n) /\
  forall so, records_node pid cur so n' = records_node pid cur so n.

Definition decoded_same_list (pid cur : Z) (l : list FSTNode) : Prop :=
  let l' := decoded_list pid cur l in
  Forall encodable l' /\
  entries l' = entries l /\
  names_len l' = names_len l /\
  strings_list l' = strings_list l /\
  map host_of l' = map host_of l /\
  map fileoffset_of (rchildren l') = map fileoffset_of (rchildren l) /\
  forall so, records_list pid cur so l' = records_list pid cur so l.

(** ** More inputs of the examples *)

(** A host directory with the file [b.bin] and the directory [data], which
    holds [a.bin] and [skip.tmp]; an ignore list that matches [data] and
    [skip.tmp];
    an Alignment table for what is under [data] and a Location table for
    [b.bin]; and the tree [_load_from_path] makes of them. *)
Definition nested_host : list HostEntry :=
  [HostFile "b.bin" 4;
   HostDir "data" [HostFile "a.bin" 8; HostFile "skip.tmp" 3]].

Definition nested_ignore : list string := ["data"%string; "*.tmp"%string].

(** A matcher for the host paths of the examples: [PurePath.match] raises
    on the empty pattern, and matches the patterns of the examples as
    [glob_match] does. *)
Definition glob_path_match (path pat : string) : option bool :=
  if String.eqb pat "" then None else Some (glob_match path pat).

Definition nested_alignment : SortedDict := SortedDict_of [("data/*"%string, 32)].

Definition nested_location : SortedDict := SortedDict_of [("b.bin"%string, 4096)].

Definition nested_loaded : list FSTNode :=
  [FileNode (mkInfo "b.bin" 0 false) (mkFile 4 0 4 (Some 4096));
   DirNode (mkInfo "data" 0 false) (mkDir 0 0)
     [FileNode (mkInfo "a.bin" 0 false) (mkFile 8 0 32 None);
      FileNode (mkInfo "skip.tmp" 0 true) (mkFile 3 0 32 None)]].

(** The directory [data] with [a.bin] of 8 bytes and [b.bin] of 4 bytes
    on the host and as loaded with empty tables, and the payloads of the
    two files. *)
Definition tidy_host : list HostEntry :=
  [HostDir "data" [HostFile "a.bin" 8; HostFile "b.bin" 4]].

Definition tidy_tree : list FSTNode :=
  [DirNode (mkInfo "data" 0 false) (mkDir 0 0)
     [FileNode (mkInfo "a.bin" 0 false) (mkFile 8 0 4 None);
      FileNode (mkInfo "b.bin" 0 false) (mkFile 4 0 4 None)]].

Definition tidy_payload (vpath : string) : list byte :=
  if String.eqb vpath "data/a.bin" then repeat x01 8 else repeat x02 4.

(** A buffer with a valid root prefix, the entry count 1 and two more
    bytes. *)
Definition empty_root_fst : list byte :=
  [x01; x00; x00; x00;  x00; x00; x00; x00;  x00; x00; x00; x01;  xff; xff].

(** A tree with an excluded file, and an excluded directory of id 7 that
    holds an included file; and a buffer of 64 bytes [ff]. *)
Definition excluded_tree : list FSTNode :=
  [FileNode (mkInfo "skip.tmp" 0 true) (mkFile 3 0 4 None);
   DirNode (mkInfo "old" 7 true) (mkDir 0 0)
     [FileNode (mkInfo "a.bin" 0 false) (mkFile 8 4096 4 None)]].

Definition stale_buffer : list byte := repeat xff 64.

(** A tree with settings of every kind: an alignment above 4 and a forced
    location, an alignment below 4, an excluded file with the location
    0. *)
Definition settings_tree : list FSTNode :=
  [FileNode (mkInfo "b.bin" 0 false) (mkFile 4 0 32 (Some 4096));
   DirNode (mkInfo "data" 0 false) (mkDir 0 0)
     [FileNode (mkInfo "a.bin" 0 false) (mkFile 8 0 2 None);
      FileNode (mkInfo "skip.tmp" 0 true) (mkFile 3 0 4 (Some 0))]].

(** The directory [data] with two files at offsets no layout pass would
    give them. *)
Definition placed_tree : list FSTNode :=
  [DirNode (mkInfo "data" 1 false) (mkDir 0 4)
     [FileNode (mkInfo "a.bin" 2 false) (mkFile 10 4096 4 None);
      FileNode (mkInfo "b.bin" 3 false) (mkFile 20 123456 4 None)]].

(** A file with a name of 255 bytes, and 65537 such files under
    the root: the names before the last one take 2^24 bytes. *)
Definition long_name : string :=
  string_of_list_ascii (repeat "a"%char 255).

Definition long_name_file : FSTNode :=
  FileNode (mkInfo long_name 0 false) (mkFile 0 0 4 None).

Definition many_long_names : list FSTNode :=
  repeat long_name_file (Z.to_nat 65537).

(** ** A tree without its excluded files *)

(** The node without the excluded files under it; an excluded file gives
    nothing. *)
Fixpoint prune (n : FSTNode) : list FSTNode :=
  match n with
  | FileNode c _ => if _exclude c then [] else [n]
  | DirNode c d ch => [DirNode c d (flat_map prune ch)]
  end.

(** A tree as [_load_from_path] marks it, that the codec can carry: only
    files are excluded, the names of the included nodes are of one-byte
    characters without the zero byte, and the offset and the size of an
    included file are unsigned 32-bit values. *)
Fixpoint carryable (n : FSTNode) : bool :=
  match n with
  | FileNode c f =>
      _exclude c ||
      (one_byte (name c)
       && (0 <=? _fileoffset f) && (_fileoffset f <? 2 ^ 32)
       && (0 <=? size f) && (size f <? 2 ^ 32))
  | DirNode c _ ch => negb (_exclude c) && one_byte (name c) && forallb carryable ch
  end.

(** What the table of a node keeps when its excluded files are taken
    away. *)
Definition pruned_same (n : FSTNode) : Prop :=
  Forall encodable (prune n) /\
  savable n = true /\
  entries (prune n) = entries_node n /\
  names_len (prune n) = names_len_node n /\
  strings_list (prune n) = strings_node n /\
  forall pid cur so, records_list pid cur so (prune n) = records_node pid cur so n.

Definition pruned_same_list (l : list FSTNode) : Prop :=
  Forall encodable (flat_map prune l) /\
  forallb savable l = true /\
  entries (flat_map prune l) = entries l /\
  names_len (flat_map prune l) = names_len l /\
  strings_list (flat_map prune l) = strings_list l /\
  forall pid cur so,
    records_list pid cur so (flat_map prune l) = records_list pid cur so l.

(** A tree with an excluded file beside an included one. *)
Definition marked_tree : list FSTNode :=
  [DirNode (mkInfo "data" 1 false) (mkDir 0 3)
     [FileNode (mkInfo "a.bin" 2 false) (mkFile 8 4096 4 None);
      FileNode (mkInfo "skip.tmp" 0 true) (mkFile 3 0 4 None)]].


(** The name of the one character U+30A2, two bytes in Shift-JIS, and a
    tree in which a file of that name comes before the file [b]. *)
Definition two_byte_name : string :=
  String (ascii_of_N 131) (String (ascii_of_N 65) EmptyString).

Definition two_byte_tree : list FSTNode :=
  [FileNode (mkInfo two_byte_name 0 false) (mkFile 4 4096 4 None);
   FileNode (mkInfo "b" 0 false) (mkFile 4 8192 4 None)].

(** The table of one file whose name is the byte 0x80, which is no
    character of Shift-JIS. *)
Definition bad_name_fst : list byte :=
  [x01; x00; x00; x00;  x00; x00; x00; x00;  x00; x00; x00; x02;
   x00; x00; x00; x00;  x00; x00; x10; x00;  x00; x00; x00; x04;
   x80; x00].


(** * Properties *)

(** ** The order of the alignment table *)

Lemma str_lt_trans a b c : str_lt a b -> str_lt b c -> str_lt a c.
Proof.
  unfold str_lt. intros H1 H2.
  apply OrderedTypeEx.String_as_OT.cmp_lt in H1. apply OrderedTypeEx.String_as_OT.cmp_lt in H2.
  apply OrderedTypeEx.String_as_OT.cmp_lt. eapply OrderedTypeEx.String_as_OT.lt_trans; eassumption.
Qed.

Lemma str_lt_irrefl a : ~ str_lt a a.
Proof.
  unfold str_lt. intros H.
  assert (E : String.compare a a = Eq) by (apply OrderedTypeEx.String_as_OT.cmp_eq; reflexivity).
  congruence.
Qed.

Lemma str_gt_lt a b : String.compare a b = Gt -> str_lt b a.
Proof.
  unfold str_lt. intros H. rewrite String.compare_antisym, H. reflexivity.
Qed.

Lemma sd_setitem_In k v d x :
  In x (sd_setitem k v d) -> x = (k, v) \/ In x d.
Proof.
  induction d as [|[k' v'] d IH]; simpl.
  - intros [H|[]]; auto.
  - destruct (String.compare k k') eqn:E; simpl; intros H.
    + destruct H as [H|H]; auto.
    + destruct H as [H|[H|H]]; auto.
    + destruct H as [H|H]; auto. destruct (IH H); auto.
Qed.

Lemma sd_setitem_sorted k v d :
  StronglySorted key_lt d -> StronglySorted key_lt (sd_setitem k v d).
Proof.
  induction d as [|[k' v'] d IH]; simpl; intros Hs.
  - constructor; constructor.
  - inversion Hs as [|? ? Hd Hall]; subst.
    destruct (String.compare k k') eqn:E.
    + apply OrderedTypeEx.String_as_OT.cmp_eq in E. subst k'.
      constructor; assumption.
    + constructor; [assumption|].
      constructor; [exact E|].
      rewrite Forall_forall in *. intros x Hx.
      eapply str_lt_trans; [exact E|]. apply (Hall x Hx).
    + constructor; [apply IH; assumption|].
      rewrite Forall_forall in *. intros x Hx.
      destruct (sd_setitem_In _ _ _ _ Hx) as [->|Hin].
      * apply str_gt_lt; exact E.
      * apply Hall; assumption.
Qed.

Lemma SortedDict_of_sorted data : StronglySorted key_lt (SortedDict_of data).
Proof.
  unfold SortedDict_of.
  assert (G : forall d, StronglySorted key_lt d ->
            StronglySorted key_lt
              (fold_left (fun d kv => sd_setitem (fst kv) (snd kv) d) data d)).
  { induction data as [|[k v] data IH]; simpl; intros d Hd; [assumption|].
    apply IH. apply sd_setitem_sorted; assumption. }
  apply G. constructor.
Qed.

Section TableFacts.

Variable fnmatch : string -> string -> bool.

Lemma first_match_none path d :
  (forall k v, In (k, v) d -> fnmatch path (strip k) = false) ->
  first_match fnmatch path d = None.
Proof.
  induction d as [|[k v] d IH]; simpl; intros H; [reflexivity|].
  rewrite (H k v) by auto. apply IH. intros k' v' Hin. apply (H k' v'); auto.
Qed.

Lemma first_match_least path d k v :
  StronglySorted key_lt d ->
  In (k, v) d ->
  fnmatch path (strip k) = true ->
  (forall k' v', In (k', v') d -> fnmatch path (strip k') = true ->
                 k' = k \/ str_lt k k') ->
  first_match fnmatch path d = Some v.
Proof.
  induction d as [|[k0 v0] d IH]; simpl; intros Hs Hin Hm Hleast; [contradiction|].
  inversion Hs as [|? ? Hd Hall]; subst.
  destruct (fnmatch path (strip k0)) eqn:E0.
  - destruct Hin as [Heq|Hin]; [congruence|].
    exfalso.
    rewrite Forall_forall in Hall. specialize (Hall _ Hin). unfold key_lt in Hall.
    simpl in Hall.
    destruct (Hleast k0 v0 (or_introl eq_refl) E0) as [->|Hlt].
    + exact (str_lt_irrefl _ Hall).
    + exact (str_lt_irrefl _ (str_lt_trans _ _ _ Hall Hlt)).
  - destruct Hin as [Heq|Hin]; [congruence|].
    apply IH; auto.
    intros k' v' Hin' Hm'. apply (Hleast k' v'); auto.
Qed.

(** C7.  The table [SortedDict(data)] holds its patterns in ascending
    lexicographic order; [_get_alignment] is 4 when no pattern of the
    table matches the path, and otherwise the value of the matching pattern
    that sorts first, whatever else matches. *)
Theorem get_alignment_first_match (data : list (string * Z)) (path : string) :
  let tbl := SortedDict_of data in
  StronglySorted key_lt tbl /\
  ((forall k v, In (k, v) tbl -> fnmatch path (strip k) = false) ->
   _get_alignment fnmatch tbl path = 4) /\
  (forall k v,
      In (k, v) tbl ->
      fnmatch path (strip k) = true ->
      (forall k' v', In (k', v') tbl -> fnmatch path (strip k') = true ->
                     k' = k \/ str_lt k k') ->
      _get_alignment fnmatch tbl path = v).
Proof.
  intros tbl. pose proof (SortedDict_of_sorted data) as Hs. fold tbl in Hs.
  split; [assumption|]. split.
  - intros H. unfold _get_alignment. destruct tbl; [reflexivity|].
    rewrite first_match_none by assumption. reflexivity.
  - intros k v Hin Hm Hleast. unfold _get_alignment.
    destruct tbl as [|x r] eqn:E; [contradiction|].
    rewrite (first_match_least path (x :: r) k v); auto.
Qed.

End TableFacts.

(** The two patterns of the scenario: ["*.bin"] sorts before ["a*"]. *)
Lemma get_alignment_first_match_witness :
  _get_alignment glob_match
    (SortedDict_of [("a*"%string, 8); ("*.bin"%string, 32)]) "a.bin" = 32.
Proof.
  apply (proj2 (proj2 (get_alignment_first_match glob_match
           [("a*"%string, 8); ("*.bin"%string, 32)] "a.bin")) "*.bin"%string 32).
  - vm_compute. auto.
  - reflexivity.
  - vm_compute. intros k' v' [H|[H|[]]] _; inversion H; subst; auto.
Defined.

(** ** The tree and the layout pass *)

Lemma FSTNode_ind' (P : FSTNode -> Prop) :
  (forall c f, P (FileNode c f)) ->
  (forall c d ch, Forall P ch -> P (DirNode c d ch)) ->
  forall n, P n.
Proof.
  intros Hf Hd. fix IH 1. intros [c f|c d ch].
  - apply Hf.
  - apply Hd. induction ch as [|x ch IHch]; constructor; [apply IH | exact IHch].
Qed.

Lemma plan_node_dir pid st c d ch :
  plan_node pid st (DirNode c d ch) =
  if _exclude c then
    let '(st', ch') := plan_list (_id c) st ch in (st', DirNode c d ch')
  else
    let '(st', ch') :=
      plan_list (_curEntry st) (mkPlan (_dataOfs st) (_curEntry st + 1)) ch in
    (st', DirNode (set_id c (_curEntry st))
                  (mkDir pid (dir_size ch + _curEntry st)) ch').
Proof. reflexivity. Qed.

Lemma collect_child_dir c d ch s :
  _collect_child (DirNode c d ch) s =
  if _exclude c then s else _collect_size ch s.
Proof. simpl. rewrite orb_false_r. reflexivity. Qed.

Lemma entries_node_dir c d ch :
  entries_node (DirNode c d ch) =
  if _exclude c then entries ch else 1 + entries ch.
Proof. reflexivity. Qed.

Lemma entries_cons x l : entries (x :: l) = entries_node x + entries l.
Proof. reflexivity. Qed.
















Lemma plan_file_included st c f :
  _exclude c = false ->
  plan_file st c f =
  (mkPlan (_dataOfs st + size f) (_curEntry st + 1),
   FileNode (set_id c (_curEntry st))
     (set_fileoffset f (align_int (_dataOfs st) (_alignment f)))).
Proof.
  intros Hex. unfold plan_file. rewrite Hex.
  destruct f as [sz off al [p|]]; simpl; [destruct (p =? 0)|]; reflexivity.
Qed.

Lemma align_int_multiple num alignment :
  align_int num alignment mod alignment = 0.
Proof.
  unfold align_int. destruct (Z.eq_dec alignment 0) as [->|Hnz].
  - rewrite Z.mul_0_r. reflexivity.
  - apply Z.mod_mul; assumption.
Qed.

(** C2, on the data directory with the one file [a.bin] and the Location
    table that puts it at 4096.  The layout pass of [load_file_system]
    leaves the file at [MaxSize], the start of the automatic region, and not
    at 4096, which is the forced location rounded up to the alignment 4: the
    offset taken from the forced location is written over by the automatic
    one. *)
Theorem forced_location_overwritten (fnmatch : string -> string -> bool)
    (path_match : string -> string -> option bool) (unset : Unset) :
  load_file_system fnmatch path_match unset [] forced_location_table []
    forced_host =
    Ok [FileNode (mkInfo "a.bin" 1 false) (mkFile 4 MaxSize 4 (Some 4096))] /\
  align_int 4096 4 = 4096 /\
  MaxSize <> align_int 4096 4.
Proof.
  split; [reflexivity|]. split; [reflexivity|]. discriminate.
Qed.

(** C3, on the data directory with [a.bin] (10 bytes, alignment 32) and
    [b.bin] (5 bytes).  [get_auto_blob_size] gives 17, the size section 4.3
    words gives 20, and the placement pass started at [MaxSize - 17] moves
    its data offset by 16; it puts [a.bin] at [MaxSize], past the region
    from [MaxSize - 17] to [MaxSize]. *)
Theorem auto_blob_size_differs_from_placement
    (path_match : string -> string -> option bool) (unset : Unset) :
  exists ch a b,
    _load_from_path glob_match path_match unset two_files_alignment [] []
      EmptyString EmptyString two_files_host = Ok ch /\
    get_auto_blob_size ch = 17 /\
    spec_autoPayloadSize ch = 20 /\
    placement_consumed (MaxSize - get_auto_blob_size ch) ch = 16 /\
    pre_calc_metadata (MaxSize - get_auto_blob_size ch) ch = [a; b] /\
    fileoffset_of a = MaxSize /\
    fileoffset_of b = MaxSize - 4.
Proof.
  eexists. eexists. eexists.
  split; [reflexivity|]. split; [reflexivity|]. split; [reflexivity|].
  split; [reflexivity|]. split; [reflexivity|]. split; reflexivity.
Qed.

(** C9, on the data directory with the one file [a.bin] of 6 bytes and an
    empty Alignment table.  [build] hands [save_file_systemv] the start
    [MaxSize - 6] rounded down to 4, that is [MaxSize - 8], but the layout
    pass runs from [MaxSize - 6] all the same: the file lands at
    [MaxSize - 4], where the start of [build] would put it at
    [MaxSize - 8].  And [_get_greatest_alignment] is the value of the last
    pattern, 4, on a table that also holds 32. *)
Theorem build_start_not_used
    (path_match : string -> string -> option bool) (unset : Unset) :
  exists ch raw,
    _load_from_path glob_match path_match unset [] [] [] EmptyString
      EmptyString six_bytes_host = Ok ch /\
    build_layout [] (mkIO [] 0) ch =
      Ok (pre_calc_metadata (MaxSize - get_auto_blob_size ch) ch, raw) /\
    Z.land (MaxSize - get_auto_blob_size ch) (- _get_greatest_alignment [])
      = MaxSize - 8 /\
    map fileoffset_of (pre_calc_metadata (MaxSize - get_auto_blob_size ch) ch)
      = [MaxSize - 4] /\
    map fileoffset_of (pre_calc_metadata (MaxSize - 8) ch) = [MaxSize - 8] /\
    _get_greatest_alignment
      (SortedDict_of [("a"%string, 32); ("b"%string, 4)]) = 4.
Proof.
  eexists. eexists.
  split; [reflexivity|]. split; [vm_compute; reflexivity|].
  split; [reflexivity|]. split; [reflexivity|]. split; reflexivity.
Qed.

(** The start [build] computes never reaches the layout pass. *)
Lemma build_layout_ignores_table tbl tbl' rawFST ch :
  build_layout tbl rawFST ch = build_layout tbl' rawFST ch.
Proof. reflexivity. Qed.

(** ** Reading from a stream *)

Lemma from_pos_skipn buf p : 0 <= p -> from_pos buf p = skipn (Z.to_nat p) buf.
Proof.
  intros Hp. unfold from_pos.
  destruct (p <? 0) eqn:E1; [apply Z.ltb_lt in E1; lia|].
  destruct (Z.of_nat (length buf) <=? p) eqn:E2; simpl; [|reflexivity].
  apply Z.leb_le in E2. symmetry. apply skipn_all2. lia.
Qed.

Lemma read_eq n s :
  0 <= tell s ->
  read n s = (seg (getvalue s) (tell s) n,
              mkIO (getvalue s) (tell s + Z.of_nat (length (seg (getvalue s) (tell s) n)))).
Proof. intros H. unfold read, seg. rewrite from_pos_skipn by assumption. reflexivity. Qed.

Lemma seg_length buf p n :
  0 <= p ->
  Z.of_nat (length (seg buf p n)) =
  Z.min (Z.of_nat n) (Z.max 0 (Z.of_nat (length buf) - p)).
Proof.
  intros Hp. unfold seg. rewrite length_firstn, length_skipn. lia.
Qed.

Lemma seg_full buf p n :
  0 <= p -> p + Z.of_nat n <= Z.of_nat (length buf) -> length (seg buf p n) = n.
Proof. intros Hp Hn. pose proof (seg_length buf p n Hp). lia. Qed.

Lemma read_ubyte_spec s :
  0 <= tell s ->
  read_ubyte s =
  if tell s + 1 <=? Z.of_nat (length (getvalue s))
  then Ok (from_bytes (seg (getvalue s) (tell s) 1), mkIO (getvalue s) (tell s + 1))
  else Raise StructError.
Proof.
  intros Hp. unfold read_ubyte. rewrite read_eq by assumption.
  pose proof (seg_length (getvalue s) (tell s) 1 Hp) as HL.
  destruct (tell s + 1 <=? Z.of_nat (length (getvalue s))) eqn:E.
  - apply Z.leb_le in E.
    assert (HL1 : length (seg (getvalue s) (tell s) 1) = 1%nat) by lia.
    rewrite HL1. reflexivity.
  - apply Z.leb_gt in E.
    destruct (Nat.eqb_spec (length (seg (getvalue s) (tell s) 1)) 1); [lia|reflexivity].
Qed.

Lemma read_uint32_spec s :
  0 <= tell s ->
  read_uint32 s =
  if tell s + 4 <=? Z.of_nat (length (getvalue s))
  then Ok (from_bytes (seg (getvalue s) (tell s) 4), mkIO (getvalue s) (tell s + 4))
  else Raise StructError.
Proof.
  intros Hp. unfold read_uint32. rewrite read_eq by assumption.
  pose proof (seg_length (getvalue s) (tell s) 4 Hp) as HL.
  destruct (tell s + 4 <=? Z.of_nat (length (getvalue s))) eqn:E.
  - apply Z.leb_le in E.
    assert (HL1 : length (seg (getvalue s) (tell s) 4) = 4%nat) by lia.
    rewrite HL1. reflexivity.
  - apply Z.leb_gt in E.
    destruct (Nat.eqb_spec (length (seg (getvalue s) (tell s) 4)) 4); [lia|reflexivity].
Qed.

(** A record is read whole or not at all. *)
Lemma read_record_spec s :
  0 <= tell s ->
  read_record s =
  if tell s + 12 <=? Z.of_nat (length (getvalue s))
  then Ok (from_bytes (seg (getvalue s) (tell s) 1),
           from_bytes (seg (getvalue s) (tell s + 1) 3),
           from_bytes (seg (getvalue s) (tell s + 4) 4),
           from_bytes (seg (getvalue s) (tell s + 8) 4),
           mkIO (getvalue s) (tell s + 12))
  else Raise StructError.
Proof.
  intros Hp. unfold read_record.
  rewrite read_ubyte_spec by assumption.
  destruct (tell s + 1 <=? Z.of_nat (length (getvalue s))) eqn:E1;
    [apply Z.leb_le in E1|apply Z.leb_gt in E1].
  2:{ simpl. destruct (tell s + 12 <=? _) eqn:E; [apply Z.leb_le in E; lia|reflexivity]. }
  cbn [bind].
  rewrite read_eq by (simpl; lia). cbn [getvalue tell].
  pose proof (seg_length (getvalue s) (tell s + 1) 3 ltac:(lia)) as HL.
  rewrite read_uint32_spec by (simpl; lia). cbn [getvalue tell].
  destruct (tell s + 12 <=? Z.of_nat (length (getvalue s))) eqn:E;
    [apply Z.leb_le in E|apply Z.leb_gt in E].
  - assert (HL3 : length (seg (getvalue s) (tell s + 1) 3) = 3%nat) by lia.
    rewrite HL3.
    replace (tell s + 1 + Z.of_nat 3) with (tell s + 4) by lia.
    destruct (tell s + 4 + 4 <=? _) eqn:E4; [|apply Z.leb_gt in E4; lia].
    cbn [bind]. rewrite read_uint32_spec by (simpl; lia). cbn [getvalue tell].
    destruct (tell s + 4 + 4 + 4 <=? _) eqn:E8; [|apply Z.leb_gt in E8; lia].
    cbn [bind].
    replace (tell s + 4 + 4) with (tell s + 8) by lia.
    replace (tell s + 8 + 4) with (tell s + 12) by lia. reflexivity.
  - destruct (_ + 4 <=? _) eqn:E4; [apply Z.leb_le in E4|reflexivity].
    cbn [bind]. rewrite read_uint32_spec by (simpl; lia). cbn [getvalue tell].
    destruct (_ + 4 <=? _) eqn:E8; [apply Z.leb_le in E8; lia|reflexivity].
Qed.

Lemma read_nodes_unfold fuel s cur strTabOfs :
  _read_nodes (S fuel) s cur strTabOfs =
  do r <- read_record s;
  let '(_type, _nameOfs, _entryOfs, _size, fst1) := r in
  do nm <- name_at (getvalue fst1) (strTabOfs + _nameOfs);
  if _type =? FOLDER then
    do r2 <- read_children fuel fst1 (cur + 1) _size strTabOfs;
    let '(ch, fst2, cur2) := r2 in
    Ok (DirNode (mkInfo nm cur false) (mkDir _entryOfs _size) ch, fst2, cur2)
  else
    Ok (FileNode (mkInfo nm cur false) (mkFile _size _entryOfs 4 None),
        fst1, cur + 1).
Proof.
  cbn [_read_nodes]. unfold read_record.
  destruct (read_ubyte s) as [[ty s1]| | |]; cbn [bind]; try reflexivity.
  destruct (read 3 s1) as [raw3 s2].
  destruct (read_uint32 s2) as [[e s3]| | |]; cbn [bind]; try reflexivity.
  destruct (read_uint32 s3) as [[sz s4]| | |]; cbn [bind]; try reflexivity.
  destruct s4 as [buf p]. unfold name_at, read_string, seek.
  cbn [getvalue tell fst].
  destruct (existsb _ _); [|reflexivity].
  destruct (decodable _); [|reflexivity].
  cbn [bind fst getvalue].
  destruct (ty =? FOLDER); [|reflexivity].
  destruct (read_children fuel {| getvalue := buf; tell := p |} (cur + 1) sz strTabOfs)
    as [[[ch s5] c5]| | |]; reflexivity.
Qed.

Lemma name_at_cases buf offset :
  (exists nm, name_at buf offset = Ok nm) \/
  name_at buf offset = Raise UnicodeDecodeError \/
  name_at buf offset = NoReturn.
Proof.
  unfold name_at, read_string. cbn [getvalue].
  destruct (existsb _ _); [|right; right; reflexivity].
  destruct (decodable _); [left; eexists; reflexivity|right; left; reflexivity].
Qed.

Lemma read_children_unfold fuel fst cur limit strTabOfs :
  read_children (S fuel) fst cur limit strTabOfs =
  if cur <? limit then
    do r <- _read_nodes fuel fst cur strTabOfs;
    let '(child, fst1, cur1) := r in
    do r2 <- read_children fuel fst1 cur1 limit strTabOfs;
    let '(rest, fst2, cur2) := r2 in
    Ok (child :: rest, fst2, cur2)
  else Ok ([], fst, cur).
Proof.
  cbn [read_children]. destruct (cur <? limit); [|reflexivity].
  destruct (_read_nodes fuel fst cur strTabOfs) as [[[c s1] c1]| | |]; cbn [bind];
    reflexivity.
Qed.

(** ** Decoding fails only in the readers and in the codec *)

Lemma records_left_step s s' :
  getvalue s' = getvalue s ->
  tell s + 12 <= tell s' ->
  tell s' <= Z.of_nat (length (getvalue s)) ->
  (records_left s' + 1 <= records_left s)%nat.
Proof.
  intros Hb Hlo Hhi. unfold records_left. rewrite Hb.
  set (len := Z.of_nat (length (getvalue s))) in *.
  assert (H1 : (len - tell s') / 12 <= (len - tell s - 12) / 12)
    by (apply Z.div_le_mono; lia).
  assert (H2 : (len - tell s - 12) / 12 = (len - tell s) / 12 - 1).
  { replace (len - tell s - 12) with (len - tell s + (-1) * 12) by lia.
    rewrite Z.div_add by lia. lia. }
  assert (H3 : 0 <= (len - tell s') / 12) by (apply Z.div_pos; lia).
  lia.
Qed.

Lemma decode_total fuel :
  (forall s cur T,
      0 <= tell s -> (2 * records_left s + 1 <= fuel)%nat ->
      node_post s cur (_read_nodes fuel s cur T)) /\
  (forall s cur limit T,
      0 <= tell s -> (2 * records_left s + 2 <= fuel)%nat ->
      children_post s cur limit (read_children fuel s cur limit T)).
Proof.
  induction fuel as [|fuel [IHn IHc]].
  - split; intros; lia.
  - split.
    + intros s cur T Hp Hf.
      rewrite read_nodes_unfold, read_record_spec by assumption.
      destruct (tell s + 12 <=? Z.of_nat (length (getvalue s))) eqn:E;
        [apply Z.leb_le in E|left; reflexivity].
      cbn [bind].
      set (s1 := {| getvalue := getvalue s; tell := tell s + 12 |}).
      assert (Hstep : (records_left s1 + 1 <= records_left s)%nat)
        by (apply records_left_step; unfold s1; simpl; try reflexivity; lia).
      assert (Ht : tell s1 = tell s + 12) by reflexivity.
      assert (Hg : getvalue s1 = getvalue s) by reflexivity.
      clearbody s1.
      destruct (name_at_cases (getvalue s1)
                  (T + from_bytes (seg (getvalue s) (tell s + 1) 3)))
        as [[nm ->]|[-> | ->]];
        [cbn [bind]|right; reflexivity|exact I].
      destruct (_ =? FOLDER).
      * specialize (IHc s1 (cur + 1)
                      (from_bytes (seg (getvalue s) (tell s + 8) 4)) T
                      ltac:(lia) ltac:(lia)).
        destruct (read_children fuel s1 _ _ T) as [[[ch s2] c2]| | |];
          cbn [bind]; unfold children_post in IHc; unfold node_post;
          [|exact IHc|exact IHc|exact IHc].
        destruct IHc as (Hb & Hlo & Hhi & Hc & _).
        rewrite Hg in *. split; [assumption|]. lia.
      * unfold node_post. rewrite Hg, Ht. split; [reflexivity|lia].
    + intros s cur limit T Hp Hf.
      rewrite read_children_unfold.
      destruct (cur <? limit) eqn:E.
      * specialize (IHn s cur T Hp ltac:(lia)).
        destruct (_read_nodes fuel s cur T) as [[[c s1] c1]| | |];
          cbn [bind]; unfold node_post in IHn; [|exact IHn|exact IHn|exact IHn].
        destruct IHn as (Hb & Hpos & Hc).
        assert (Hstep : (records_left s1 + 1 <= records_left s)%nat)
          by (apply records_left_step; try assumption; lia).
        specialize (IHc s1 c1 limit T ltac:(lia) ltac:(lia)).
        destruct (read_children fuel s1 c1 limit T) as [[[r s2] c2]| | |];
          unfold children_post in *; [|exact IHc|exact IHc|exact IHc].
        destruct IHc as (Hb2 & Hlo2 & Hhi2 & Hc2 & Hl2).
        rewrite Hb in *. repeat split; try lia. congruence.
      * apply Z.ltb_ge in E. unfold children_post. repeat split; lia.
Qed.

(** ** The root record *)

Section RootRecord.

Opaque read read_uint32 read_children fuel_of list_eq_dec.

Ltac root_reads :=
unfold load_file_systemv;
repeat (rewrite read_eq by (simpl; lia); unfold seg; simpl).

Lemma load_prefix_ok buf :
firstn 8 buf = root_prefix ->
load_file_systemv (mkIO buf 0) =
do r <- read_uint32 (mkIO buf 8);
let '(entryCount, s) := r in
read_children (fuel_of s) s 1 entryCount (entryCount * 12).
Proof.
intros H.
destruct buf as [|b0 [|b1 [|b2 [|b3 [|b4 [|b5 [|b6 [|b7 tl]]]]]]]];
  try discriminate H.
injection H as -> -> -> -> -> -> -> ->.
root_reads.
repeat match goal with
       | |- context [list_eq_dec byte_eq_dec ?a ?b] =>
           destruct (list_eq_dec byte_eq_dec a b) as [_|ne];
           [|exfalso; apply ne; reflexivity]
       end.
simpl. reflexivity.
Qed.

Lemma load_prefix_bad buf :
firstn 8 buf <> root_prefix ->
exists msg, load_file_systemv (mkIO buf 0) = Raise (InvalidFSTError msg).
Proof.
intros H.
destruct buf as [|b0 [|b1 [|b2 [|b3 [|b4 [|b5 [|b6 [|b7 tl]]]]]]]];
  root_reads;
  repeat match goal with
         | |- context [list_eq_dec byte_eq_dec ?a ?b] =>
             destruct (list_eq_dec byte_eq_dec a b) as [e|ne];
             [try discriminate e; try (injection e as; subst)
             |simpl; eexists; reflexivity]
         end;
  first [eexists; reflexivity | exfalso; apply H; reflexivity].
Qed.

Transparent read read_uint32 read_children fuel_of list_eq_dec.

End RootRecord.

Lemma fuel_of_enough buf p :
  12 <= p ->
  (2 * records_left (mkIO buf p) + 2 <= fuel_of (mkIO buf p))%nat.
Proof.
  intros Hp. unfold records_left, fuel_of. cbn [getvalue tell].
  set (len := Z.of_nat (length buf)).
  destruct (Z_le_gt_dec p len) as [Hle|Hgt].
  - assert (H : 0 <= (len - p) / 12 /\ 2 * ((len - p) / 12) <= len).
    { pose proof (Z.div_pos (len - p) 12 ltac:(lia) ltac:(lia)).
      pose proof (Z.mul_div_le (len - p) 12 ltac:(lia)). lia. }
    lia.
  - assert (H : (len - p) / 12 < 0) by (apply Z.div_lt_upper_bound; lia).
    lia.
Qed.

(** C5, as the code has it.  [load_file_systemv] checks the first 8 bytes
    of the buffer, the type 1, the name offset 0 and field A 0, and fails
    with [InvalidFSTError] on every deviation in them; field B of the root
    record, the bytes 8 to 12, is the entry count, read big-endian, and the
    records are read from offset 12 on, their names from offset
    [entryCount * 12]. *)
Theorem root_record_checked_on_eight_bytes (buf : list byte) :
  (firstn 8 buf <> root_prefix ->
   exists msg, load_file_systemv (mkIO buf 0) = Raise (InvalidFSTError msg)) /\
  (firstn 8 buf = root_prefix ->
   (Z.of_nat (length buf) < 12 ->
    load_file_systemv (mkIO buf 0) = Raise StructError) /\
   (12 <= Z.of_nat (length buf) ->
    load_file_systemv (mkIO buf 0) =
    let entryCount := from_bytes (seg buf 8 4) in
    read_children (fuel_of (mkIO buf 12)) (mkIO buf 12) 1 entryCount
      (entryCount * 12))).
Proof.
  split; [apply load_prefix_bad|].
  intros H. rewrite (load_prefix_ok buf H).
  rewrite read_uint32_spec by (simpl; lia). cbn [getvalue tell].
  split; intros Hlen.
  - destruct (8 + 4 <=? Z.of_nat (length buf)) eqn:E;
      [apply Z.leb_le in E; lia|reflexivity].
  - destruct (8 + 4 <=? Z.of_nat (length buf)) eqn:E;
      [reflexivity|apply Z.leb_gt in E; lia].
Qed.

(** On the FST with one file the count 2 comes from the bytes 8 to 12. *)
Lemma root_record_checked_on_eight_bytes_witness :
  load_file_systemv (mkIO one_file_fst 0) =
  read_children (fuel_of (mkIO one_file_fst 12)) (mkIO one_file_fst 12) 1 2 24.
Proof.
  apply (proj2 (proj2 (root_record_checked_on_eight_bytes one_file_fst) eq_refl)).
  vm_compute. discriminate.
Defined.

(** The FST with one file has the field B of its root record at 2, and its
    bytes 12 to 16 are 0; it is decoded all the same, and with one entry
    after the root. *)
Lemma root_field_b_not_checked :
  seg one_file_fst 8 4 <> [x00; x00; x00; x00] /\
  from_bytes (seg one_file_fst 12 4) = 0 /\
  load_file_systemv (mkIO one_file_fst 0) =
    Ok ([FileNode (mkInfo "a" 1 false) (mkFile 4 4096 4 None)],
        mkIO one_file_fst 24, 2).
Proof.
  split; [vm_compute; discriminate|]. split; reflexivity.
Qed.

(** C6, as the code has it.  With the 8 bytes of the root in order,
    [load_file_systemv] never raises [InvalidFSTError], whatever the entry
    count says: no test compares the count with the records.  Whenever it
    returns, the running id is at or past the entry count, the buffer is
    as it was and the stream is inside the buffer.  It may also raise what
    a reader or the codec raises, or not return; the recursion bound of
    the embedding is never what stops it. *)
Theorem entry_count_not_checked (buf : list byte) :
  firstn 8 buf = root_prefix ->
  match load_file_systemv (mkIO buf 0) with
  | Ok (_, s, cur) =>
      getvalue s = buf /\
      12 <= tell s <= Z.of_nat (length buf) /\
      from_bytes (seg buf 8 4) <= cur
  | Raise e => forall msg, e <> InvalidFSTError msg
  | NoReturn => True
  | OutOfFuel => False
  end.
Proof.
  intros H. rewrite (load_prefix_ok buf H).
  rewrite read_uint32_spec by (simpl; lia). cbn [getvalue tell].
  destruct (8 + 4 <=? Z.of_nat (length buf)) eqn:E;
    [apply Z.leb_le in E|intros msg; discriminate].
  cbn [bind]. change (8 + 4) with 12.
  pose proof (proj2 (decode_total (fuel_of (mkIO buf 12))) (mkIO buf 12) 1
                (from_bytes (seg buf 8 4)) (from_bytes (seg buf 8 4) * 12)
                ltac:(simpl; lia) (fuel_of_enough buf 12 ltac:(lia))) as P.
  destruct (read_children _ _ _ _ _) as [[[ch s] cur]|e| |];
    unfold children_post in P; cbn [getvalue tell] in P;
    [|intros msg; destruct P; subst e; discriminate|exact I|exact P].
  destruct P as (Hb & Hlo & Hhi & _ & Hc). repeat split; try assumption; lia.
Qed.

(** The buffer that declares 2 entries is decoded up to the id 3. *)
Lemma entry_count_not_checked_witness :
  match load_file_systemv (mkIO overrun_fst 0) with
  | Ok (_, s, cur) =>
      getvalue s = overrun_fst /\
      12 <= tell s <= Z.of_nat (length overrun_fst) /\
      from_bytes (seg overrun_fst 8 4) <= cur
  | Raise e => forall msg, e <> InvalidFSTError msg
  | NoReturn => True
  | OutOfFuel => False
  end.
Proof.
  apply (entry_count_not_checked overrun_fst). reflexivity.
Defined.

(** The buffer that declares 2 entries and holds a directory running to
    entry 3 is decoded without an error, two records being read.  On the
    buffer that declares 5 entries and holds 3 records, the names are
    looked for from offset 60 on, past the end of the 54 bytes, where no
    zero byte is found: the decoder does not return, and does not raise
    [InvalidFSTError]. *)
Lemma inconsistent_count_accepted :
  from_bytes (seg overrun_fst 8 4) = 2 /\
  load_file_systemv (mkIO overrun_fst 0) =
    Ok ([DirNode (mkInfo "" 1 false) (mkDir 0 3)
           [FileNode (mkInfo "" 2 false) (mkFile 4 4096 4 None)]],
        mkIO overrun_fst 36, 3) /\
  from_bytes (seg truncated_fst 8 4) = 5 /\
  length truncated_fst = 54%nat /\
  load_file_systemv (mkIO truncated_fst 0) = NoReturn.
Proof.
  split; [reflexivity|]. split; [reflexivity|]. split; [reflexivity|].
  split; reflexivity.
Qed.

(** ** Writing to a stream *)

Lemma overlay_length p d buf :
  length (overlay_at p d buf) = Nat.max (length buf) (p + length d).
Proof.
  unfold overlay_at.
  rewrite !length_app, length_firstn, repeat_length, length_skipn. lia.
Qed.



Lemma write_at_end d buf :
  write d (mkIO buf (Z.of_nat (length buf))) =
  mkIO (buf ++ d) (Z.of_nat (length (buf ++ d))).
Proof.
  destruct d as [|b d]; [rewrite app_nil_r; reflexivity|].
  unfold write. cbn [getvalue tell]. rewrite Nat2Z.id.
  unfold overlay_at.
  rewrite firstn_all, Nat.sub_diag, skipn_all2 by lia.
  cbn [repeat app]. rewrite app_nil_r. f_equal.
  rewrite length_app. lia.
Qed.

Lemma put_file_length ofs d buf :
  0 <= ofs ->
  Z.of_nat (length (put_file ofs d buf)) =
  Z.max (Z.of_nat (length buf)) (ofs + Z.of_nat (length d)).
Proof.
  intros Hofs. unfold put_file. destruct d as [|b d].
  - rewrite length_app, repeat_length. simpl length. lia.
  - rewrite overlay_length, length_app, repeat_length. lia.
Qed.


Lemma write_file_spec ofs d buf :
  write_file ofs d (mkIO buf (Z.of_nat (length buf))) =
  if ofs <? 0 then Raise OSError
  else Ok (mkIO (put_file ofs d buf) (Z.of_nat (length (put_file ofs d buf)))).
Proof.
  unfold write_file. cbn [tell].
  rewrite write_at_end.
  destruct (ofs <? 0); [reflexivity|].
  unfold put_file, seek, write. cbn [getvalue tell].
  destruct d; reflexivity.
Qed.

(** ** The loop of [build] over the files *)

Section BuildFacts.

Variable fnmatch : string -> string -> bool.
Variable read_bytes : string -> list byte.
Variable _excludeTable : list string.

Local Abbreviation wfiles := (write_files fnmatch read_bytes _excludeTable).
Local Abbreviation wlist := (written fnmatch read_bytes _excludeTable).

Lemma write_files_spec files buf :
  Forall (fun f => 0 <= fst f) (wlist files) ->
  wfiles files (mkIO buf (Z.of_nat (length buf))) =
  let buf' := fold_left (fun b f => put_file (fst f) (snd f) b) (wlist files) buf in
  Ok (mkIO buf' (Z.of_nat (length buf'))).
Proof.
  revert buf. induction files as [|[vpath child] files IH]; intros buf Hpos.
  - reflexivity.
  - unfold written in *.
    cbn [write_files filter fst snd] in *.
    destruct (is_file child && negb (_get_excluded fnmatch _excludeTable vpath)).
    + cbn [map fold_left fst snd] in *.
      inversion Hpos as [|? ? H0 Hrest]; subst. cbn [fst] in H0.
      rewrite write_file_spec.
      destruct (fileoffset_of child <? 0) eqn:E; [apply Z.ltb_lt in E; lia|].
      cbn [bind]. apply IH. assumption.
    + apply IH. assumption.
Qed.



Lemma fold_put_length ws buf :
  Forall (fun f => 0 <= fst f) ws ->
  Z.of_nat (length (fold_left (fun b f => put_file (fst f) (snd f) b) ws buf)) =
  Z.max (Z.of_nat (length buf)) (files_end ws).
Proof.
  revert buf. induction ws as [|[ofs d] ws IH]; intros buf Hpos.
  - simpl. lia.
  - inversion Hpos as [|? ? H0 Hrest]; subst. cbn [fst] in H0.
    cbn [fold_left fst snd]. rewrite IH by assumption.
    rewrite put_file_length by assumption.
    cbn [files_end fold_right fst snd]. fold (files_end ws). lia.
Qed.

(** The image is as long as the capacity, or reaches to the end of the
    last byte written if that lies further. *)
Lemma image_length buf0 fstOffset rawFST ch :
  Forall (fun f => 0 <= fst f) (wlist (rfiles ch)) ->
  Z.of_nat (length (image fnmatch read_bytes _excludeTable buf0 fstOffset rawFST ch)) =
  Z.max MaxSize
    (Z.max (Z.max (Z.of_nat (length buf0)) fstOffset
            + Z.of_nat (length (getvalue rawFST)))
           (files_end (wlist (rfiles ch)))).
Proof.
  intros Hpos. unfold image. cbv zeta.
  rewrite length_app, repeat_length, Nat2Z.inj_add.
  rewrite !fold_put_length by assumption.
  rewrite !length_app, repeat_length. lia.
Qed.

Lemma build_spec tbl buf0 fstOffset rawFST ch ch' rawFST' :
  build_layout tbl rawFST ch = Ok (ch', rawFST') ->
  Forall (fun f => 0 <= fst f) (wlist (rfiles ch')) ->
  build fnmatch read_bytes _excludeTable tbl
    (mkIO buf0 (Z.of_nat (length buf0))) fstOffset rawFST ch =
  Ok (image fnmatch read_bytes _excludeTable buf0 fstOffset rawFST' ch',
      ch', rawFST').
Proof.
  intros HL Hpos. unfold build. rewrite HL. cbn [bind tell].
  rewrite !write_at_end.
  rewrite write_files_spec by assumption.
  cbv zeta. cbn [bind tell]. rewrite write_at_end. reflexivity.
Qed.

End BuildFacts.

Section WriteOrder.

Variable fnmatch : string -> string -> bool.
Variable read_bytes : string -> list byte.
Variable _excludeTable : list string.

Local Abbreviation wfiles := (write_files fnmatch read_bytes _excludeTable).



End WriteOrder.




(** The size test of [from_root] fails exactly when the end of the FST,
    padded to 2048, and the data size together pass the capacity, and its
    error carries that total and the capacity. *)
Lemma from_root_check_spec fnmatch atbl ltbl etbl fstOffset fstSize ch :
  let total :=
    Z.land (fstOffset + fstSize + 2047) (-2048)
    + datasize fnmatch atbl ltbl etbl ch in
  (total > MaxSize ->
   from_root_check fnmatch atbl ltbl etbl fstOffset fstSize ch
   = Raise (FileSystemTooLargeError total MaxSize)) /\
  (total <= MaxSize ->
   from_root_check fnmatch atbl ltbl etbl fstOffset fstSize ch = Ok tt).
Proof.
  intros total. unfold from_root_check. fold total.
  destruct (total >? MaxSize) eqn:E; split; intros H; try reflexivity.
  - apply Z.gtb_lt in E. lia.
  - rewrite Z.gtb_ltb in E. apply Z.ltb_ge in E. lia.
Qed.

(** C8, on the data directory with the one file [a.bin] of 6 bytes, headers
    of 17408 bytes and the FST at 18432.  The size test of
    [from_root] passes and [build] ends without an error, but the image is
    [MaxSize + 2] bytes long: the file is put at [MaxSize - 4]. *)
Theorem image_longer_than_capacity :
  exists ch img ch' raw,
    load_file_system glob_match (fun _ _ => Some false) (mkUnset 0 0 0 0)
      [] [] [] six_bytes_host = Ok ch /\
    from_root_check glob_match [] [] [] example_fstOffset 0 ch = Ok tt /\
    build glob_match six_bytes_payload [] []
      (mkIO headers_image (Z.of_nat (length headers_image))) example_fstOffset
      (mkIO [] 0) ch = Ok (img, ch', raw) /\
    map fileoffset_of ch' = [MaxSize - 4] /\
    Z.of_nat (length img) = MaxSize + 2.
Proof.
  eexists. eexists. eexists. eexists.
  split; [cbv; reflexivity|]. split; [reflexivity|]. split.
  - erewrite build_spec; [reflexivity|cbv; reflexivity|].
    repeat constructor; discriminate.
  - split; [reflexivity|].
    rewrite image_length by (repeat constructor; discriminate).
    match goal with |- context [files_end ?w] =>
      change (files_end w) with (Z.max (1459978236 + 6) 0) end.
    unfold headers_image, example_fstOffset. rewrite repeat_length.
    cbn [getvalue length]. unfold MaxSize. lia.
Qed.

(** ** Bytes and integers *)

Lemma Z_of_byte_of_Z z : Z_of_byte (byte_of_Z z) = z mod 256.
Proof.
  unfold Z_of_byte, byte_of_Z.
  pose proof (Z.mod_pos_bound z 256 ltac:(lia)) as Hb.
  destruct (Byte.of_N (Z.to_N (z mod 256))) as [b|] eqn:E.
  - apply Byte.to_of_N in E. rewrite E. lia.
  - apply Byte.of_N_None_iff in E. lia.
Qed.

Lemma from_bytes_be3 v : 0 <= v < 2 ^ 24 -> from_bytes (be_bytes 3 v) = v.
Proof.
  intros Hv. unfold from_bytes. cbn [be_bytes fold_left].
  rewrite !Z_of_byte_of_Z.
  change (256 ^ Z.of_nat 2) with 65536. change (256 ^ Z.of_nat 1) with 256.
  change (256 ^ Z.of_nat 0) with 1. change (2 ^ 24) with 16777216 in Hv.
  rewrite Z.div_1_r.
  pose proof (Z.div_mod v 256 ltac:(lia)).
  pose proof (Z.mod_pos_bound v 256 ltac:(lia)).
  pose proof (Z.div_mod (v / 256) 256 ltac:(lia)).
  pose proof (Z.mod_pos_bound (v / 256) 256 ltac:(lia)).
  assert (E : v / 65536 = v / 256 / 256) by (rewrite Z.div_div by lia; reflexivity).
  rewrite E.
  assert (0 <= v / 256 / 256 < 256)
    by (split; [apply Z.div_pos; [apply Z.div_pos|]; lia
               |apply Z.div_lt_upper_bound; [lia|];
                apply Z.div_lt_upper_bound; lia]).
  rewrite (Z.mod_small (v / 256 / 256)) by lia. lia.
Qed.

Lemma from_bytes_be4 v : 0 <= v < 2 ^ 32 -> from_bytes (be_bytes 4 v) = v.
Proof.
  intros Hv. unfold from_bytes. cbn [be_bytes fold_left].
  rewrite !Z_of_byte_of_Z.
  change (256 ^ Z.of_nat 3) with 16777216.
  change (256 ^ Z.of_nat 2) with 65536. change (256 ^ Z.of_nat 1) with 256.
  change (256 ^ Z.of_nat 0) with 1. change (2 ^ 32) with 4294967296 in Hv.
  rewrite Z.div_1_r.
  pose proof (Z.div_mod v 256 ltac:(lia)).
  pose proof (Z.mod_pos_bound v 256 ltac:(lia)).
  pose proof (Z.div_mod (v / 256) 256 ltac:(lia)).
  pose proof (Z.mod_pos_bound (v / 256) 256 ltac:(lia)).
  pose proof (Z.div_mod (v / 256 / 256) 256 ltac:(lia)).
  pose proof (Z.mod_pos_bound (v / 256 / 256) 256 ltac:(lia)).
  assert (E2 : v / 65536 = v / 256 / 256) by (rewrite Z.div_div by lia; reflexivity).
  assert (E3 : v / 16777216 = v / 256 / 256 / 256)
    by (rewrite !Z.div_div by lia; reflexivity).
  rewrite E2, E3.
  assert (0 <= v / 256 / 256 / 256 < 256)
    by (split; [apply Z.div_pos; [apply Z.div_pos; [apply Z.div_pos|]|]; lia
               |apply Z.div_lt_upper_bound; [lia|];
                apply Z.div_lt_upper_bound; [lia|];
                apply Z.div_lt_upper_bound; lia]).
  rewrite (Z.mod_small (v / 256 / 256 / 256)) by lia. lia.
Qed.

Lemma be_bytes_length n v : length (be_bytes n v) = n.
Proof. induction n as [|n IH]; simpl; [reflexivity|]. rewrite IH. reflexivity. Qed.

Lemma record_bytes_length is_dir so a b :
  length (record_bytes is_dir so a b) = 12%nat.
Proof.
  unfold record_bytes. cbn [length]. rewrite !length_app, !be_bytes_length.
  reflexivity.
Qed.

Lemma encode_name_length nm : length (encode_name nm) = String.length nm.
Proof.
  unfold encode_name, list_byte_of_string.
  rewrite length_map. induction nm as [|c nm IH]; simpl; congruence.
Qed.

(** ** Names of one-byte characters *)

Lemma sj_single_not_lead b : sj_single b = true -> sj_lead b = false.
Proof. destruct b; intros H; try reflexivity; discriminate H. Qed.

Lemma sj_chars_single l :
  forallb sj_single l = true -> sj_chars l = map (fun b => [b]) l.
Proof.
  induction l as [|b l IH]; intros H; [reflexivity|].
  cbn [forallb] in H. apply andb_prop in H. destruct H as [Hb Hl].
  cbn [sj_chars map]. rewrite (sj_single_not_lead b Hb), (IH Hl). reflexivity.
Qed.

Lemma decodable_single l : forallb sj_single l = true -> decodable l = true.
Proof.
  intros H. unfold decodable. rewrite (sj_chars_single l H).
  induction l as [|b l IH]; [reflexivity|].
  cbn [forallb] in H. apply andb_prop in H. destruct H as [Hb Hl].
  cbn [map forallb sj_char]. rewrite Hb, (IH Hl). reflexivity.
Qed.

(** For a name of one-byte characters [len(name)] is the number of bytes
    of its encoding. *)
Lemma name_len_single nm :
  forallb sj_single (encode_name nm) = true ->
  Z.of_nat (name_len nm) = Z.of_nat (String.length nm).
Proof.
  intros H. unfold name_len. fold (encode_name nm).
  rewrite (sj_chars_single _ H), length_map, encode_name_length. reflexivity.
Qed.

Lemma sj_plain_single l : forallb sj_plain l = true -> forallb sj_single l = true.
Proof.
  induction l as [|b l IH]; intros H; [reflexivity|].
  cbn [forallb] in *. apply andb_prop in H. destruct H as [Hb Hl].
  unfold sj_plain in Hb. apply andb_prop in Hb. rewrite (proj1 Hb), (IH Hl).
  reflexivity.
Qed.

Lemma sj_plain_nul_free l :
  forallb sj_plain l = true -> Forall (fun b => b <> x00) l.
Proof.
  induction l as [|b l IH]; intros H; [constructor|].
  cbn [forallb] in H. apply andb_prop in H. destruct H as [Hb Hl].
  constructor; [|apply IH; exact Hl].
  unfold sj_plain in Hb. apply andb_prop in Hb. destruct Hb as [_ Hb].
  intros ->. discriminate Hb.
Qed.

Lemma one_byte_single nm :
  one_byte nm = true -> forallb sj_single (encode_name nm) = true.
Proof. apply sj_plain_single. Qed.

Lemma one_byte_len nm :
  one_byte nm = true -> Z.of_nat (name_len nm) = Z.of_nat (String.length nm).
Proof. intros H. apply name_len_single, one_byte_single, H. Qed.

Lemma encodable_single_byte n : encodable n -> single_byte_names n = true.
Proof.
  induction n as [c f|c d ch IH] using FSTNode_ind'; intros He;
    inversion He as [? ? Hex Hnm Hoff Hsz|? ? ? Hex Hnm Hch]; subst;
    cbn [single_byte_names info]; rewrite Hex, (one_byte_single _ Hnm);
    cbn [orb andb]; [reflexivity|].
  clear He. induction IH as [|x l Hx Hl IHl]; [reflexivity|].
  inversion Hch as [|? ? Hcx Hcl]; subst. cbn [forallb].
  rewrite (Hx Hcx), (IHl Hcl). reflexivity.
Qed.

Lemma encodable_single_byte_list l :
  Forall encodable l -> forallb single_byte_names l = true.
Proof.
  induction 1 as [|x l Hx Hl IH]; [reflexivity|].
  cbn [forallb]. rewrite (encodable_single_byte x Hx), IH. reflexivity.
Qed.

Lemma single_byte_names_dir c d ch :
  single_byte_names (DirNode c d ch) =
  (_exclude c || forallb sj_single (encode_name (name c)))
  && forallb single_byte_names ch.
Proof. reflexivity. Qed.

Lemma take_until_nul_app l rest :
  Forall (fun b => b <> x00) l ->
  take_until_nul (l ++ x00 :: rest) = l.
Proof.
  induction 1 as [|b l Hb Hl IH]; simpl.
  - reflexivity.
  - destruct (Byte.eqb b x00) eqn:E.
    + apply Byte.byte_dec_bl in E. contradiction.
    + rewrite IH. reflexivity.
Qed.

(** ** Where a write leaves each byte *)

Lemma overlay_nth p d buf i :
  nth i (overlay_at p d buf) x00 =
  if ((p <=? i) && (i <? p + length d))%nat then nth (i - p) d x00
  else nth i buf x00.
Proof.
  unfold overlay_at.
  destruct (Nat.leb_spec p i) as [Hpi|Hpi]; cbn [andb].
  - assert (L : length (firstn p buf ++ repeat x00 (p - length buf)) = p)
      by (rewrite length_app, length_firstn, repeat_length; lia).
    rewrite app_assoc, app_nth2 by lia. rewrite L.
    destruct (Nat.ltb_spec i (p + length d)) as [Hi|Hi].
    + apply app_nth1. lia.
    + rewrite app_nth2 by lia. rewrite nth_skipn. f_equal. lia.
  - destruct (Nat.lt_ge_cases i (length buf)) as [Hi|Hi].
    + rewrite app_nth1 by (rewrite length_firstn; lia).
      rewrite nth_firstn. destruct (Nat.ltb_spec i p); [reflexivity|lia].
    + rewrite app_nth2 by (rewrite length_firstn; lia).
      rewrite app_nth1 by (rewrite length_firstn, repeat_length; lia).
      rewrite nth_repeat. symmetry. apply nth_overflow. lia.
Qed.

Lemma overlay_overlay p d1 d2 buf :
  overlay_at (p + length d1) d2 (overlay_at p d1 buf) = overlay_at p (d1 ++ d2) buf.
Proof.
  apply (nth_ext _ _ x00 x00).
  - rewrite !overlay_length, length_app. lia.
  - intros i _. rewrite !overlay_nth, length_app.
    destruct (Nat.leb_spec (p + length d1) i);
      destruct (Nat.ltb_spec i (p + length d1 + length d2));
      destruct (Nat.leb_spec p i);
      destruct (Nat.ltb_spec i (p + length d1));
      destruct (Nat.ltb_spec i (p + (length d1 + length d2)));
      cbn [andb]; try lia; try reflexivity.
    + rewrite app_nth2 by lia. f_equal. lia.
    + rewrite app_nth1 by lia. reflexivity.
Qed.

Lemma write_write d1 d2 s :
  0 <= tell s -> d1 <> [] -> d2 <> [] ->
  write d2 (write d1 s) = write (d1 ++ d2) s.
Proof.
  intros Hp H1 H2. destruct d1 as [|b1 d1]; [contradiction|].
  destruct d2 as [|b2 d2]; [contradiction|].
  unfold write. cbn [app getvalue tell].
  rewrite <- (overlay_overlay (Z.to_nat (tell s)) (b1 :: d1) (b2 :: d2)).
  f_equal.
  - f_equal. lia.
  - change (b1 :: d1 ++ b2 :: d2) with ((b1 :: d1) ++ b2 :: d2).
    rewrite length_app. lia.
Qed.

(** ** The buffer during encoding *)

Lemma holds_start T old hdr :
  (length hdr <= T)%nat ->
  holds T old (overlay_at 0 hdr old) hdr [].
Proof.
  intros HT. unfold holds. rewrite overlay_length. cbn [length].
  repeat split; try lia.
  - intros H. contradiction.
  - intros i Hi. rewrite overlay_nth.
    destruct (Nat.leb_spec 0 i); destruct (Nat.ltb_spec i (0 + length hdr));
      cbn [andb]; try lia. f_equal. lia.
  - intros i Hi. rewrite overlay_nth.
    destruct (Nat.leb_spec 0 i); destruct (Nat.ltb_spec i (0 + length hdr));
      cbn [andb]; try lia. reflexivity.
Qed.

Lemma holds_step T old buf R S rec str :
  holds T old buf R S ->
  (length R + length rec <= T)%nat ->
  str <> [] ->
  holds T old
    (overlay_at (T + length S) str (overlay_at (length R) rec buf))
    (R ++ rec) (S ++ str).
Proof.
  intros (H1 & H2 & H3 & H4 & H5 & H6 & H7 & H8) HT Hstr.
  assert (Hl : (0 < length str)%nat) by (destruct str; [contradiction|simpl; lia]).
  unfold holds. rewrite !overlay_length, !length_app.
  assert (H4' : (S = [] \/ T + length S <= length buf)%nat).
  { destruct S; [left; reflexivity|right; apply H4; discriminate]. }
  assert (HS0 : S = [] -> length S = 0%nat) by (intros ->; reflexivity).
  split; [lia|]. split; [lia|]. split; [lia|]. split; [lia|].
  split; [destruct H4' as [E|E]; [rewrite (HS0 E) in *|]; lia|].
  split; [|split].
  - intros i Hi. rewrite !overlay_nth.
    destruct (Nat.leb_spec (T + length S) i);
      destruct (Nat.ltb_spec i (T + length S + length str));
      destruct (Nat.leb_spec (length R) i);
      destruct (Nat.ltb_spec i (length R + length rec));
      cbn [andb]; try lia.
    + rewrite app_nth2 by lia. reflexivity.
    + rewrite app_nth1 by lia. apply H6. lia.
  - intros i Hi. rewrite !overlay_nth.
    destruct (Nat.leb_spec (T + length S) i);
      destruct (Nat.ltb_spec i (T + length S + length str));
      destruct (Nat.leb_spec (length R) i);
      destruct (Nat.ltb_spec i (length R + length rec));
      cbn [andb]; try lia.
    + rewrite app_nth2 by lia. f_equal. lia.
    + rewrite app_nth1 by lia. apply H7. lia.
  - intros i Hi. rewrite !overlay_nth.
    destruct (Nat.leb_spec (T + length S) i);
      destruct (Nat.ltb_spec i (T + length S + length str));
      destruct (Nat.leb_spec (length R) i);
      destruct (Nat.ltb_spec i (length R + length rec));
      cbn [andb]; try lia.
    apply H8. lia.
Qed.

Lemma holds_end T old buf R S :
  holds T old buf R S ->
  length R = T ->
  buf = (R ++ S) ++ skipn (T + length S) old.
Proof.
  intros (H1 & H2 & H3 & H4 & H5 & H6 & H7 & H8) HT.
  assert (H4' : (T + length S <= length buf)%nat).
  { destruct S; [simpl; lia|apply H4; discriminate]. }
  apply (nth_ext _ _ x00 x00).
  - rewrite !length_app, length_skipn. lia.
  - intros i _.
    destruct (Nat.lt_ge_cases i (length R)) as [Hi|Hi].
    + rewrite <- app_assoc, app_nth1 by lia. apply H6. assumption.
    + destruct (Nat.lt_ge_cases i (T + length S)) as [Hj|Hj].
      * rewrite app_nth1 by (rewrite length_app; lia).
        rewrite app_nth2 by lia. rewrite HT. apply H7. lia.
      * rewrite app_nth2 by (rewrite length_app; lia).
        rewrite nth_skipn, length_app. rewrite H8 by lia. f_equal. lia.
Qed.

(** ** Counting entries, records and names *)

Lemma save_node_dir T pid st c d ch :
  save_node T pid st (DirNode c d ch) =
  if _exclude c then
    do r <- save_list T (_id c) st ch;
    Ok (fst r, DirNode c d (snd r))
  else
    do st1 <- save_entry T true (name c) pid (node_len ch + s_curEntry st) st;
    do r <- save_list T (s_curEntry st) st1 ch;
    Ok (fst r, DirNode (set_id c (s_curEntry st)) d (snd r)).
Proof.
  cbn [save_node]. fold (save_list T).
  destruct (_exclude c).
  - destruct (save_list T (_id c) st ch) as [[st1 ch']| | |]; reflexivity.
  - destruct (save_entry _ _ _ _ _ _) as [st1| | |]; cbn [bind]; try reflexivity.
    destruct (save_list T (s_curEntry st) st1 ch) as [[st2 ch']| | |]; reflexivity.
Qed.

Lemma numbered_node_dir cur c d ch :
  numbered_node cur (DirNode c d ch) =
  if _exclude c then DirNode c d (numbered_list cur ch)
  else DirNode (set_id c cur) d (numbered_list (cur + 1) ch).
Proof. reflexivity. Qed.

Lemma records_node_dir pid cur so c d ch :
  records_node pid cur so (DirNode c d ch) =
  if _exclude c then records_list (_id c) cur so ch
  else
    record_bytes true so pid (node_len ch + cur)
    ++ records_list cur (cur + 1) (so + (Z.of_nat (name_len (name c)) + 1)) ch.
Proof. reflexivity. Qed.

Lemma names_len_node_dir c d ch :
  names_len_node (DirNode c d ch) =
  (if _exclude c then 0 else Z.of_nat (name_len (name c)) + 1) + names_len ch.
Proof. reflexivity. Qed.

Lemma names_len_cons x l : names_len (x :: l) = names_len_node x + names_len l.
Proof. reflexivity. Qed.

Lemma strings_node_dir c d ch :
  strings_node (DirNode c d ch) =
  (if _exclude c then [] else encode_name (name c) ++ [x00]) ++ strings_list ch.
Proof. reflexivity. Qed.

Lemma decoded_node_dir pid cur c d ch :
  decoded_node pid cur (DirNode c d ch) =
  DirNode (mkInfo (name c) cur false) (mkDir pid (node_len ch + cur))
          (decoded_list cur (cur + 1) ch).
Proof. reflexivity. Qed.

Lemma counts_nonneg n :
  0 <= entries_node n <= names_len_node n.
Proof.
  induction n as [c f|c d ch IH] using FSTNode_ind'.
  - simpl. destruct (_exclude c); lia.
  - rewrite entries_node_dir, names_len_node_dir.
    assert (H : 0 <= entries ch <= names_len ch).
    { induction IH as [|x l Hx Hl IHl]; [simpl; lia|].
      rewrite entries_cons, names_len_cons. lia. }
    destruct (_exclude c); lia.
Qed.

Lemma counts_nonneg_list l : 0 <= entries l <= names_len l.
Proof.
  induction l as [|x l IH]; [simpl; lia|].
  rewrite entries_cons, names_len_cons. pose proof (counts_nonneg x). lia.
Qed.

Lemma records_length n :
  forall pid cur so,
    Z.of_nat (length (records_node pid cur so n)) = 12 * entries_node n.
Proof.
  induction n as [c f|c d ch IH] using FSTNode_ind'; intros pid cur so.
  - simpl. destruct (_exclude c); [reflexivity|].
    rewrite record_bytes_length. reflexivity.
  - rewrite records_node_dir, entries_node_dir.
    assert (H : forall pid cur so,
               Z.of_nat (length (records_list pid cur so ch)) = 12 * entries ch).
    { clear pid cur so. induction IH as [|x l Hx Hl IHl]; intros pid cur so;
        [reflexivity|].
      cbn [records_list]. rewrite length_app, Nat2Z.inj_add, Hx, IHl, entries_cons.
      lia. }
    destruct (_exclude c); [apply H|].
    rewrite length_app, Nat2Z.inj_add, record_bytes_length, H. lia.
Qed.

Lemma records_list_length l :
  forall pid cur so,
    Z.of_nat (length (records_list pid cur so l)) = 12 * entries l.
Proof.
  induction l as [|x l IH]; intros pid cur so; [reflexivity|].
  cbn [records_list].
  rewrite length_app, Nat2Z.inj_add, records_length, IH, entries_cons. lia.
Qed.

(** When the names are of one-byte characters, the names take as many
    bytes as [_strOfs] moves. *)
Lemma strings_length n :
  single_byte_names n = true ->
  Z.of_nat (length (strings_node n)) = names_len_node n.
Proof.
  induction n as [c f|c d ch IH] using FSTNode_ind'; intros Hs.
  - cbn [single_byte_names info] in Hs. rewrite andb_true_r in Hs.
    cbn [strings_node names_len_node info]. destruct (_exclude c); [reflexivity|].
    cbn [orb] in Hs.
    rewrite app_nil_r, length_app, encode_name_length, (name_len_single _ Hs).
    simpl length. lia.
  - rewrite single_byte_names_dir in Hs. apply andb_prop in Hs.
    destruct Hs as [Hc Hch].
    rewrite strings_node_dir, names_len_node_dir.
    assert (H : Z.of_nat (length (strings_list ch)) = names_len ch).
    { clear Hc. induction IH as [|x l Hx Hl IHl]; [reflexivity|].
      cbn [forallb] in Hch. apply andb_prop in Hch. destruct Hch as [H1 H2].
      unfold strings_list in *. cbn [flat_map].
      rewrite length_app, Nat2Z.inj_add, (Hx H1), (IHl H2), names_len_cons. lia. }
    rewrite length_app, Nat2Z.inj_add, H.
    destruct (_exclude c); [reflexivity|]. cbn [orb] in Hc.
    rewrite length_app, encode_name_length, (name_len_single _ Hc).
    simpl length. lia.
Qed.

Lemma strings_list_length l :
  forallb single_byte_names l = true ->
  Z.of_nat (length (strings_list l)) = names_len l.
Proof.
  induction l as [|x l IH]; intros Hs; [reflexivity|].
  cbn [forallb] in Hs. apply andb_prop in Hs. destruct Hs as [H1 H2].
  unfold strings_list in *. cbn [flat_map].
  rewrite length_app, Nat2Z.inj_add, (strings_length x H1), (IH H2), names_len_cons.
  lia.
Qed.

(** ** One entry written *)

Lemma save_list_cons T pid st x l :
  save_list T pid st (x :: l) =
  do r1 <- save_node T pid st x;
  do r2 <- save_list T pid (fst r1) l;
  Ok (fst r2, snd r1 :: snd r2).
Proof.
  cbn [save_list]. fold (save_list T).
  destruct (save_node T pid st x) as [[st1 x']| | |]; cbn [bind fst snd];
    try reflexivity.
  destruct (save_list T pid st1 l) as [[st2 l']| | |]; reflexivity.
Qed.

Lemma numbered_list_cons cur x l :
  numbered_list cur (x :: l) =
  numbered_node cur x :: numbered_list (cur + entries_node x) l.
Proof. reflexivity. Qed.

Lemma save_entry_moves T is_dir nm a b st st' :
  save_entry T is_dir nm a b st = Ok st' ->
  s_curEntry st' = s_curEntry st + 1 /\
  _strOfs st' = _strOfs st + (Z.of_nat (name_len nm) + 1).
Proof.
  unfold save_entry. intros E.
  destruct (to_bytes 3 (_strOfs st)); cbn [bind] in E; try discriminate.
  destruct (write_uint32 _ a); cbn [bind] in E; try discriminate.
  destruct (write_uint32 _ b); cbn [bind] in E; try discriminate.
  inversion E. cbn [s_curEntry _strOfs]. split; lia.
Qed.

(** Whatever the buffer and the names are, the tree [save_node] returns is
    the tree numbered from [_curEntry] on, and [_curEntry] and [_strOfs]
    have moved by the entries and by the characters of the names. *)
Lemma save_numbers n :
  forall T pid st st' n',
    save_node T pid st n = Ok (st', n') ->
    n' = numbered_node (s_curEntry st) n /\
    s_curEntry st' = s_curEntry st + entries_node n /\
    _strOfs st' = _strOfs st + names_len_node n.
Proof.
  induction n as [c f|c d ch IH] using FSTNode_ind'; intros T pid st st' n' E.
  - cbn [save_node numbered_node entries_node names_len_node info] in *.
    destruct (_exclude c).
    + inversion E. repeat split; lia.
    + destruct (save_entry _ _ _ _ _ _) as [st1| | |] eqn:Es; cbn [bind] in E;
        try discriminate.
      inversion E; subst st' n'.
      destruct (save_entry_moves _ _ _ _ _ _ _ Es) as [M1 M2].
      repeat split; lia.
  - assert (L : forall T pid st st' l',
               save_list T pid st ch = Ok (st', l') ->
               l' = numbered_list (s_curEntry st) ch /\
               s_curEntry st' = s_curEntry st + entries ch /\
               _strOfs st' = _strOfs st + names_len ch).
    { clear T pid st st' n' E.
      induction IH as [|x l Hx Hl IHl]; intros T pid st st' l' E.
      - inversion E. cbn [numbered_list entries names_len fold_right].
        repeat split; lia.
      - rewrite save_list_cons in E.
        destruct (save_node T pid st x) as [[st1 x']| | |] eqn:Ex;
          cbn [bind fst snd] in E; try discriminate.
        destruct (save_list T pid st1 l) as [[st2 l2]| | |] eqn:El;
          cbn [bind fst snd] in E; try discriminate.
        inversion E; subst st' l'.
        destruct (Hx _ _ _ _ _ Ex) as (X1 & X2 & X3).
        destruct (IHl _ _ _ _ _ El) as (L1 & L2 & L3).
        rewrite numbered_list_cons, entries_cons, names_len_cons.
        subst x' l2. rewrite X2. repeat split; lia. }
    rewrite save_node_dir in E.
    rewrite numbered_node_dir, entries_node_dir, names_len_node_dir.
    destruct (_exclude c).
    + destruct (save_list T (_id c) st ch) as [[st1 l1]| | |] eqn:El;
        cbn [bind fst snd] in E; try discriminate.
      inversion E; subst st' n'.
      destruct (L _ _ _ _ _ El) as (L1 & L2 & L3). subst l1.
      repeat split; lia.
    + destruct (save_entry _ _ _ _ _ _) as [st1| | |] eqn:Es; cbn [bind] in E;
        try discriminate.
      destruct (save_list T (s_curEntry st) st1 ch) as [[st2 l1]| | |] eqn:El;
        cbn [bind fst snd] in E; try discriminate.
      inversion E; subst st' n'.
      destruct (save_entry_moves _ _ _ _ _ _ _ Es) as [M1 M2].
      destruct (L _ _ _ _ _ El) as (L1 & L2 & L3). subst l1.
      rewrite M1. repeat split; lia.
Qed.

Lemma save_list_numbers l :
  forall T pid st st' l',
    save_list T pid st l = Ok (st', l') ->
    l' = numbered_list (s_curEntry st) l /\
    s_curEntry st' = s_curEntry st + entries l /\
    _strOfs st' = _strOfs st + names_len l.
Proof.
  induction l as [|x l IH]; intros T pid st st' l' E.
  - inversion E. cbn [numbered_list entries names_len fold_right].
    repeat split; lia.
  - rewrite save_list_cons in E.
    destruct (save_node T pid st x) as [[st1 x']| | |] eqn:Ex;
      cbn [bind fst snd] in E; try discriminate.
    destruct (save_list T pid st1 l) as [[st2 l2]| | |] eqn:El;
      cbn [bind fst snd] in E; try discriminate.
    inversion E; subst st' l'.
    destruct (save_numbers _ _ _ _ _ _ Ex) as (X1 & X2 & X3).
    destruct (IH _ _ _ _ _ El) as (L1 & L2 & L3).
    rewrite numbered_list_cons, entries_cons, names_len_cons.
    subst x' l2. rewrite X2. repeat split; lia.
Qed.

(** The tree [save_file_systemv] returns when it has no layout pass of its
    own is the tree it was given, numbered from 1 on. *)
Lemma save_returns_numbered sp raw u u' raw' :
  save_file_systemv sp false false raw u = Ok (u', raw') ->
  u' = numbered_list 1 u.
Proof.
  unfold save_file_systemv. intros E.
  destruct (write_uint32 _ _) as [s1| | |]; cbn [bind] in E; try discriminate.
  destruct (save_list _ _ _ _) as [[st l]| | |] eqn:El; cbn [bind] in E;
    try discriminate.
  inversion E; subst u' raw'.
  exact (proj1 (save_list_numbers _ _ _ _ _ _ El)).
Qed.

Lemma write_nonempty d s :
  d <> [] ->
  write d s =
  mkIO (overlay_at (Z.to_nat (tell s)) d (getvalue s))
       (tell s + Z.of_nat (length d)).
Proof. intros H. destruct d; [contradiction|reflexivity]. Qed.

Lemma write_record (is_dir : bool) so a b s :
  0 <= tell s ->
  write (be_bytes 4 b)
    (write (be_bytes 4 a)
       (write (be_bytes 3 so) (write [if is_dir then x01 else x00] s))) =
  write (record_bytes is_dir so a b) s.
Proof.
  intros Hp.
  rewrite (write_write [if is_dir then x01 else x00] (be_bytes 3 so) s)
    by (try assumption; discriminate).
  rewrite (write_write _ (be_bytes 4 a) s) by (try assumption; discriminate).
  rewrite (write_write _ (be_bytes 4 b) s) by (try assumption; discriminate).
  rewrite <- !app_assoc. reflexivity.
Qed.

Lemma save_entry_spec T is_dir nm a b buf p cur so :
  0 <= p -> 0 <= T ->
  0 <= so < 2 ^ 24 -> 0 <= a < 2 ^ 32 -> 0 <= b < 2 ^ 32 ->
  save_entry T is_dir nm a b (mkSave (mkIO buf p) cur so) =
  Ok (mkSave
        (mkIO (overlay_at (Z.to_nat (so + T)) (encode_name nm ++ [x00])
                 (overlay_at (Z.to_nat p) (record_bytes is_dir so a b) buf))
              (p + 12))
        (cur + 1) (so + Z.of_nat (name_len nm) + 1)).
Proof.
  intros Hp HT Hso Ha Hb. unfold save_entry, to_bytes, write_uint32.
  cbn [_rawFST _strOfs s_curEntry].
  change (256 ^ Z.of_nat 3) with (2 ^ 24).
  replace ((0 <=? so) && (so <? 2 ^ 24)) with true
    by (symmetry; apply andb_true_intro; split; [apply Z.leb_le|apply Z.ltb_lt]; lia).
  replace ((0 <=? a) && (a <? 2 ^ 32)) with true
    by (symmetry; apply andb_true_intro; split; [apply Z.leb_le|apply Z.ltb_lt]; lia).
  cbn [bind].
  replace ((0 <=? b) && (b <? 2 ^ 32)) with true
    by (symmetry; apply andb_true_intro; split; [apply Z.leb_le|apply Z.ltb_lt]; lia).
  cbn [bind].
  rewrite write_record by assumption.
  rewrite (write_nonempty (record_bytes is_dir so a b)) by discriminate.
  rewrite record_bytes_length. cbn [getvalue tell]. unfold seek.
  cbn [getvalue tell].
  rewrite write_nonempty by (destruct (encode_name nm); discriminate).
  cbn [getvalue tell]. reflexivity.
Qed.

(** ** The walk of [save_file_systemv] *)

Lemma save_list_ok_of_nodes l : Forall save_node_ok l -> save_list_ok l.
Proof.
  induction 1 as [|x l Hx Hl IH];
    intros Tn old pid buf cur so R S Hsb Hh Hso HT Hpid Hcur Hc Hn.
  - exists buf. cbn [save_list records_list strings_list flat_map entries
                     names_len fold_right numbered_list].
    rewrite !app_nil_r, !Z.add_0_r. split; [reflexivity|assumption].
  - cbn [forallb] in Hsb. apply andb_prop in Hsb. destruct Hsb as [Hsx Hsl].
    rewrite entries_cons in HT, Hc. rewrite names_len_cons in Hn.
    pose proof (counts_nonneg x) as Cx. pose proof (counts_nonneg_list l) as Cl.
    destruct (Hx Tn old pid buf cur so R S Hsx Hh Hso ltac:(lia) Hpid Hcur
                ltac:(lia) ltac:(lia)) as (buf1 & E1 & Hh1).
    rewrite save_list_cons, E1. cbn [bind fst snd].
    destruct (IH Tn old pid buf1 (cur + entries_node x) (so + names_len_node x)
                (R ++ records_node pid cur so x) (S ++ strings_node x) Hsl Hh1)
      as (buf2 & E2 & Hh2).
    + rewrite length_app, Nat2Z.inj_add, (strings_length x Hsx). lia.
    + rewrite length_app, Nat2Z.inj_add, records_length. lia.
    + assumption.
    + lia.
    + lia.
    + lia.
    + exists buf2. rewrite E2. cbn [bind fst snd records_list numbered_list].
      unfold strings_list in *.
      cbn [flat_map]. rewrite entries_cons, names_len_cons, !app_assoc, !Z.add_assoc.
      split; [reflexivity|assumption].
Qed.

Lemma save_node_spec n : encodable n -> save_node_ok n.
Proof.
  induction n as [c f|c d ch IH] using FSTNode_ind'; intros He;
    inversion He as [? ? Hex Hnul Hoff Hsz|? ? ? Hex Hnul Hch]; subst;
    intros Tn old pid buf cur so R S Hsb Hh Hso HT Hpid Hcur Hc Hn.
  - cbn [save_node records_node names_len_node entries_node strings_node info
         numbered_node] in *.
    rewrite Hex in *. cbn [info] in *.
    rewrite save_entry_spec by lia. cbn [bind s_curEntry].
    eexists. split.
    + rewrite length_app, record_bytes_length, Nat2Z.inj_add.
      apply f_equal. f_equal. f_equal; try lia.
    + rewrite app_nil_r.
      replace (Z.to_nat (so + Z.of_nat Tn)) with (Tn + length S)%nat by lia.
      rewrite Nat2Z.id.
      apply holds_step; [assumption| |destruct (encode_name (name c)); discriminate].
      rewrite record_bytes_length. lia.
  - assert (Hl : save_list_ok ch).
    { apply save_list_ok_of_nodes. rewrite Forall_forall in *.
      intros x Hx. apply IH; [assumption|]. apply Hch. assumption. }
    rewrite save_node_dir, records_node_dir, strings_node_dir, numbered_node_dir.
    rewrite entries_node_dir in HT, Hc |- *.
    rewrite names_len_node_dir in Hn |- *.
    rewrite single_byte_names_dir in Hsb. apply andb_prop in Hsb.
    destruct Hsb as [Hsc Hsch].
    rewrite Hex in *. cbn [s_curEntry orb] in *.
    pose proof (counts_nonneg_list ch) as Cl.
    unfold node_len.
    rewrite save_entry_spec by lia. cbn [bind].
    replace (Z.to_nat (so + Z.of_nat Tn)) with (Tn + length S)%nat by lia.
    rewrite Nat2Z.id.
    set (rec := record_bytes true so pid (1 + entries ch + cur)).
    set (str := encode_name (name c) ++ [x00]).
    assert (Hrec : length rec = 12%nat) by apply record_bytes_length.
    assert (Hstr : Z.of_nat (length str) = Z.of_nat (name_len (name c)) + 1).
    { unfold str. rewrite length_app, encode_name_length, (name_len_single _ Hsc).
      simpl length. lia. }
    assert (Hh1 : holds Tn old
                    (overlay_at (Tn + length S) str (overlay_at (length R) rec buf))
                    (R ++ rec) (S ++ str)).
    { apply holds_step; [assumption|lia|unfold str; destruct (encode_name (name c)); discriminate]. }
    destruct (Hl Tn old cur _ (cur + 1) (so + Z.of_nat (name_len (name c)) + 1)
                (R ++ rec) (S ++ str) Hsch Hh1) as (buf2 & E2 & Hh2).
    + rewrite length_app, Nat2Z.inj_add. lia.
    + rewrite length_app, Nat2Z.inj_add. lia.
    + lia.
    + lia.
    + lia.
    + lia.
    + replace (Z.of_nat (length R) + 12) with (Z.of_nat (length (R ++ rec)))
        by (rewrite length_app, Nat2Z.inj_add; lia).
      rewrite E2. cbn [bind fst snd]. exists buf2.
      replace (so + (Z.of_nat (name_len (name c)) + 1))
        with (so + Z.of_nat (name_len (name c)) + 1) by lia.
      rewrite !app_assoc.
      split; [|assumption].
      apply f_equal. f_equal. f_equal; lia.
Qed.

Lemma save_list_spec l : Forall encodable l -> save_list_ok l.
Proof.
  intros H. apply save_list_ok_of_nodes.
  rewrite Forall_forall in *. intros x Hx. apply save_node_spec. apply H. assumption.
Qed.

(** ** The table [save_file_systemv] leaves in [self._rawFST] *)

Lemma save_with_pass sp raw t :
  save_file_systemv sp false true raw t =
  save_file_systemv sp false false raw
    (pre_calc_metadata (MaxSize - get_auto_blob_size t) t).
Proof. reflexivity. Qed.

Lemma fst_bytes_length u :
  forallb single_byte_names u = true ->
  Z.of_nat (length (fst_bytes u)) = 12 * node_len u + names_len u.
Proof.
  intros Hs. unfold fst_bytes, node_len.
  rewrite !length_app, !Nat2Z.inj_add, be_bytes_length, records_list_length,
    (strings_list_length u Hs).
  simpl length. lia.
Qed.

(** Without a layout pass of its own, [save_file_systemv] writes the table
    of the tree over the start of the buffer it finds. *)
Lemma save_raw_spec u old p0 sp :
  Forall encodable u ->
  names_len u < 2 ^ 24 ->
  save_file_systemv sp false false (mkIO old p0) u =
  Ok (numbered_list 1 u,
      mkIO (fst_bytes u ++ skipn (length (fst_bytes u)) old)
           (12 * node_len u)).
Proof.
  intros Hu Hn.
  pose proof (counts_nonneg_list u) as Cu.
  pose proof (encodable_single_byte_list u Hu) as Hsb.
  assert (Hlen : 0 <= node_len u < 2 ^ 32) by (unfold node_len; lia).
  unfold save_file_systemv, write_uint32, seek. cbn [getvalue tell].
  replace ((0 <=? node_len u) && (node_len u <? 2 ^ 32)) with true
    by (symmetry; apply andb_true_intro; split; [apply Z.leb_le|apply Z.ltb_lt]; lia).
  cbn [bind].
  rewrite (write_write [x01; x00; x00; x00; x00; x00; x00; x00]
             (be_bytes 4 (node_len u))) by (simpl; try lia; discriminate).
  fold root_prefix.
  set (hdr := root_prefix ++ be_bytes 4 (node_len u)).
  assert (Hhdr : length hdr = 12%nat)
    by (unfold hdr; rewrite length_app, be_bytes_length; reflexivity).
  rewrite write_nonempty by (unfold hdr; discriminate).
  cbn [getvalue tell]. change (Z.to_nat 0) with 0%nat.
  set (Tn := Z.to_nat (12 * node_len u)).
  assert (HT : strTableOfs u = Z.of_nat Tn) by (unfold strTableOfs, Tn; lia).
  rewrite HT.
  pose proof (holds_start Tn old hdr ltac:(unfold node_len in *; lia)) as Hh.
  destruct (save_list_spec u Hu Tn old 0 _ 1 0 hdr [] Hsb Hh eq_refl)
    as (buf' & E & Hh'); try (unfold node_len in *; lia).
  replace (0 + Z.of_nat (length hdr)) with (Z.of_nat (length hdr)) by lia.
  rewrite E. cbn [bind _rawFST].
  apply holds_end in Hh'.
  2:{ apply Nat2Z.inj. rewrite length_app, Nat2Z.inj_add, records_list_length.
      unfold node_len in *. lia. }
  cbn [app] in Hh'.
  assert (Hfb : (hdr ++ records_list 0 1 0 u) ++ strings_list u = fst_bytes u)
    by (unfold fst_bytes, hdr; rewrite <- !app_assoc; reflexivity).
  rewrite Hfb in Hh'.
  replace (Tn + length (strings_list u))%nat with (length (fst_bytes u)) in Hh'.
  2:{ apply Nat2Z.inj.
      rewrite Nat2Z.inj_add, (fst_bytes_length u Hsb), (strings_list_length u Hsb).
      unfold node_len in *. lia. }
  rewrite <- Hh'. apply f_equal. f_equal. f_equal.
  rewrite length_app, Nat2Z.inj_add, records_list_length. unfold node_len. lia.
Qed.

(** ** Decoding the table of a tree *)

Lemma skipn_more (B : list byte) p a b :
  0 <= p ->
  skipn (Z.to_nat p) B = a ++ b ->
  skipn (Z.to_nat (p + Z.of_nat (length a))) B = b.
Proof.
  intros Hp H. rewrite Z2Nat.inj_add, Nat2Z.id by lia.
  rewrite Nat.add_comm, <- skipn_skipn, H.
  rewrite skipn_app, Nat.sub_diag, skipn_all. reflexivity.
Qed.

Lemma seg_of_skipn (B : list byte) p pre d rest :
  0 <= p ->
  skipn (Z.to_nat p) B = pre ++ d ++ rest ->
  seg B (p + Z.of_nat (length pre)) (length d) = d.
Proof.
  intros Hp H. unfold seg. rewrite (skipn_more B p pre (d ++ rest) Hp H).
  rewrite firstn_app, Nat.sub_diag, firstn_all. simpl. apply app_nil_r.
Qed.

Lemma skipn_length_ge (B : list byte) p a b :
  0 <= p -> (0 < length a)%nat ->
  skipn (Z.to_nat p) B = a ++ b ->
  p + Z.of_nat (length a) <= Z.of_nat (length B).
Proof.
  intros Hp Ha H.
  assert (L : length (skipn (Z.to_nat p) B) = length (a ++ b)) by (rewrite H; reflexivity).
  rewrite length_skipn, length_app in L. lia.
Qed.

Lemma read_record_of_bytes (B : list byte) p (is_dir : bool) so a b rest :
  0 <= p ->
  skipn (Z.to_nat p) B = record_bytes is_dir so a b ++ rest ->
  0 <= so < 2 ^ 24 -> 0 <= a < 2 ^ 32 -> 0 <= b < 2 ^ 32 ->
  read_record (mkIO B p) =
  Ok ((if is_dir then 1 else 0), so, a, b, mkIO B (p + 12)).
Proof.
  intros Hp H Hso Ha Hb.
  rewrite read_record_spec by assumption. cbn [getvalue tell].
  pose proof (skipn_length_ge B p _ _ Hp
                ltac:(rewrite record_bytes_length; lia) H) as HL.
  rewrite record_bytes_length in HL.
  destruct (p + 12 <=? Z.of_nat (length B)) eqn:E; [|apply Z.leb_gt in E; lia].
  set (ty := if is_dir then x01 else x00).
  assert (H1 : skipn (Z.to_nat p) B =
               [] ++ [ty] ++ (be_bytes 3 so ++ be_bytes 4 a ++ be_bytes 4 b ++ rest)).
  { rewrite H. unfold record_bytes. fold ty. cbn [app]. rewrite <- !app_assoc.
    reflexivity. }
  assert (H2 : skipn (Z.to_nat p) B =
               [ty] ++ be_bytes 3 so ++ (be_bytes 4 a ++ be_bytes 4 b ++ rest))
    by exact H1.
  assert (H3 : skipn (Z.to_nat p) B =
               ([ty] ++ be_bytes 3 so) ++ be_bytes 4 a ++ (be_bytes 4 b ++ rest))
    by (rewrite H2, <- !app_assoc; reflexivity).
  assert (H4 : skipn (Z.to_nat p) B =
               ([ty] ++ be_bytes 3 so ++ be_bytes 4 a) ++ be_bytes 4 b ++ rest)
    by (rewrite H2, <- !app_assoc; reflexivity).
  pose proof (seg_of_skipn B p _ _ _ Hp H1) as S1.
  pose proof (seg_of_skipn B p _ _ _ Hp H2) as S2.
  pose proof (seg_of_skipn B p _ _ _ Hp H3) as S3.
  pose proof (seg_of_skipn B p _ _ _ Hp H4) as S4.
  rewrite be_bytes_length in S2.
  rewrite length_app, !be_bytes_length in S3.
  rewrite !length_app, !be_bytes_length in S4.
  cbn [length Nat.add] in S1, S2, S3, S4.
  change (Z.of_nat 0) with 0 in S1. rewrite Z.add_0_r in S1.
  change (Z.of_nat 1) with 1 in S2. change (Z.of_nat 4) with 4 in S3.
  change (Z.of_nat 8) with 8 in S4.
  rewrite S1, S2, S3, S4.
  rewrite from_bytes_be3, !from_bytes_be4 by assumption.
  unfold ty. destruct is_dir; reflexivity.
Qed.

Lemma name_at_of_bytes (B : list byte) off nm rest :
  0 <= off ->
  skipn (Z.to_nat off) B = (encode_name nm ++ [x00]) ++ rest ->
  one_byte nm = true ->
  name_at B off = Ok nm.
Proof.
  intros Hoff H Hnm. unfold name_at, read_string. cbn [getvalue].
  rewrite from_pos_skipn by assumption. rewrite H, <- app_assoc.
  cbn [app].
  replace (existsb (Byte.eqb x00) (encode_name nm ++ x00 :: rest)) with true
    by (rewrite existsb_app; cbn [existsb Byte.eqb]; rewrite orb_true_r;
        reflexivity).
  rewrite take_until_nul_app by (apply sj_plain_nul_free; exact Hnm).
  rewrite (decodable_single _ (one_byte_single _ Hnm)). cbn [bind fst].
  unfold encode_name. rewrite string_of_list_byte_of_string. reflexivity.
Qed.

Lemma entries_pos n : encodable n -> 1 <= entries_node n.
Proof.
  intros [c f Hex _ _ _|c d ch Hex _ _].
  - simpl. rewrite Hex. lia.
  - rewrite entries_node_dir, Hex. pose proof (counts_nonneg_list ch). lia.
Qed.

Lemma decode_list_ok_of_nodes l :
  Forall encodable l -> Forall decode_node_ok l -> decode_list_ok l.
Proof.
  intros He Hd. induction Hd as [|x l Hx Hl IH];
    intros B T pid cur so fuel restR restS Hcur Hso HT HR HS Hpid Hc Hn Hf.
  - destruct fuel as [|fuel]; [simpl in Hf; lia|].
    rewrite read_children_unfold.
    cbn [entries fold_right decoded_list]. rewrite Z.add_0_r.
    rewrite Z.ltb_irrefl. reflexivity.
  - inversion He as [|? ? Hex Hel]; subst.
    pose proof (entries_pos x Hex) as Px.
    pose proof (counts_nonneg x) as Cx. pose proof (counts_nonneg_list l) as Cl.
    rewrite entries_cons in Hc, Hf |- *. rewrite names_len_cons in Hn.
    destruct fuel as [|fuel]; [lia|].
    rewrite read_children_unfold.
    destruct (cur <? cur + (entries_node x + entries l)) eqn:E;
      [|apply Z.ltb_ge in E; lia].
    cbn [records_list] in HR. rewrite <- app_assoc in HR.
    unfold strings_list in HS. cbn [flat_map] in HS. rewrite <- app_assoc in HS.
    rewrite (Hx B T pid cur so fuel _ _ Hcur Hso HT HR HS Hpid) by lia.
    cbn [bind].
    assert (HR' : skipn (Z.to_nat (12 * (cur + entries_node x))) B =
                  records_list pid (cur + entries_node x) (so + names_len_node x) l
                  ++ restR).
    { pose proof (skipn_more B (12 * cur) _ _ ltac:(lia) HR) as H.
      rewrite records_length in H.
      replace (12 * (cur + entries_node x)) with (12 * cur + 12 * entries_node x)
        by lia. exact H. }
    assert (HS' : skipn (Z.to_nat (T + (so + names_len_node x))) B =
                  strings_list l ++ restS).
    { pose proof (skipn_more B (T + so) _ _ ltac:(lia) HS) as H.
      rewrite (strings_length x (encodable_single_byte x Hex)) in H.
      replace (T + (so + names_len_node x)) with (T + so + names_len_node x)
        by lia. exact H. }
    replace (cur + (entries_node x + entries l))
      with (cur + entries_node x + entries l) by lia.
    rewrite (IH Hel B T pid (cur + entries_node x) (so + names_len_node x) fuel
               restR restS) by (try assumption; lia).
    cbn [bind decoded_list]. reflexivity.
Qed.

Lemma decode_node_spec n : encodable n -> decode_node_ok n.
Proof.
  induction n as [c f|c d ch IH] using FSTNode_ind'; intros He;
    inversion He as [? ? Hex Hnul Hoff Hsz|? ? ? Hex Hnul Hch]; subst;
    intros B T pid cur so fuel restR restS Hcur Hso HT HR HS Hpid Hc Hn Hf.
  - cbn [records_node strings_node names_len_node entries_node info decoded_node] in *.
    rewrite Hex in *. cbn [info] in *.
    destruct fuel as [|fuel]; [lia|].
    rewrite read_nodes_unfold.
    rewrite (read_record_of_bytes B (12 * cur) false so (_fileoffset f) (size f) restR)
      by (try assumption; lia).
    cbn [bind getvalue]. rewrite app_nil_r in HS.
    rewrite (name_at_of_bytes B (T + so) (name c) restS) by (try assumption; lia).
    cbn [bind].
    change (0 =? FOLDER) with false. cbv iota.
    replace (12 * cur + 12) with (12 * (cur + 1)) by lia. reflexivity.
  - assert (Hl : decode_list_ok ch).
    { apply decode_list_ok_of_nodes; [assumption|]. rewrite Forall_forall in *.
      intros x Hx. apply IH; [assumption|]. apply Hch. assumption. }
    rewrite records_node_dir in HR. rewrite strings_node_dir in HS.
    rewrite entries_node_dir in Hc, Hf |- *. rewrite names_len_node_dir in Hn.
    rewrite decoded_node_dir.
    rewrite Hex in *.
    pose proof (counts_nonneg_list ch) as Cl.
    destruct fuel as [|fuel]; [lia|].
    rewrite read_nodes_unfold.
    rewrite <- app_assoc in HR. rewrite <- app_assoc in HS.
    rewrite (read_record_of_bytes B (12 * cur) true so pid (node_len ch + cur) _ ltac:(lia) HR)
      by (unfold node_len; lia).
    cbn [bind getvalue].
    rewrite (name_at_of_bytes B (T + so) (name c) _ ltac:(lia) HS Hnul).
    cbn [bind].
    change (1 =? FOLDER) with true. cbv iota.
    pose proof (one_byte_len _ Hnul) as Hlen.
    assert (HR' : skipn (Z.to_nat (12 * (cur + 1))) B =
                  records_list cur (cur + 1)
                    (so + (Z.of_nat (name_len (name c)) + 1)) ch ++ restR).
    { pose proof (skipn_more B (12 * cur) _ _ ltac:(lia) HR) as H.
      rewrite record_bytes_length in H.
      replace (12 * (cur + 1)) with (12 * cur + Z.of_nat 12) by lia. exact H. }
    assert (HS' : skipn (Z.to_nat (T + (so + (Z.of_nat (name_len (name c)) + 1)))) B =
                  strings_list ch ++ restS).
    { pose proof (skipn_more B (T + so) _ _ ltac:(lia) HS) as H.
      rewrite length_app, encode_name_length in H. cbn [length] in H.
      replace (T + (so + (Z.of_nat (name_len (name c)) + 1)))
        with (T + so + Z.of_nat (String.length (name c) + 1)) by lia.
      exact H. }
    replace (12 * cur + 12) with (12 * (cur + 1)) by lia.
    replace (node_len ch + cur) with (cur + 1 + entries ch) by (unfold node_len; lia).
    rewrite (Hl B T cur (cur + 1) (so + (Z.of_nat (name_len (name c)) + 1))
               fuel restR restS) by (try assumption; lia).
    cbn [bind].
    replace (cur + 1 + entries ch) with (cur + (1 + entries ch)) by lia.
    replace (node_len ch + cur) with (cur + (1 + entries ch)) by (unfold node_len; lia).
    reflexivity.
Qed.

Lemma decode_list_spec l : Forall encodable l -> decode_list_ok l.
Proof.
  intros H. apply decode_list_ok_of_nodes; [assumption|].
  rewrite Forall_forall in *. intros x Hx. apply decode_node_spec. apply H. assumption.
Qed.

(** [load_file_systemv] reads the table of a tree back, whatever follows
    the table in the buffer. *)
Lemma load_fst_bytes u tail :
  Forall encodable u ->
  names_len u < 2 ^ 24 ->
  load_file_systemv (mkIO (fst_bytes u ++ tail) 0) =
  Ok (decoded_list 0 1 u, mkIO (fst_bytes u ++ tail) (12 * node_len u),
      node_len u).
Proof.
  intros Hu Hn.
  pose proof (counts_nonneg_list u) as Cu.
  assert (Hlen : 0 <= node_len u < 2 ^ 32) by (unfold node_len; lia).
  set (B := fst_bytes u ++ tail).
  set (hdr := root_prefix ++ be_bytes 4 (node_len u)).
  assert (HB : B = hdr ++ records_list 0 1 0 u ++ strings_list u ++ tail).
  { unfold B, fst_bytes, hdr. rewrite <- !app_assoc. reflexivity. }
  assert (Hhdr : length hdr = 12%nat)
    by (unfold hdr; rewrite length_app, be_bytes_length; reflexivity).
  assert (H0 : skipn (Z.to_nat 0) B =
               root_prefix ++ be_bytes 4 (node_len u)
               ++ (records_list 0 1 0 u ++ strings_list u ++ tail)).
  { rewrite HB. unfold hdr. rewrite <- !app_assoc. reflexivity. }
  rewrite load_prefix_ok by (rewrite HB; reflexivity).
  rewrite read_uint32_spec by (simpl; lia). cbn [getvalue tell].
  assert (HL : 12 <= Z.of_nat (length B)).
  { rewrite HB, length_app, Hhdr. lia. }
  destruct (8 + 4 <=? Z.of_nat (length B)) eqn:E; [|apply Z.leb_gt in E; lia].
  cbn [bind].
  pose proof (seg_of_skipn B 0 _ _ _ ltac:(lia) H0) as S8.
  rewrite be_bytes_length in S8. change (0 + Z.of_nat (length root_prefix)) with 8 in S8.
  rewrite S8, from_bytes_be4 by assumption.
  assert (HR : skipn (Z.to_nat (12 * 1)) B =
               records_list 0 1 0 u ++ (strings_list u ++ tail)).
  { assert (H0' : skipn (Z.to_nat 0) B = hdr ++ records_list 0 1 0 u ++ strings_list u ++ tail)
      by (rewrite <- HB; reflexivity).
    pose proof (skipn_more B 0 _ _ ltac:(lia) H0') as H. rewrite Hhdr in H. exact H. }
  assert (HS : skipn (Z.to_nat (node_len u * 12 + 0)) B = strings_list u ++ tail).
  { assert (H0' : skipn (Z.to_nat 0) B =
                  (hdr ++ records_list 0 1 0 u) ++ strings_list u ++ tail)
      by (rewrite HB, <- !app_assoc; reflexivity).
    pose proof (skipn_more B 0 _ _ ltac:(lia) H0') as H.
    rewrite length_app, Nat2Z.inj_add, records_list_length, Hhdr in H.
    replace (node_len u * 12 + 0) with (0 + (Z.of_nat 12 + 12 * entries u))
      by (unfold node_len; lia).
    exact H. }
  change (8 + 4) with (12 * 1).
  replace (node_len u) with (1 + entries u) at 1 by reflexivity.
  rewrite (decode_list_spec u Hu B (node_len u * 12) 0 1 0 _ _ _
             ltac:(lia) ltac:(lia) ltac:(lia) HR HS ltac:(lia) ltac:(lia) ltac:(lia)).
  - unfold node_len. reflexivity.
  - unfold fuel_of. cbn [getvalue].
    assert (HL2 : 12 * node_len u <= Z.of_nat (length B)).
    { unfold B.
      rewrite length_app, Nat2Z.inj_add,
        (fst_bytes_length u (encodable_single_byte_list u Hu)). lia. }
    unfold node_len in *. lia.
Qed.

(** ** What a layout pass depends on *)

Lemma plan_list_cons pid st x l :
  plan_list pid st (x :: l) =
  (fst (plan_list pid (fst (plan_node pid st x)) l),
   snd (plan_node pid st x) :: snd (plan_list pid (fst (plan_node pid st x)) l)).
Proof.
  cbn [plan_list]. destruct (plan_node pid st x) as [st1 x'].
  cbn [fst snd]. destruct (plan_list pid st1 l) as [st2 l']. reflexivity.
Qed.

Lemma plan_node_dir_plain pid st c d ch :
  _exclude c = false ->
  plan_node pid st (DirNode c d ch) =
  (fst (plan_list (_curEntry st) (mkPlan (_dataOfs st) (_curEntry st + 1)) ch),
   DirNode (set_id c (_curEntry st)) (mkDir pid (dir_size ch + _curEntry st))
     (snd (plan_list (_curEntry st) (mkPlan (_dataOfs st) (_curEntry st + 1)) ch))).
Proof.
  intros Hex. rewrite plan_node_dir, Hex.
  destruct (plan_list _ _ ch) as [st' ch']. reflexivity.
Qed.

(** A tree that comes out of the layout pass has the ids the loop of
    [save_file_systemv] gives: the loop changes no id of it. *)
Lemma plan_numbered n :
  forall pid st,
    _curEntry (fst (plan_node pid st n)) = _curEntry st + entries_node n /\
    entries_node (snd (plan_node pid st n)) = entries_node n /\
    numbered_node (_curEntry st) (snd (plan_node pid st n))
    = snd (plan_node pid st n).
Proof.
  induction n as [c f|c d ch IH] using FSTNode_ind'; intros pid st.
  - cbn [plan_node]. unfold plan_file.
    destruct (_exclude c) eqn:Hex; cbn [fst snd entries_node numbered_node info
                                        set_id _exclude];
      rewrite Hex; cbn [set_id name _exclude]; repeat split; lia.
  - assert (L : forall pid st,
               _curEntry (fst (plan_list pid st ch)) = _curEntry st + entries ch /\
               entries (snd (plan_list pid st ch)) = entries ch /\
               numbered_list (_curEntry st) (snd (plan_list pid st ch))
               = snd (plan_list pid st ch)).
    { clear pid st. induction IH as [|x l Hx Hl IHl]; intros pid st.
      - cbn [plan_list fst snd entries fold_right numbered_list].
        repeat split; lia.
      - rewrite plan_list_cons. cbn [fst snd].
        destruct (Hx pid st) as (X1 & X2 & X3).
        destruct (IHl pid (fst (plan_node pid st x))) as (L1 & L2 & L3).
        rewrite numbered_list_cons, !entries_cons, X2, X3, L1, L2, X1.
        rewrite X1 in L3. rewrite L3. repeat split; lia. }
    rewrite plan_node_dir. destruct (_exclude c) eqn:Hex.
    + destruct (L (_id c) st) as (L1 & L2 & L3).
      destruct (plan_list (_id c) st ch) as [st' ch']. cbn [fst snd] in *.
      rewrite numbered_node_dir, !entries_node_dir, Hex, L2, L3. repeat split; lia.
    + destruct (L (_curEntry st) (mkPlan (_dataOfs st) (_curEntry st + 1)))
        as (L1 & L2 & L3).
      destruct (plan_list (_curEntry st) _ ch) as [st' ch']. cbn [fst snd] in *.
      rewrite numbered_node_dir, !entries_node_dir. cbn [_curEntry] in L1, L3.
      cbn [set_id _exclude name]. rewrite Hex, L2, L3. repeat split; lia.
Qed.

Lemma plan_list_numbered l :
  forall pid st,
    numbered_list (_curEntry st) (snd (plan_list pid st l))
    = snd (plan_list pid st l).
Proof.
  induction l as [|x l IH]; intros pid st; [reflexivity|].
  rewrite plan_list_cons. cbn [snd].
  destruct (plan_numbered x pid st) as (X1 & X2 & X3).
  rewrite numbered_list_cons, X2, X3. f_equal.
  rewrite <- X1. apply IH.
Qed.

Lemma pre_calc_numbered sp t :
  numbered_list 1 (pre_calc_metadata sp t) = pre_calc_metadata sp t.
Proof.
  unfold pre_calc_metadata, pre_calc_metadata_state.
  apply (plan_list_numbered t 0 (mkPlan (align_int sp 4) 1)).
Qed.

Lemma plan_file_plain st c f :
  _exclude c = false -> _position f = None ->
  plan_file st c f =
  (mkPlan (_dataOfs st + size f) (_curEntry st + 1),
   FileNode (set_id c (_curEntry st))
     (mkFile (size f) (align_int (_dataOfs st) (_alignment f)) (_alignment f) None)).
Proof.
  intros Hex Hpos. unfold plan_file. rewrite Hex, Hpos.
  unfold set_fileoffset. cbn [size _alignment _position]. rewrite Hpos. reflexivity.
Qed.

Lemma entries_inputs n : entries_node (inputs n) = entries_node n.
Proof.
  induction n as [c f|c d ch IH] using FSTNode_ind'; [reflexivity|].
  cbn [inputs]. rewrite !entries_node_dir. cbn [_exclude].
  assert (E : entries (map inputs ch) = entries ch).
  { induction IH as [|x l Hx Hl IHl]; [reflexivity|].
    cbn [map]. rewrite !entries_cons. congruence. }
  rewrite E. reflexivity.
Qed.

Lemma entries_map_inputs l : entries (map inputs l) = entries l.
Proof.
  induction l as [|x l IH]; [reflexivity|].
  cbn [map]. rewrite !entries_cons, entries_inputs, IH. reflexivity.
Qed.

Lemma names_len_inputs n : names_len_node (inputs n) = names_len_node n.
Proof.
  induction n as [c f|c d ch IH] using FSTNode_ind'; [reflexivity|].
  cbn [inputs]. rewrite !names_len_node_dir. cbn [_exclude name].
  assert (E : names_len (map inputs ch) = names_len ch).
  { induction IH as [|x l Hx Hl IHl]; [reflexivity|].
    cbn [map]. rewrite !names_len_cons. congruence. }
  rewrite E. reflexivity.
Qed.

Lemma names_len_map_inputs l : names_len (map inputs l) = names_len l.
Proof.
  induction l as [|x l IH]; [reflexivity|].
  cbn [map]. rewrite !names_len_cons, names_len_inputs, IH. reflexivity.
Qed.

Lemma collect_inputs n s : _collect_child (inputs n) s = _collect_child n s.
Proof.
  revert s. induction n as [c f|c d ch IH] using FSTNode_ind'; intros s.
  - reflexivity.
  - cbn [inputs]. rewrite !collect_child_dir. cbn [_exclude].
    destruct (_exclude c); [reflexivity|].
    unfold _collect_size. revert s.
    induction IH as [|x l Hx Hl IHl]; intros s; [reflexivity|].
    cbn [map fold_left]. rewrite Hx. apply IHl.
Qed.

Lemma blob_map_inputs l :
  get_auto_blob_size (map inputs l) = get_auto_blob_size l.
Proof.
  unfold get_auto_blob_size, _collect_size. generalize 0.
  induction l as [|x l IH]; intros s; [reflexivity|].
  cbn [map fold_left]. rewrite collect_inputs. apply IH.
Qed.

Lemma plan_inputs n :
  plain n -> forall pid st, plan_node pid st (inputs n) = plan_node pid st n.
Proof.
  induction n as [c f|c d ch IH] using FSTNode_ind'; intros Hp pid st;
    inversion Hp as [? ? Hex Hnul Hal Hpos Hsz|? ? ? Hex Hnul Hch]; subst.
  - cbn [inputs plan_node]. rewrite !plan_file_plain by assumption. reflexivity.
  - assert (L : forall pid st, plan_list pid st (map inputs ch) = plan_list pid st ch).
    { clear pid st Hp. revert Hch.
      induction IH as [|x l Hx Hl IHl]; intros Hch pid st; [reflexivity|].
      inversion Hch as [|? ? Hpx Hpl]; subst.
      cbn [map]. rewrite !plan_list_cons.
      rewrite Hx by assumption. rewrite IHl by assumption. reflexivity. }
    cbn [inputs]. rewrite !plan_node_dir_plain by assumption.
    unfold dir_size. rewrite entries_map_inputs, L. reflexivity.
Qed.

Lemma plan_list_inputs l :
  Forall plain l ->
  forall pid st, plan_list pid st (map inputs l) = plan_list pid st l.
Proof.
  induction 1 as [|x l Hx Hl IH]; intros pid st; [reflexivity|].
  cbn [map]. rewrite !plan_list_cons, plan_inputs, IH by assumption. reflexivity.
Qed.

Lemma decoded_list_cons pid cur x l :
  decoded_list pid cur (x :: l) =
  decoded_node pid cur x :: decoded_list pid (cur + entries_node x) l.
Proof. reflexivity. Qed.

Lemma inputs_decoded n :
  plain n -> forall pid cur, inputs (decoded_node pid cur n) = inputs n.
Proof.
  induction n as [c f|c d ch IH] using FSTNode_ind'; intros Hp pid cur;
    inversion Hp as [? ? Hex Hnul Hal Hpos Hsz|? ? ? Hex Hnul Hch]; subst.
  - cbn [decoded_node inputs name _exclude size _alignment _position].
    rewrite Hex, Hal, Hpos. reflexivity.
  - assert (L : forall pid cur, map inputs (decoded_list pid cur ch) = map inputs ch).
    { clear pid cur Hp. revert Hch.
      induction IH as [|x l Hx Hl IHl]; intros Hch pid cur; [reflexivity|].
      inversion Hch as [|? ? Hpx Hpl]; subst.
      rewrite decoded_list_cons. cbn [map].
      rewrite Hx by assumption. rewrite IHl by assumption. reflexivity. }
    rewrite decoded_node_dir. cbn [inputs name _exclude].
    rewrite L, Hex. reflexivity.
Qed.

Lemma inputs_decoded_list l :
  Forall plain l ->
  forall pid cur, map inputs (decoded_list pid cur l) = map inputs l.
Proof.
  induction 1 as [|x l Hx Hl IH]; intros pid cur; [reflexivity|].
  rewrite decoded_list_cons. cbn [map].
  rewrite inputs_decoded, IH by assumption. reflexivity.
Qed.

Lemma inputs_plan n :
  plain n -> forall pid st, inputs (snd (plan_node pid st n)) = inputs n.
Proof.
  induction n as [c f|c d ch IH] using FSTNode_ind'; intros Hp pid st;
    inversion Hp as [? ? Hex Hnul Hal Hpos Hsz|? ? ? Hex Hnul Hch]; subst.
  - cbn [plan_node]. rewrite plan_file_plain by assumption.
    cbn [snd inputs set_id name _exclude size _alignment _position].
    rewrite Hpos. reflexivity.
  - assert (L : forall pid st, map inputs (snd (plan_list pid st ch)) = map inputs ch).
    { clear pid st Hp. revert Hch.
      induction IH as [|x l Hx Hl IHl]; intros Hch pid st; [reflexivity|].
      inversion Hch as [|? ? Hpx Hpl]; subst.
      rewrite plan_list_cons. cbn [snd map].
      rewrite Hx by assumption. rewrite IHl by assumption. reflexivity. }
    rewrite plan_node_dir_plain by assumption.
    cbn [snd inputs set_id name _exclude]. rewrite L. reflexivity.
Qed.

Lemma inputs_plan_list l :
  Forall plain l ->
  forall pid st, map inputs (snd (plan_list pid st l)) = map inputs l.
Proof.
  induction 1 as [|x l Hx Hl IH]; intros pid st; [reflexivity|].
  rewrite plan_list_cons. cbn [snd map].
  rewrite inputs_plan, IH by assumption. reflexivity.
Qed.

Lemma plain_decoded n :
  plain n -> forall pid cur, plain (decoded_node pid cur n).
Proof.
  induction n as [c f|c d ch IH] using FSTNode_ind'; intros Hp pid cur;
    inversion Hp as [? ? Hex Hnul Hal Hpos Hsz|? ? ? Hex Hnul Hch]; subst.
  - cbn [decoded_node]. constructor; auto.
  - rewrite decoded_node_dir. constructor; auto.
    generalize (cur + 1). generalize cur at 1. clear Hp. revert Hch.
    induction IH as [|x l Hx Hl IHl]; intros Hch p c0; [constructor|].
    inversion Hch as [|? ? Hpx Hpl]; subst.
    rewrite decoded_list_cons. constructor; auto.
Qed.

Lemma plain_decoded_list l :
  Forall plain l -> forall pid cur, Forall plain (decoded_list pid cur l).
Proof.
  induction 1 as [|x l Hx Hl IH]; intros pid cur; [constructor|].
  rewrite decoded_list_cons. constructor; [apply plain_decoded; assumption|apply IH].
Qed.

Lemma align_int_4_bounds x : x <= align_int x 4 <= x + 3.
Proof.
  unfold align_int.
  pose proof (Z.div_mod (x + (4 - 1)) 4 ltac:(lia)).
  pose proof (Z.mod_pos_bound (x + (4 - 1)) 4 ltac:(lia)). lia.
Qed.

(** The offsets a layout pass gives fit 32 bits when its data offset ends
    within 32 bits. *)
Lemma encodable_plan n :
  plain n ->
  forall pid st,
    0 <= _dataOfs st ->
    _dataOfs st <= _dataOfs (fst (plan_node pid st n)) /\
    (_dataOfs (fst (plan_node pid st n)) + 3 < 2 ^ 32 ->
     encodable (snd (plan_node pid st n))).
Proof.
  induction n as [c f|c d ch IH] using FSTNode_ind'; intros Hp pid st Hd;
    inversion Hp as [? ? Hex Hnul Hal Hpos Hsz|? ? ? Hex Hnul Hch]; subst.
  - cbn [plan_node]. rewrite plan_file_plain by assumption.
    cbn [fst snd _dataOfs]. split; [lia|]. intros Hb.
    rewrite Hal. pose proof (align_int_4_bounds (_dataOfs st)).
    constructor; cbn [_exclude name set_id _fileoffset size]; auto; lia.
  - assert (L : forall pid st,
               0 <= _dataOfs st ->
               _dataOfs st <= _dataOfs (fst (plan_list pid st ch)) /\
               (_dataOfs (fst (plan_list pid st ch)) + 3 < 2 ^ 32 ->
                Forall encodable (snd (plan_list pid st ch)))).
    { clear pid st Hd Hp. revert Hch.
      induction IH as [|x l Hx Hl IHl]; intros Hch pid st Hd.
      - cbn [plan_list fst snd]. split; [lia|constructor].
      - inversion Hch as [|? ? Hpx Hpl]; subst.
        rewrite plan_list_cons. cbn [fst snd].
        destruct (Hx Hpx pid st Hd) as [H1 H2].
        destruct (IHl Hpl pid (fst (plan_node pid st x)) ltac:(lia)) as [H3 H4].
        split; [lia|]. intros Hb. constructor; [apply H2; lia|apply H4; assumption]. }
    rewrite plan_node_dir_plain by assumption. cbn [fst snd].
    destruct (L (_curEntry st) (mkPlan (_dataOfs st) (_curEntry st + 1)) Hd)
      as [H1 H2].
    cbn [_dataOfs] in H1. split; [assumption|].
    intros Hb. constructor; cbn [_exclude name set_id]; auto.
Qed.

Lemma encodable_plan_list l :
  Forall plain l ->
  forall pid st,
    0 <= _dataOfs st ->
    _dataOfs st <= _dataOfs (fst (plan_list pid st l)) /\
    (_dataOfs (fst (plan_list pid st l)) + 3 < 2 ^ 32 ->
     Forall encodable (snd (plan_list pid st l))).
Proof.
  induction 1 as [|x l Hx Hl IH]; intros pid st Hd.
  - cbn [plan_list fst snd]. split; [lia|constructor].
  - rewrite plan_list_cons. cbn [fst snd].
    destruct (encodable_plan x Hx pid st Hd) as [H1 H2].
    destruct (IH pid (fst (plan_node pid st x)) ltac:(lia)) as [H3 H4].
    split; [lia|]. intros Hb. constructor; [apply H2; lia|apply H4; assumption].
Qed.

(** The data offset of the layout pass moves no further than the running
    total of [get_auto_blob_size]. *)
Lemma plan_within_blob n :
  plain n ->
  forall pid st s,
    _dataOfs (fst (plan_node pid st n)) - _dataOfs st <= _collect_child n s - s.
Proof.
  induction n as [c f|c d ch IH] using FSTNode_ind'; intros Hp pid st s;
    inversion Hp as [? ? Hex Hnul Hal Hpos Hsz|? ? ? Hex Hnul Hch]; subst.
  - cbn [plan_node]. rewrite plan_file_plain by assumption.
    cbn [fst _dataOfs _collect_child info position_of]. rewrite Hex, Hpos, Hal.
    cbn [truthy orb]. pose proof (align_int_4_bounds s). lia.
  - assert (L : forall pid st s,
               _dataOfs (fst (plan_list pid st ch)) - _dataOfs st
               <= _collect_size ch s - s).
    { clear pid st s Hp. revert Hch.
      induction IH as [|x l Hx Hl IHl]; intros Hch pid st s.
      - cbn [plan_list fst _collect_size fold_left]. lia.
      - inversion Hch as [|? ? Hpx Hpl]; subst.
        rewrite plan_list_cons. cbn [fst].
        unfold _collect_size in *. cbn [fold_left].
        specialize (Hx Hpx pid st s).
        specialize (IHl Hpl pid (fst (plan_node pid st x)) (_collect_child x s)).
        lia. }
    rewrite plan_node_dir_plain by assumption. cbn [fst].
    rewrite collect_child_dir, Hex.
    specialize (L (_curEntry st) (mkPlan (_dataOfs st) (_curEntry st + 1)) s).
    cbn [_dataOfs] in L. exact L.
Qed.

Lemma plan_list_within_blob l :
  Forall plain l ->
  forall pid st s,
    _dataOfs (fst (plan_list pid st l)) - _dataOfs st <= _collect_size l s - s.
Proof.
  induction 1 as [|x l Hx Hl IH]; intros pid st s.
  - cbn [plan_list fst _collect_size fold_left]. lia.
  - rewrite plan_list_cons. cbn [fst].
    unfold _collect_size in *. cbn [fold_left].
    pose proof (plan_within_blob x Hx pid st s).
    specialize (IH pid (fst (plan_node pid st x)) (_collect_child x s)). lia.
Qed.

Lemma plain_plan n :
  plain n -> forall pid st, plain (snd (plan_node pid st n)).
Proof.
  induction n as [c f|c d ch IH] using FSTNode_ind'; intros Hp pid st;
    inversion Hp as [? ? Hex Hnul Hal Hpos Hsz|? ? ? Hex Hnul Hch]; subst.
  - cbn [plan_node]. rewrite plan_file_plain by assumption. cbn [snd].
    constructor; cbn [_exclude name set_id _alignment _position size]; auto.
  - rewrite plan_node_dir_plain by assumption. cbn [snd].
    constructor; cbn [_exclude name set_id]; auto.
    generalize (mkPlan (_dataOfs st) (_curEntry st + 1)). generalize (_curEntry st).
    clear Hp. revert Hch.
    induction IH as [|x l Hx Hl IHl]; intros Hch p s0; [constructor|].
    inversion Hch as [|? ? Hpx Hpl]; subst.
    rewrite plan_list_cons. cbn [snd]. constructor; auto.
Qed.

Lemma plain_plan_list l :
  Forall plain l -> forall pid st, Forall plain (snd (plan_list pid st l)).
Proof.
  induction 1 as [|x l Hx Hl IH]; intros pid st; [constructor|].
  rewrite plan_list_cons. cbn [snd].
  constructor; [apply plain_plan; assumption|apply IH].
Qed.

(** ** Round trip *)

(** C1, as the code has it.  Take a tree as a directory loaded with empty
    tables gives it (nothing excluded, alignment 4, no forced location),
    with names of one-byte characters without the zero byte, sizes within
    32 bits, less than 2^24 bytes of names and an automatic payload within
    the capacity.  The table [save_file_systemv] makes of it after its
    layout pass is decoded by [load_file_systemv], and [save_file_systemv],
    with its layout pass, on the decoded tree and the same stream leaves
    the same table and the same tree. *)
Theorem roundtrip_after_layout (t : list FSTNode) (sp sp' : Z) :
  Forall plain t ->
  names_len t < 2 ^ 24 ->
  get_auto_blob_size t <= MaxSize ->
  exists u buf p,
    save_file_systemv sp false true (mkIO [] 0) t = Ok (u, mkIO buf p) /\
    exists v s cur,
      load_file_systemv (mkIO buf 0) = Ok (v, s, cur) /\
      getvalue s = buf /\
      exists p', save_file_systemv sp' false true s v = Ok (u, mkIO buf p').
Proof.
  intros Hp Hn Hb.
  set (start := MaxSize - get_auto_blob_size t).
  set (st0 := mkPlan (align_int start 4) 1).
  set (u := pre_calc_metadata start t).
  assert (Hu : u = snd (plan_list 0 st0 t)) by reflexivity.
  pose proof (align_int_4_bounds start) as Ha.
  assert (Hpu : Forall plain u) by (rewrite Hu; apply plain_plan_list; assumption).
  assert (Hiu : map inputs u = map inputs t)
    by (rewrite Hu; apply inputs_plan_list; assumption).
  assert (Hnu : names_len u = names_len t)
    by (rewrite <- (names_len_map_inputs u), Hiu; apply names_len_map_inputs).
  assert (Hs : 0 <= start <= MaxSize).
  { unfold start. split; [lia|].
    pose proof (plan_list_within_blob t Hp 0 st0 0) as H3.
    pose proof (proj1 (encodable_plan_list t Hp 0 (mkPlan 0 1) ltac:(simpl; lia))) as H4.
    pose proof (plan_list_within_blob t Hp 0 (mkPlan 0 1) 0) as H5.
    fold (get_auto_blob_size t) in H5. cbn [_dataOfs] in H4, H5. lia. }
  assert (Hd0 : _dataOfs st0 = align_int start 4) by reflexivity.
  assert (Heu : Forall encodable u).
  { rewrite Hu.
    destruct (encodable_plan_list t Hp 0 st0 ltac:(lia)) as [H1 H2].
    apply H2.
    pose proof (plan_list_within_blob t Hp 0 st0 0) as H3.
    fold (get_auto_blob_size t) in H3.
    assert (HM : MaxSize + 6 < 2 ^ 32) by reflexivity.
    assert (Hst : start = MaxSize - get_auto_blob_size t) by reflexivity.
    clearbody start st0. lia. }
  set (buf := fst_bytes u).
  assert (Hnum : numbered_list 1 u = u) by apply pre_calc_numbered.
  exists u, buf, (12 * node_len u). split.
  - rewrite save_with_pass. fold start. fold u.
    rewrite save_raw_spec by (try assumption; lia).
    rewrite skipn_nil, app_nil_r, Hnum. reflexivity.
  - exists (decoded_list 0 1 u), (mkIO buf (12 * node_len u)), (node_len u).
    split; [|split; [reflexivity|]].
    + pose proof (load_fst_bytes u [] Heu ltac:(lia)) as HL.
      rewrite app_nil_r in HL. exact HL.
    + exists (12 * node_len u).
      set (v := decoded_list 0 1 u).
      assert (Hpv : Forall plain v) by (apply plain_decoded_list; assumption).
      assert (Hiv : map inputs v = map inputs t)
        by (unfold v; rewrite inputs_decoded_list by assumption; exact Hiu).
      assert (Hbv : get_auto_blob_size v = get_auto_blob_size t)
        by (rewrite <- (blob_map_inputs v), Hiv; apply blob_map_inputs).
      assert (Hplan : pre_calc_metadata (MaxSize - get_auto_blob_size v) v = u).
      { rewrite Hbv. fold start. unfold pre_calc_metadata, pre_calc_metadata_state.
        fold st0. rewrite <- (plan_list_inputs v Hpv), Hiv, (plan_list_inputs t Hp).
        symmetry. exact Hu. }
      rewrite save_with_pass, Hplan.
      rewrite save_raw_spec by (try assumption; lia).
      unfold buf. rewrite skipn_all, app_nil_r, Hnum. reflexivity.
Qed.

(** The directory [data] with its two files goes round. *)
Lemma roundtrip_after_layout_witness :
  exists u buf p,
    save_file_systemv 0 false true (mkIO [] 0) data_dir_tree = Ok (u, mkIO buf p) /\
    exists v s cur,
      load_file_systemv (mkIO buf 0) = Ok (v, s, cur) /\
      getvalue s = buf /\
      exists p', save_file_systemv 0 false true s v = Ok (u, mkIO buf p').
Proof.
  apply (roundtrip_after_layout data_dir_tree 0 0).
  - repeat constructor; discriminate.
  - reflexivity.
  - discriminate.
Defined.

(** The FST with the one file [a] at offset 4096 is decoded, and encoded
    again after the layout pass it has the file at [MaxSize - 4]: the table
    is not the one that was read. *)
Lemma roundtrip_changes_offsets :
  exists v s cur v' raw',
    load_file_systemv (mkIO one_file_fst 0) = Ok (v, s, cur) /\
    save_file_systemv 0 false true s v = Ok (v', raw') /\
    map fileoffset_of v = [4096] /\
    map fileoffset_of v' = [MaxSize - 4] /\
    getvalue raw' <> one_file_fst.
Proof.
  eexists. eexists. eexists. eexists. eexists.
  split; [cbv; reflexivity|]. split; [cbv; reflexivity|].
  split; [reflexivity|]. split; [reflexivity|]. discriminate.
Qed.


(** ** Looking up the tables *)

Lemma sd_get_setitem k v d p :
  sd_get (sd_setitem k v d) p = if String.eqb p k then Some v else sd_get d p.
Proof.
  induction d as [|[k' v'] d IH]; simpl; [reflexivity|].
  destruct (String.compare k k') eqn:E; simpl.
  - apply OrderedTypeEx.String_as_OT.cmp_eq in E. subst k'.
    destruct (String.eqb p k); reflexivity.
  - reflexivity.
  - rewrite IH. destruct (String.eqb p k') eqn:E1; [|reflexivity].
    destruct (String.eqb p k) eqn:E2; [|reflexivity].
    apply String.eqb_eq in E1. apply String.eqb_eq in E2. subst.
    exfalso. apply (str_lt_irrefl k'). apply str_gt_lt. exact E.
Qed.

Lemma find_app_last {A} (f : A -> bool) l x :
  find f (l ++ [x]) =
  match find f l with
  | Some y => Some y
  | None => if f x then Some x else None
  end.
Proof.
  induction l as [|a l IH]; simpl; [reflexivity|].
  destruct (f a); [reflexivity|exact IH].
Qed.

Lemma sd_get_fold data :
  forall d p,
    sd_get (fold_left (fun d kv => sd_setitem (fst kv) (snd kv) d) data d) p =
    match find (fun kv => String.eqb p (fst kv)) (rev data) with
    | Some kv => Some (snd kv)
    | None => sd_get d p
    end.
Proof.
  induction data as [|[k v] data IH]; intros d p; simpl; [reflexivity|].
  rewrite IH, find_app_last. cbn [fst snd].
  destruct (find _ (rev data)); [reflexivity|].
  rewrite sd_get_setitem. destruct (String.eqb p k); reflexivity.
Qed.

Lemma get_location_sd_get tbl p : _get_location tbl p = sd_get tbl p.
Proof. destruct tbl; reflexivity. Qed.

(** X1.  [_get_location] looks the path up as a key, literally: of the
    pairs the table was made of, the last one whose key is the path gives
    the location, and there is none when no key is the path.  No pattern
    is matched and nothing is stripped. *)
Theorem get_location_exact_key (data : list (string * Z)) (path : string) :
  _get_location (SortedDict_of data) path =
  option_map snd (find (fun kv => String.eqb path (fst kv)) (rev data)).
Proof.
  rewrite get_location_sd_get. unfold SortedDict_of. rewrite sd_get_fold.
  destruct (find _ (rev data)); reflexivity.
Qed.

Lemma fold_setitem_nonempty data :
  forall d, (d <> [] \/ data <> []) ->
    fold_left (fun d kv => sd_setitem (fst kv) (snd kv) d) data d <> [].
Proof.
  induction data as [|[k v] data IH]; intros d H; simpl.
  - destruct H as [H|H]; [assumption|congruence].
  - apply IH. left. cbn [fst snd]. destruct d as [|[k' v'] d]; simpl; [discriminate|].
    destruct (String.compare k k'); discriminate.
Qed.

Lemma peekitem_greatest d :
  StronglySorted key_lt d -> d <> [] ->
  exists k v, sd_peekitem d = Some (k, v) /\ In (k, v) d /\
    forall k' v', In (k', v') d -> k' = k \/ str_lt k' k.
Proof.
  unfold sd_peekitem.
  induction d as [|[k v] d IH]; intros Hs Hne; [congruence|].
  inversion Hs as [|? ? Hd Hall]; subst.
  destruct d as [|[k1 v1] d].
  - exists k, v. simpl. split; [reflexivity|]. split; [auto|].
    intros k' v' [H|[]]. inversion H. auto.
  - destruct (IH Hd ltac:(discriminate)) as (k2 & v2 & E & Hin & Hmax).
    exists k2, v2. split; [exact E|]. split; [right; exact Hin|].
    intros k' v' [H|H].
    + inversion H; subst. right.
      rewrite Forall_forall in Hall. apply (Hall (k2, v2) Hin).
    + apply (Hmax k' v' H).
Qed.

(** X2.  [_get_greatest_alignment] gives 4 for an empty table, and
    otherwise the alignment entered under the greatest pattern, as strings
    are ordered; it does not compare the alignments. *)
Theorem greatest_alignment_of_last_key (data : list (string * Z)) :
  match data with
  | [] => _get_greatest_alignment (SortedDict_of data) = 4
  | _ :: _ =>
      exists k,
        In (k, _get_greatest_alignment (SortedDict_of data)) (SortedDict_of data) /\
        forall k' v', In (k', v') (SortedDict_of data) -> k' = k \/ str_lt k' k
  end.
Proof.
  destruct data as [|kv data]; [reflexivity|].
  destruct (peekitem_greatest (SortedDict_of (kv :: data)))
    as (k & v & E & Hin & Hmax).
  - apply SortedDict_of_sorted.
  - apply fold_setitem_nonempty. right. discriminate.
  - exists k. unfold _get_greatest_alignment. rewrite E. split; assumption.
Qed.

(** ** The offsets of the system area *)

Lemma land_neg_pow2 x k : 0 <= k -> Z.land x (- 2 ^ k) = x - x mod 2 ^ k.
Proof.
  intros Hk.
  assert (E : - 2 ^ k = Z.lnot (Z.ones k)).
  { rewrite Z.ones_equiv. unfold Z.lnot. lia. }
  rewrite E, <- Z.ldiff_land, Z.ldiff_ones_r by assumption.
  rewrite Z.shiftl_mul_pow2, Z.shiftr_div_pow2 by assumption.
  pose proof (Z.div_mod x (2 ^ k)) as H.
  assert (0 < 2 ^ k) by (apply Z.pow_pos_nonneg; lia). lia.
Qed.

Lemma round_up_pow2 x k :
  0 <= k ->
  let r := Z.land (x + (2 ^ k - 1)) (- 2 ^ k) in
  r mod 2 ^ k = 0 /\ x <= r < x + 2 ^ k.
Proof.
  intros Hk r. subst r.
  assert (Hp : 0 < 2 ^ k) by (apply Z.pow_pos_nonneg; lia).
  rewrite land_neg_pow2 by assumption.
  set (y := x + (2 ^ k - 1)).
  pose proof (Z.div_mod y (2 ^ k) ltac:(lia)) as Hy.
  pose proof (Z.mod_pos_bound y (2 ^ k) Hp) as Hb.
  pose proof (Z.mod_pos_bound x (2 ^ k) Hp) as Hbx.
  replace (y - y mod 2 ^ k) with ((y / 2 ^ k) * 2 ^ k) by lia.
  split; [apply Z.mod_mul; lia|].
  assert (Hq : 2 ^ k * (y / 2 ^ k) = y - y mod 2 ^ k) by lia.
  subst y. lia.
Qed.

(** X3.  The offsets [init_from_root] computes: the executable starts at
    the first multiple of 0x2000 at or after the end of the apploader
    trailer counted from 0x2440, and the FST at the first multiple of 0x800
    at or after the end of the executable. *)
Theorem system_area_offsets (trailerSize dolSize : Z) :
  let dolOffset := dolOffset_of trailerSize in
  let fstOffset := fstOffset_of dolOffset dolSize in
  dolOffset mod 0x2000 = 0 /\
  0x2440 + trailerSize <= dolOffset < 0x2440 + trailerSize + 0x2000 /\
  fstOffset mod 0x800 = 0 /\
  dolOffset + dolSize <= fstOffset < dolOffset + dolSize + 0x800.
Proof.
  intros dolOffset fstOffset.
  assert (H1 : dolOffset mod 0x2000 = 0 /\
               0x2440 + trailerSize <= dolOffset < 0x2440 + trailerSize + 0x2000)
    by exact (round_up_pow2 (0x2440 + trailerSize) 13 ltac:(lia)).
  assert (H2 : fstOffset mod 0x800 = 0 /\
               dolOffset + dolSize <= fstOffset < dolOffset + dolSize + 0x800)
    by exact (round_up_pow2 (dolOffset + dolSize) 11 ltac:(lia)).
  clearbody dolOffset fstOffset.
  destruct H1 as [A B]. destruct H2 as [C D].
  repeat split; try assumption; lia.
Qed.

(** ** Loading a directory *)

Lemma HostEntry_ind' (P : HostEntry -> Prop) :
  (forall nm sz, P (HostFile nm sz)) ->
  (forall nm es, Forall P es -> P (HostDir nm es)) ->
  (forall nm, P (HostOther nm)) ->
  forall e, P e.
Proof.
  intros Hf Hd Ho. fix IH 1. intros [nm sz|nm es|nm].
  - apply Hf.
  - apply Hd. induction es as [|e es IHes]; constructor; [apply IH|exact IHes].
  - apply Ho.
Qed.

Section LoadFacts.

Variable fnmatch : string -> string -> bool.
Variable path_match : string -> string -> option bool.
Variable unset : Unset.
Variables _alignmentTable _locationTable : SortedDict.
Variable ignoreList : list string.

Local Abbreviation load_entry :=
  (_load_entry fnmatch path_match unset _alignmentTable _locationTable ignoreList).
Local Abbreviation load_from_path :=
  (_load_from_path fnmatch path_match unset _alignmentTable _locationTable
     ignoreList).

Lemma ignored_cases l hpath :
  ignored path_match l hpath = Ok (matches path_match l hpath) \/
  (ignored path_match l hpath = Raise ValueError /\
   raises_on path_match l hpath).
Proof.
  induction l as [|p l IH]; [left; reflexivity|].
  cbn [ignored matches existsb].
  destruct (path_match hpath p) as [m|] eqn:Em.
  - destruct IH as [-> | [-> (q & Hq & Eq)]]; cbn [bind].
    + left. reflexivity.
    + right. split; [reflexivity|]. exists q. split; [right; exact Hq|exact Eq].
  - right. split; [reflexivity|]. exists p. split; [left; reflexivity|exact Em].
Qed.

Lemma load_entry_dir hostdir vdir nm es :
  load_entry hostdir vdir (HostDir nm es) =
  do disable <- ignored path_match ignoreList (join hostdir nm);
  do ch <- load_from_path (join hostdir nm) (join vdir nm) es;
  Ok (DirNode (mkInfo nm (u_id unset) false)
        (mkDir (u_dirparent unset) (u_dirnext unset)) ch).
Proof.
  cbn [_load_entry].
  destruct (ignored path_match ignoreList (join hostdir nm)); cbn [bind];
    try reflexivity.
  f_equal. induction es as [|e es IH]; [reflexivity|].
  cbn [_load_from_path]. rewrite <- IH. reflexivity.
Qed.

Lemma raises_among_app l1 l2 :
  raises_among path_match ignoreList l1 \/
  raises_among path_match ignoreList l2 ->
  raises_among path_match ignoreList (l1 ++ l2).
Proof.
  intros [(h & Hh & R)|(h & Hh & R)]; exists h; (split; [|exact R]);
    apply in_or_app; [left|right]; exact Hh.
Qed.

Lemma load_list_post es :
  Forall (fun e => forall hostdir vdir,
            load_post (regular e)
              (raises_among path_match ignoreList (hpaths_entry hostdir e))
              (fun n => host_of n = e) (load_entry hostdir vdir e)) es ->
  forall hostdir vdir,
    load_post (forallb regular es)
      (raises_among path_match ignoreList (hpaths hostdir es))
      (fun ch => map host_of ch = es) (load_from_path hostdir vdir es).
Proof.
  induction 1 as [|e es He Hes IH]; intros hostdir vdir;
    cbn [_load_from_path forallb].
  - split; reflexivity.
  - specialize (He hostdir vdir). specialize (IH hostdir vdir).
    unfold hpaths in *. cbn [flat_map].
    destruct (load_entry hostdir vdir e) as [n|err| |]; cbn [bind load_post] in *.
    + destruct He as [-> Hn].
      destruct (load_from_path hostdir vdir es) as [r|err| |];
        cbn [bind load_post] in *.
      * destruct IH as [-> Hr]. split; [reflexivity|]. cbn [map]. congruence.
      * destruct IH as [[-> ->]|[R ->]].
        -- left. split; reflexivity.
        -- right. split; [|reflexivity]. apply raises_among_app. right. exact R.
      * contradiction.
      * contradiction.
    + destruct He as [[-> ->]|[R ->]].
      * left. split; reflexivity.
      * right. split; [|reflexivity]. apply raises_among_app. left. exact R.
    + contradiction.
    + contradiction.
Qed.

Lemma load_entry_post e :
  forall hostdir vdir,
    load_post (regular e)
              (raises_among path_match ignoreList (hpaths_entry hostdir e))
      (fun n => host_of n = e) (load_entry hostdir vdir e).
Proof.
  induction e as [nm sz|nm es IH|nm] using HostEntry_ind'; intros hostdir vdir.
  - cbn [_load_entry hpaths_entry regular].
    destruct (ignored_cases ignoreList (join hostdir nm)) as [-> | [-> R]];
      cbn [bind load_post].
    + split; reflexivity.
    + right. split; [|reflexivity]. exists (join hostdir nm).
      split; [left; reflexivity|exact R].
  - rewrite load_entry_dir. cbn [hpaths_entry regular].
    destruct (ignored_cases ignoreList (join hostdir nm)) as [-> | [-> R]];
      cbn [bind load_post].
    2:{ right. split; [|reflexivity]. exists (join hostdir nm).
        split; [left; reflexivity|exact R]. }
    pose proof (load_list_post es IH (join hostdir nm) (join vdir nm)) as H.
    destruct (load_from_path (join hostdir nm) (join vdir nm) es) as [ch|err| |];
      cbn [bind load_post] in *.
    + destruct H as [-> Hch]. split; [reflexivity|]. cbn [host_of name]. congruence.
    + destruct H as [H|[(h & Hh & R) ->]]; [left; exact H|].
      right. split; [|reflexivity]. exists h. split; [right; exact Hh|exact R].
    + contradiction.
    + contradiction.
  - cbn [_load_entry hpaths_entry regular].
    destruct (ignored_cases ignoreList (join hostdir nm)) as [-> | [-> R]];
      cbn [bind load_post].
    + left. split; reflexivity.
    + right. split; [|reflexivity]. exists (join hostdir nm).
      split; [left; reflexivity|exact R].
Qed.

Lemma load_from_path_post es hostdir vdir :
  load_post (forallb regular es)
      (raises_among path_match ignoreList (hpaths hostdir es))
    (fun ch => map host_of ch = es) (load_from_path hostdir vdir es).
Proof.
  apply load_list_post. rewrite Forall_forall. intros e _. apply load_entry_post.
Qed.


(** X5.  A tree that [_load_from_path] has loaded mirrors the host
    directory: the same names, sizes and nesting in the same order.  An
    entry the ignore list matches is not dropped from the tree. *)
Theorem load_from_path_mirrors_host
    (hostdir vdir : string) (entries : list HostEntry) (ch : list FSTNode) :
  load_from_path hostdir vdir entries = Ok ch ->
  map host_of ch = entries.
Proof.
  intros E. pose proof (load_from_path_post entries hostdir vdir) as H.
  rewrite E in H. exact (proj2 H).
Qed.

Lemma load_files_list es :
  Forall (fun e => forall hostdir vdir n,
            load_entry hostdir vdir e = Ok n ->
            Forall2 (fun h v =>
                       loaded_file fnmatch path_match _alignmentTable _locationTable
                         ignoreList (fst h) (fst v) (snd v) /\ snd h = snd v)
              (rfiles_node hostdir n) (rfiles_node vdir n)) es ->
  forall hostdir vdir ch,
    load_from_path hostdir vdir es = Ok ch ->
    Forall2 (fun h v =>
               loaded_file fnmatch path_match _alignmentTable _locationTable
                 ignoreList (fst h) (fst v) (snd v) /\ snd h = snd v)
      (flat_map (rfiles_node hostdir) ch) (flat_map (rfiles_node vdir) ch).
Proof.
  induction 1 as [|e es He Hes IH]; intros hostdir vdir ch E;
    cbn [_load_from_path] in E.
  - inversion E. constructor.
  - destruct (load_entry hostdir vdir e) as [n|err| |] eqn:En; cbn [bind] in E;
      try discriminate.
    destruct (load_from_path hostdir vdir es) as [r|err| |] eqn:Er; cbn [bind] in E;
      try discriminate.
    inversion E; subst ch. cbn [flat_map].
    apply Forall2_app; [apply (He _ _ _ En)|apply (IH _ _ _ Er)].
Qed.

Lemma load_files_entry e :
  forall hostdir vdir n,
    load_entry hostdir vdir e = Ok n ->
    Forall2 (fun h v =>
               loaded_file fnmatch path_match _alignmentTable _locationTable
                 ignoreList (fst h) (fst v) (snd v) /\ snd h = snd v)
      (rfiles_node hostdir n) (rfiles_node vdir n).
Proof.
  induction e as [nm sz|nm es IH|nm] using HostEntry_ind'; intros hostdir vdir n E.
  - cbn [_load_entry] in E.
    destruct (ignored_cases ignoreList (join hostdir nm)) as [Ei | [Ei _]];
      rewrite Ei in E; cbn [bind] in E; [|discriminate].
    inversion E; subst n. cbn [rfiles_node name].
    constructor; [|constructor]. cbn. repeat split; reflexivity.
  - rewrite load_entry_dir in E.
    destruct (ignored path_match ignoreList (join hostdir nm)); cbn [bind] in E;
      try discriminate.
    destruct (load_from_path (join hostdir nm) (join vdir nm) es) as [ch|err| |] eqn:Ech;
      cbn [bind] in E; try discriminate.
    inversion E; subst n. cbn [rfiles_node name].
    apply (load_files_list es IH _ _ _ Ech).
  - cbn [_load_entry] in E.
    destruct (ignored path_match ignoreList (join hostdir nm)); discriminate.
Qed.

(** X6.  Every file of a loaded tree has the alignment [_get_alignment]
    gives for its virtual path and the location [_get_location] gives for
    it, and is excluded exactly when a pattern of the ignore list matches
    its host path. *)
Theorem load_from_path_file_attributes
    (hostdir vdir : string) (entries : list HostEntry) (ch : list FSTNode) :
  load_from_path hostdir vdir entries = Ok ch ->
  Forall2 (fun h v =>
             loaded_file fnmatch path_match _alignmentTable _locationTable
               ignoreList (fst h) (fst v) (snd v) /\ snd h = snd v)
    (flat_map (rfiles_node hostdir) ch) (flat_map (rfiles_node vdir) ch).
Proof.
  apply load_files_list. rewrite Forall_forall. intros e _. apply load_files_entry.
Qed.

Lemma load_dirs_list es :
  Forall (fun e => forall hostdir vdir n,
            load_entry hostdir vdir e = Ok n ->
            Forall (fun d => _exclude (info d) = false)
              (filter (fun n => negb (is_file n)) (rchildren_node n))) es ->
  forall hostdir vdir ch,
    load_from_path hostdir vdir es = Ok ch ->
    Forall (fun d => _exclude (info d) = false) (rdirs ch).
Proof.
  unfold rdirs, rchildren.
  induction 1 as [|e es He Hes IH]; intros hostdir vdir ch E;
    cbn [_load_from_path] in E.
  - inversion E. constructor.
  - destruct (load_entry hostdir vdir e) as [n|err| |] eqn:En; cbn [bind] in E;
      try discriminate.
    destruct (load_from_path hostdir vdir es) as [r|err| |] eqn:Er; cbn [bind] in E;
      try discriminate.
    inversion E; subst ch. cbn [flat_map]. rewrite filter_app.
    apply Forall_app. split; [apply (He _ _ _ En)|apply (IH _ _ _ Er)].
Qed.

Lemma load_dirs_entry e :
  forall hostdir vdir n,
    load_entry hostdir vdir e = Ok n ->
    Forall (fun d => _exclude (info d) = false)
      (filter (fun n => negb (is_file n)) (rchildren_node n)).
Proof.
  induction e as [nm sz|nm es IH|nm] using HostEntry_ind'; intros hostdir vdir n E.
  - cbn [_load_entry] in E.
    destruct (ignored path_match ignoreList (join hostdir nm)); cbn [bind] in E;
      try discriminate.
    inversion E; subst n. constructor.
  - rewrite load_entry_dir in E.
    destruct (ignored path_match ignoreList (join hostdir nm)); cbn [bind] in E;
      try discriminate.
    destruct (load_from_path (join hostdir nm) (join vdir nm) es) as [ch|err| |] eqn:Ech;
      cbn [bind] in E; try discriminate.
    inversion E; subst n. cbn [rchildren_node filter is_file negb].
    constructor; [reflexivity|].
    apply (load_dirs_list es IH _ _ _ Ech).
  - cbn [_load_entry] in E.
    destruct (ignored path_match ignoreList (join hostdir nm)); discriminate.
Qed.

(** X7.  No directory of a loaded tree is excluded, whatever the ignore
    list holds: [_load_from_path] computes the match for every entry and
    records it on files only. *)
Theorem load_from_path_never_excludes_directories
    (hostdir vdir : string) (entries : list HostEntry) (ch : list FSTNode) :
  load_from_path hostdir vdir entries = Ok ch ->
  Forall (fun d => _exclude (info d) = false) (rdirs ch).
Proof.
  apply load_dirs_list. rewrite Forall_forall. intros e _. apply load_dirs_entry.
Qed.

End LoadFacts.

(** The host directory with [b.bin] and [data] comes back from the tree
    that was loaded from it. *)
Lemma load_from_path_mirrors_host_witness :
  map host_of nested_loaded = nested_host.
Proof.
  apply (load_from_path_mirrors_host glob_match glob_path_match (mkUnset 0 0 0 0)
           nested_alignment nested_location nested_ignore EmptyString
           EmptyString nested_host nested_loaded).
  vm_compute. reflexivity.
Defined.

(** The directory [data] is not excluded although the ignore list names
    it. *)
Lemma load_from_path_never_excludes_directories_witness :
  Forall (fun d => _exclude (info d) = false) (rdirs nested_loaded).
Proof.
  apply (load_from_path_never_excludes_directories glob_match glob_path_match
           (mkUnset 0 0 0 0) nested_alignment nested_location nested_ignore
           EmptyString EmptyString nested_host nested_loaded).
  vm_compute. reflexivity.
Defined.

(** In that tree [a.bin] and [skip.tmp] have the alignment 32 of [data/*],
    [b.bin] has the location 4096, and [skip.tmp] alone is excluded. *)
Lemma load_from_path_file_attributes_witness :
  Forall2 (fun h v =>
             loaded_file glob_match glob_path_match nested_alignment
               nested_location nested_ignore (fst h) (fst v) (snd v)
             /\ snd h = snd v)
    (flat_map (rfiles_node EmptyString) nested_loaded)
    (flat_map (rfiles_node EmptyString) nested_loaded).
Proof.
  apply (load_from_path_file_attributes glob_match glob_path_match
           (mkUnset 0 0 0 0) nested_alignment nested_location nested_ignore
           EmptyString EmptyString nested_host nested_loaded).
  vm_compute. reflexivity.
Defined.

(** With an empty pattern in the ignore list the same host directory is
    not loaded: [match] raises on the first entry. *)
Lemma load_from_path_empty_pattern :
  _load_from_path glob_match glob_path_match (mkUnset 0 0 0 0) nested_alignment
    nested_location [""%string] EmptyString EmptyString nested_host
  = Raise ValueError.
Proof. reflexivity. Qed.

(** ** The layout pass on any tree *)

Lemma plan_node_dir_pair pid st c d ch :
  plan_node pid st (DirNode c d ch) =
  if _exclude c then
    (fst (plan_list (_id c) st ch), DirNode c d (snd (plan_list (_id c) st ch)))
  else
    (fst (plan_list (_curEntry st) (mkPlan (_dataOfs st) (_curEntry st + 1)) ch),
     DirNode (set_id c (_curEntry st)) (mkDir pid (dir_size ch + _curEntry st))
       (snd (plan_list (_curEntry st) (mkPlan (_dataOfs st) (_curEntry st + 1)) ch))).
Proof.
  rewrite plan_node_dir. destruct (_exclude c).
  - destruct (plan_list (_id c) st ch). reflexivity.
  - destruct (plan_list _ _ ch). reflexivity.
Qed.

Lemma plan_file_eq st c f :
  plan_file st c f =
  if _exclude c then
    (st, FileNode c (mkFile (size f) 0 (_alignment f) (_position f)))
  else
    (mkPlan (_dataOfs st + size f) (_curEntry st + 1),
     FileNode (set_id c (_curEntry st))
       (mkFile (size f) (align_int (_dataOfs st) (_alignment f)) (_alignment f)
          (_position f))).
Proof.
  unfold plan_file.
  destruct (_position f) as [p|] eqn:Ep; [destruct (truthy (Some p))|];
    destruct (_exclude c); unfold set_fileoffset;
    cbn [size _alignment _position _fileoffset]; rewrite ?Ep; reflexivity.
Qed.

(** Induction along the walk of the layout pass. *)
Lemma plan_walk_ind (P : Z -> PlanState -> FSTNode -> Prop)
    (Q : Z -> PlanState -> list FSTNode -> Prop) :
  (forall pid st c f, P pid st (FileNode c f)) ->
  (forall pid st c d ch,
      _exclude c = true -> Q (_id c) st ch -> P pid st (DirNode c d ch)) ->
  (forall pid st c d ch,
      _exclude c = false ->
      Q (_curEntry st) (mkPlan (_dataOfs st) (_curEntry st + 1)) ch ->
      P pid st (DirNode c d ch)) ->
  (forall pid st, Q pid st []) ->
  (forall pid st x l,
      P pid st x -> Q pid (fst (plan_node pid st x)) l -> Q pid st (x :: l)) ->
  (forall n pid st, P pid st n) /\ (forall l pid st, Q pid st l).
Proof.
  intros Hf Hde Hdi Hn Hc.
  assert (L : forall l, Forall (fun x => forall pid st, P pid st x) l ->
                        forall pid st, Q pid st l).
  { induction 1 as [|x l Hx Hl IH]; intros pid st; [apply Hn|].
    apply Hc; [apply Hx|apply IH]. }
  assert (N : forall n pid st, P pid st n).
  { induction n as [c f|c d ch IH] using FSTNode_ind'; intros pid st.
    - apply Hf.
    - destruct (_exclude c) eqn:E; [apply Hde|apply Hdi]; try assumption;
        apply L; assumption. }
  split; [exact N|].
  intros l. apply L. rewrite Forall_forall. intros x _. apply N.
Qed.

Lemma inputs_plan_walk :
  (forall n pid st, inputs (snd (plan_node pid st n)) = inputs n) /\
  (forall l pid st, map inputs (snd (plan_list pid st l)) = map inputs l).
Proof.
  apply plan_walk_ind.
  - intros pid st c f. cbn [plan_node]. rewrite plan_file_eq.
    destruct (_exclude c) eqn:Ex; cbn; rewrite ?Ex; reflexivity.
  - intros pid st c d ch Ex H. rewrite plan_node_dir_pair, Ex.
    cbn [snd inputs]. rewrite H. reflexivity.
  - intros pid st c d ch Ex H. rewrite plan_node_dir_pair, Ex.
    cbn [snd inputs set_id name _exclude]. rewrite H. reflexivity.
  - reflexivity.
  - intros pid st x l Hx Hl. rewrite plan_list_cons. cbn [snd map].
    rewrite Hx, Hl. reflexivity.
Qed.

(** X8.  The layout pass writes ids, file offsets and directory links and
    nothing else: names, sizes, alignments, forced locations, exclusion
    marks and the shape of the tree are as before.  The automatic payload
    size is therefore the same after the pass. *)
Theorem layout_pass_keeps_inputs (startpos : Z) (ch : list FSTNode) :
  map inputs (pre_calc_metadata startpos ch) = map inputs ch /\
  get_auto_blob_size (pre_calc_metadata startpos ch) = get_auto_blob_size ch.
Proof.
  assert (H : map inputs (pre_calc_metadata startpos ch) = map inputs ch)
    by apply (proj2 inputs_plan_walk).
  split; [exact H|].
  rewrite <- (blob_map_inputs (pre_calc_metadata startpos ch)), H.
  apply blob_map_inputs.
Qed.

Lemma entries_plan_list l pid st : entries (snd (plan_list pid st l)) = entries l.
Proof.
  rewrite <- (entries_map_inputs (snd (plan_list pid st l))).
  rewrite (proj2 inputs_plan_walk). apply entries_map_inputs.
Qed.

Lemma pair_eta {A B} (p : A * B) : p = (fst p, snd p).
Proof. destruct p; reflexivity. Qed.

Lemma plan_again_walk :
  (forall n pid st,
      plan_node pid st (snd (plan_node pid st n)) = plan_node pid st n) /\
  (forall l pid st,
      plan_list pid st (snd (plan_list pid st l)) = plan_list pid st l).
Proof.
  apply plan_walk_ind.
  - intros pid st c f. cbn [plan_node]. rewrite plan_file_eq.
    destruct (_exclude c) eqn:Ex; cbn [snd plan_node]; rewrite plan_file_eq;
      cbn [set_id _exclude size _alignment _position name _id]; rewrite Ex;
      reflexivity.
  - intros pid st c d ch Ex H. rewrite !plan_node_dir_pair, Ex. cbn [snd].
    rewrite plan_node_dir_pair, Ex, H. reflexivity.
  - intros pid st c d ch Ex H. rewrite !plan_node_dir_pair, Ex. cbn [snd].
    rewrite plan_node_dir_pair. cbn [set_id _exclude _id name]. rewrite Ex, H.
    unfold dir_size. rewrite entries_plan_list. reflexivity.
  - reflexivity.
  - intros pid st x l Hx Hl. rewrite (plan_list_cons pid st x l). cbn [snd].
    rewrite plan_list_cons, Hx, Hl. reflexivity.
Qed.

(** X9.  A second layout pass from the same start changes nothing.  In
    particular the pass [save_file_systemv] runs on a tree that
    [load_file_system] has laid out leaves every node as it is. *)
Theorem layout_pass_idempotent (startpos : Z) (ch : list FSTNode) :
  pre_calc_metadata startpos (pre_calc_metadata startpos ch)
    = pre_calc_metadata startpos ch /\
  (let u := pre_calc_metadata (MaxSize - get_auto_blob_size ch) ch in
   pre_calc_metadata (MaxSize - get_auto_blob_size u) u = u).
Proof.
  assert (H : forall sp, pre_calc_metadata sp (pre_calc_metadata sp ch)
                         = pre_calc_metadata sp ch).
  { intros sp. unfold pre_calc_metadata, pre_calc_metadata_state.
    rewrite (proj2 plan_again_walk). reflexivity. }
  split; [apply H|].
  intros u. subst u.
  assert (B : get_auto_blob_size
                (pre_calc_metadata (MaxSize - get_auto_blob_size ch) ch)
              = get_auto_blob_size ch).
  { rewrite <- (blob_map_inputs (pre_calc_metadata _ ch)).
    unfold pre_calc_metadata, pre_calc_metadata_state.
    rewrite (proj2 inputs_plan_walk). apply blob_map_inputs. }
  rewrite B. apply H.
Qed.

(** ** The ids a layout pass gives *)

Lemma zrange_app a n m :
  zrange a (n + m) = zrange a n ++ zrange (a + Z.of_nat n) m.
Proof.
  revert a. induction n as [|n IH]; intros a.
  - cbn. rewrite Z.add_0_r. reflexivity.
  - cbn [Nat.add zrange app]. rewrite IH. do 3 f_equal. lia.
Qed.

Lemma zrange_add a x y :
  0 <= x -> 0 <= y ->
  zrange a (Z.to_nat (x + y)) = zrange a (Z.to_nat x) ++ zrange (a + x) (Z.to_nat y).
Proof.
  intros Hx Hy. rewrite Z2Nat.inj_add, zrange_app, Z2Nat.id by assumption.
  reflexivity.
Qed.

Lemma ids_of_app l1 l2 : ids_of (l1 ++ l2) = ids_of l1 ++ ids_of l2.
Proof. unfold ids_of. rewrite filter_app, map_app. reflexivity. Qed.

Lemma ids_plan_walk :
  (forall n pid st,
      ids_of (rchildren_node (snd (plan_node pid st n)))
        = zrange (_curEntry st) (Z.to_nat (entries_node n)) /\
      _curEntry (fst (plan_node pid st n)) = _curEntry st + entries_node n) /\
  (forall l pid st,
      ids_of (rchildren (snd (plan_list pid st l)))
        = zrange (_curEntry st) (Z.to_nat (entries l)) /\
      _curEntry (fst (plan_list pid st l)) = _curEntry st + entries l).
Proof.
  apply plan_walk_ind.
  - intros pid st c f. cbn [plan_node]. rewrite plan_file_eq.
    destruct (_exclude c) eqn:Ex; cbn [snd fst rchildren_node].
    + unfold ids_of. cbn [filter info _exclude]. rewrite Ex.
      cbn [entries_node info]. rewrite Ex. cbn. split; [reflexivity|lia].
    + unfold ids_of. cbn [filter info set_id _exclude]. rewrite Ex.
      cbn [entries_node info]. rewrite Ex. cbn. split; reflexivity.
  - intros pid st c d ch Ex [H1 H2]. rewrite plan_node_dir_pair, Ex.
    cbn [snd fst rchildren_node]. rewrite entries_node_dir, Ex.
    unfold ids_of in *. cbn [filter info]. rewrite Ex. cbn [negb].
    split; assumption.
  - intros pid st c d ch Ex [H1 H2]. rewrite plan_node_dir_pair, Ex.
    cbn [snd fst rchildren_node]. rewrite entries_node_dir, Ex.
    cbn [_curEntry] in H1, H2.
    pose proof (counts_nonneg_list ch) as Cl.
    unfold ids_of in *. cbn [filter info set_id _exclude]. rewrite Ex.
    cbn [negb map info _id].
    rewrite (zrange_add (_curEntry st) 1 (entries ch)) by lia.
    unfold rchildren in H1. rewrite H1. split; [reflexivity|lia].
  - intros pid st. cbn. split; [reflexivity|lia].
  - intros pid st x l [Hx1 Hx2] [Hl1 Hl2]. rewrite plan_list_cons.
    cbn [snd fst]. unfold rchildren in *. cbn [flat_map].
    rewrite ids_of_app, Hx1, Hl1, Hx2, entries_cons.
    pose proof (counts_nonneg x) as Cx. pose proof (counts_nonneg_list l) as Cl.
    rewrite zrange_add by lia. split; [reflexivity|lia].
Qed.

(** X10.  After a layout pass the included nodes carry the ids 1, 2, 3,
    ... in the order of [rchildren], and [_curEntry] ends at the number of
    entries, root included.  These are the ids the loop of
    [save_file_systemv] gives again ([child._id = _curEntry]): whenever
    [save_file_systemv] returns, without a layout pass of its own on a
    tree that comes out of one, or with its own layout pass on any tree,
    the tree it leaves is the tree as the layout pass left it. *)
Theorem layout_pass_numbers_included_nodes (startpos : Z) (ch : list FSTNode) :
  map (fun n => _id (info n)) (included (pre_calc_metadata startpos ch))
    = zrange 1 (Z.to_nat (entries ch)) /\
  _curEntry (fst (pre_calc_metadata_state startpos ch)) = node_len ch /\
  (forall sp raw u raw',
     save_file_systemv sp false false raw (pre_calc_metadata startpos ch)
       = Ok (u, raw') ->
     u = pre_calc_metadata startpos ch) /\
  (forall sp raw u raw',
     save_file_systemv sp false true raw ch = Ok (u, raw') ->
     u = pre_calc_metadata (MaxSize - get_auto_blob_size ch) ch).
Proof.
  destruct (proj2 ids_plan_walk ch 0 (mkPlan (align_int startpos 4) 1)) as [H1 H2].
  split; [exact H1|]. split; [exact H2|]. split.
  - intros sp raw u raw' E. apply save_returns_numbered in E.
    rewrite E. apply pre_calc_numbered.
  - intros sp raw u raw' E. rewrite save_with_pass in E.
    apply save_returns_numbered in E. rewrite E. apply pre_calc_numbered.
Qed.

(** ** How far the data offset moves *)

Lemma data_offset_walk :
  (forall n pid st,
      _dataOfs (fst (plan_node pid st n)) = _dataOfs st + included_bytes_node n) /\
  (forall l pid st,
      _dataOfs (fst (plan_list pid st l)) = _dataOfs st + included_bytes l).
Proof.
  apply plan_walk_ind.
  - intros pid st c f. cbn [plan_node]. rewrite plan_file_eq.
    cbn [included_bytes_node]. destruct (_exclude c); cbn [fst _dataOfs]; lia.
  - intros pid st c d ch Ex H. rewrite plan_node_dir_pair, Ex. exact H.
  - intros pid st c d ch Ex H. rewrite plan_node_dir_pair, Ex. exact H.
  - intros pid st. cbn. lia.
  - intros pid st x l Hx Hl. rewrite plan_list_cons. cbn [fst].
    rewrite Hl, Hx. cbn [included_bytes fold_right]. fold (included_bytes l). lia.
Qed.

(** X26.  The data offset of a layout pass ends at its start, rounded up
    to 4, plus the sizes of all the included files.  The bytes that bring
    a file up to its alignment are not counted, and a file with a forced
    location or under an excluded directory is counted like any other. *)
Theorem layout_pass_advances_by_file_sizes (startpos : Z) (ch : list FSTNode) :
  _dataOfs (fst (pre_calc_metadata_state startpos ch))
    = align_int startpos 4 + included_bytes ch.
Proof.
  apply (proj2 data_offset_walk ch 0 (mkPlan (align_int startpos 4) 1)).
Qed.

(** ** Where a layout pass puts the files *)

Lemma is_pow2_pos a : is_pow2 a = true -> 0 < a.
Proof.
  unfold is_pow2. intros H. apply andb_prop in H. destruct H as [H _].
  apply Z.ltb_lt. exact H.
Qed.

(** For a power of two [align_int] is the rounding by mask. *)
Lemma align_int_mask num a :
  is_pow2 a = true -> align_int num a = Z.land (num + (a - 1)) (- a).
Proof.
  unfold is_pow2. intros H. apply andb_prop in H. destruct H as [Hp He].
  apply Z.ltb_lt in Hp. apply Z.eqb_eq in He.
  pose proof (Z.log2_nonneg a) as Hk.
  rewrite He at 3. rewrite land_neg_pow2 by assumption. rewrite <- He.
  unfold align_int.
  pose proof (Z.div_mod (num + (a - 1)) a ltac:(lia)) as Hd. lia.
Qed.

Lemma align_int_ge num a : 0 < a -> num <= align_int num a.
Proof.
  intros Ha. unfold align_int.
  pose proof (Z.div_mod (num + (a - 1)) a ltac:(lia)) as H.
  pose proof (Z.mod_pos_bound (num + (a - 1)) a Ha) as Hb.
  nia.
Qed.

Lemma placed_walk start :
  (forall n pid st,
      forallb placeable (rchildren_node n) = true ->
      start <= _dataOfs st ->
      Forall (placed_ok start) (rchildren_node (snd (plan_node pid st n))) /\
      start <= _dataOfs (fst (plan_node pid st n))) /\
  (forall l pid st,
      forallb placeable (rchildren l) = true ->
      start <= _dataOfs st ->
      Forall (placed_ok start) (rchildren (snd (plan_list pid st l))) /\
      start <= _dataOfs (fst (plan_list pid st l))).
Proof.
  apply plan_walk_ind.
  - intros pid st c f Hp Hs. cbn [rchildren_node forallb placeable] in Hp.
    rewrite andb_true_r in Hp. apply andb_prop in Hp. destruct Hp as [Ha Hz].
    apply is_pow2_pos in Ha. apply Z.leb_le in Hz.
    cbn [plan_node]. rewrite plan_file_eq.
    destruct (_exclude c) eqn:Ex; cbn [snd fst rchildren_node _dataOfs].
    + split; [|assumption]. constructor; [|constructor].
      cbn [placed_ok]. rewrite Ex. reflexivity.
    + split; [|lia]. constructor; [|constructor].
      cbn [placed_ok set_id _exclude _fileoffset _alignment]. rewrite Ex.
      split; [apply align_int_multiple|].
      pose proof (align_int_ge (_dataOfs st) (_alignment f) Ha). lia.
  - intros pid st c d ch Ex H Hp Hs. rewrite plan_node_dir_pair, Ex.
    cbn [snd fst rchildren_node]. cbn [rchildren_node forallb placeable] in Hp.
    destruct (H Hp Hs) as [H1 H2].
    split; [|assumption]. constructor; [exact I|exact H1].
  - intros pid st c d ch Ex H Hp Hs. rewrite plan_node_dir_pair, Ex.
    cbn [snd fst rchildren_node]. cbn [rchildren_node forallb placeable] in Hp.
    destruct (H Hp Hs) as [H1 H2].
    split; [|assumption]. constructor; [exact I|exact H1].
  - intros pid st _ Hs. split; [constructor|assumption].
  - intros pid st x l Hx Hl Hp Hs. unfold rchildren in Hp. cbn [flat_map] in Hp.
    rewrite forallb_app in Hp. apply andb_prop in Hp. destruct Hp as [Hpx Hpl].
    destruct (Hx Hpx Hs) as [Hx1 Hx2].
    destruct (Hl Hpl Hx2) as [Hl1 Hl2].
    rewrite plan_list_cons. cbn [snd fst]. unfold rchildren. cbn [flat_map].
    split; [apply Forall_app; split; assumption|assumption].
Qed.

(** X11.  When the alignments are powers of two and the sizes are not
    negative, a layout pass leaves every included file at a multiple of
    its alignment, at or after the start of the pass rounded up to 4, and
    every excluded file at offset 0. *)
Theorem layout_pass_aligns_files (startpos : Z) (ch : list FSTNode) :
  forallb placeable (rchildren ch) = true ->
  Forall (placed_ok (align_int startpos 4))
    (rchildren (pre_calc_metadata startpos ch)).
Proof.
  intros Hp.
  apply (proj2 (placed_walk (align_int startpos 4)) ch 0
           (mkPlan (align_int startpos 4) 1) Hp).
  cbn [_dataOfs]. lia.
Qed.

(** The two files of [data], laid out from 1000. *)
Lemma layout_pass_aligns_files_witness :
  Forall (placed_ok (align_int 1000 4))
    (rchildren (pre_calc_metadata 1000 data_dir_tree)).
Proof.
  apply (layout_pass_aligns_files 1000 data_dir_tree). reflexivity.
Defined.

(** ** Files whose sizes are multiples of 4 *)

Lemma align_int_4_exact d : d mod 4 = 0 -> align_int d 4 = d.
Proof.
  intros H. unfold align_int.
  pose proof (Z.div_mod d 4 ltac:(lia)) as Hd.
  pose proof (Z.div_mod (d + (4 - 1)) 4 ltac:(lia)) as He.
  pose proof (Z.mod_pos_bound (d + (4 - 1)) 4 ltac:(lia)) as Hb.
  lia.
Qed.

Lemma mod4_add a b : a mod 4 = 0 -> b mod 4 = 0 -> (a + b) mod 4 = 0.
Proof.
  intros Ha Hb. rewrite Z.add_mod, Ha, Hb by lia. reflexivity.
Qed.

Lemma tidy_file_facts c f :
  tidy (FileNode c f) = true -> _exclude c = false ->
  _alignment f = 4 /\ truthy (_position f) = false /\ 0 <= size f /\
  size f mod 4 = 0.
Proof.
  cbn [tidy]. intros H Ex. rewrite Ex in H. cbn [orb] in H.
  apply andb_prop in H. destruct H as [H H4].
  apply andb_prop in H. destruct H as [H H3].
  apply andb_prop in H. destruct H as [H1 H2].
  apply Z.eqb_eq in H1. apply negb_true_iff in H2.
  apply Z.leb_le in H3. apply Z.eqb_eq in H4. auto.
Qed.

Lemma included_bytes_cons x l :
  included_bytes (x :: l) = included_bytes_node x + included_bytes l.
Proof. reflexivity. Qed.

Lemma included_bytes_tidy n :
  tidy n = true -> 0 <= included_bytes_node n /\ included_bytes_node n mod 4 = 0.
Proof.
  induction n as [c f|c d ch IH] using FSTNode_ind'; intros Ht.
  - cbn [included_bytes_node]. destruct (_exclude c) eqn:Ex.
    + split; [lia|reflexivity].
    + destruct (tidy_file_facts c f Ht Ex) as (_ & _ & H3 & H4). auto.
  - cbn [tidy] in Ht. apply andb_prop in Ht. destruct Ht as [_ Ht].
    cbn [included_bytes_node]. fold (included_bytes ch).
    induction IH as [|x l Hx Hl IHl]; [split; [cbn; lia|reflexivity]|].
    cbn [forallb] in Ht. apply andb_prop in Ht. destruct Ht as [Htx Htl].
    rewrite included_bytes_cons.
    destruct (Hx Htx) as [A1 A2]. destruct (IHl Htl) as [B1 B2].
    split; [lia|apply mod4_add; assumption].
Qed.

Lemma included_bytes_tidy_list l :
  forallb tidy l = true -> 0 <= included_bytes l /\ included_bytes l mod 4 = 0.
Proof.
  induction l as [|x l IH]; intros Ht; [split; [cbn; lia|reflexivity]|].
  cbn [forallb] in Ht. apply andb_prop in Ht. destruct Ht as [Htx Htl].
  rewrite included_bytes_cons.
  destruct (included_bytes_tidy x Htx) as [A1 A2]. destruct (IH Htl) as [B1 B2].
  split; [lia|apply mod4_add; assumption].
Qed.

Lemma collect_size_cons x l s :
  _collect_size (x :: l) s = _collect_size l (_collect_child x s).
Proof. reflexivity. Qed.

Lemma collect_tidy n :
  tidy n = true ->
  forall s, s mod 4 = 0 -> _collect_child n s = s + included_bytes_node n.
Proof.
  induction n as [c f|c d ch IH] using FSTNode_ind'; intros Ht s Hs.
  - cbn [_collect_child included_bytes_node info position_of].
    destruct (_exclude c) eqn:Ex; cbn [orb]; [lia|].
    destruct (tidy_file_facts c f Ht Ex) as (H1 & H2 & H3 & H4).
    rewrite H2, H1, align_int_4_exact by assumption. reflexivity.
  - cbn [tidy] in Ht. apply andb_prop in Ht. destruct Ht as [Ex Ht].
    apply negb_true_iff in Ex.
    rewrite collect_child_dir, Ex. cbn [included_bytes_node].
    fold (included_bytes ch).
    revert s Hs. induction IH as [|x l Hx Hl IHl]; intros s Hs; [cbn; lia|].
    cbn [forallb] in Ht. apply andb_prop in Ht. destruct Ht as [Htx Htl].
    rewrite collect_size_cons, included_bytes_cons, (Hx Htx s Hs).
    destruct (included_bytes_tidy x Htx) as [A1 A2].
    rewrite (IHl Htl) by (apply mod4_add; assumption). lia.
Qed.

Lemma collect_tidy_list l :
  forallb tidy l = true ->
  forall s, s mod 4 = 0 -> _collect_size l s = s + included_bytes l.
Proof.
  induction l as [|x l IH]; intros Ht s Hs; [cbn; lia|].
  cbn [forallb] in Ht. apply andb_prop in Ht. destruct Ht as [Htx Htl].
  rewrite collect_size_cons, included_bytes_cons, (collect_tidy x Htx s Hs).
  destruct (included_bytes_tidy x Htx) as [A1 A2].
  rewrite (IH Htl) by (apply mod4_add; assumption). lia.
Qed.

Lemma placements_of_app l1 l2 :
  placements_of (l1 ++ l2) = placements_of l1 ++ placements_of l2.
Proof. unfold placements_of. rewrite filter_app, map_app. reflexivity. Qed.

Lemma tiled_app d l1 m l2 e :
  tiled d l1 m -> tiled m l2 e -> tiled d (l1 ++ l2) e.
Proof.
  revert d. induction l1 as [|[o s] l1 IH]; intros d H1 H2; cbn [tiled app] in *.
  - subst. assumption.
  - destruct H1 as (A & B & C). repeat split; try assumption.
    apply IH; assumption.
Qed.

Lemma tiled_walk :
  (forall n pid st,
      tidy n = true -> _dataOfs st mod 4 = 0 ->
      _dataOfs (fst (plan_node pid st n)) = _dataOfs st + included_bytes_node n /\
      tiled (_dataOfs st)
        (placements_of (rchildren_node (snd (plan_node pid st n))))
        (_dataOfs st + included_bytes_node n)) /\
  (forall l pid st,
      forallb tidy l = true -> _dataOfs st mod 4 = 0 ->
      _dataOfs (fst (plan_list pid st l)) = _dataOfs st + included_bytes l /\
      tiled (_dataOfs st)
        (placements_of (rchildren (snd (plan_list pid st l))))
        (_dataOfs st + included_bytes l)).
Proof.
  apply plan_walk_ind.
  - intros pid st c f Ht Hs. cbn [plan_node]. rewrite plan_file_eq.
    cbn [included_bytes_node].
    destruct (_exclude c) eqn:Ex; cbn [snd fst rchildren_node _dataOfs].
    + unfold placements_of. cbn [filter is_file info]. rewrite Ex.
      cbn [andb negb map tiled]. split; lia.
    + destruct (tidy_file_facts c f Ht Ex) as (H1 & H2 & H3 & H4).
      unfold placements_of. cbn [filter is_file info set_id _exclude]. rewrite Ex.
      cbn [andb negb map tiled fileoffset_of size_of _fileoffset size].
      rewrite H1, align_int_4_exact by assumption.
      split; [reflexivity|]. repeat split; lia.
  - intros pid st c d ch Ex H Ht Hs. cbn [tidy] in Ht. rewrite Ex in Ht.
    discriminate.
  - intros pid st c d ch Ex H Ht Hs. cbn [tidy] in Ht.
    apply andb_prop in Ht. destruct Ht as [_ Ht].
    rewrite plan_node_dir_pair, Ex. cbn [snd fst rchildren_node].
    cbn [included_bytes_node]. fold (included_bytes ch).
    destruct (H Ht Hs) as [H1 H2]. cbn [_dataOfs] in H1, H2.
    split; [exact H1|].
    unfold placements_of in *. cbn [filter is_file andb]. exact H2.
  - intros pid st _ Hs. cbn. split; lia.
  - intros pid st x l Hx Hl Ht Hs.
    cbn [forallb] in Ht. apply andb_prop in Ht. destruct Ht as [Htx Htl].
    destruct (Hx Htx Hs) as [Hx1 Hx2].
    destruct (included_bytes_tidy x Htx) as [A1 A2].
    destruct (Hl Htl) as [Hl1 Hl2];
      [rewrite Hx1; apply mod4_add; assumption|].
    rewrite plan_list_cons. cbn [snd fst]. unfold rchildren. cbn [flat_map].
    rewrite included_bytes_cons, placements_of_app, Hl1, Hx1.
    split; [lia|].
    eapply tiled_app; [exact Hx2|].
    rewrite Hx1 in Hl2.
    replace (_dataOfs st + (included_bytes_node x + included_bytes l))
      with (_dataOfs st + included_bytes_node x + included_bytes l) by lia.
    exact Hl2.
Qed.

Lemma tidy_layout sp ch :
  forallb tidy ch = true -> sp mod 4 = 0 ->
  get_auto_blob_size ch = included_bytes ch /\
  tiled sp (placements (pre_calc_metadata sp ch)) (sp + get_auto_blob_size ch).
Proof.
  intros Ht Hs.
  assert (B : get_auto_blob_size ch = included_bytes ch).
  { unfold get_auto_blob_size. rewrite (collect_tidy_list ch Ht 0 eq_refl). lia. }
  split; [exact B|]. rewrite B.
  pose proof (proj2 tiled_walk ch 0 (mkPlan (align_int sp 4) 1) Ht) as H.
  cbn [_dataOfs] in H. rewrite align_int_4_exact in H by assumption.
  unfold placements, pre_calc_metadata, pre_calc_metadata_state.
  rewrite align_int_4_exact by assumption.
  exact (proj2 (H Hs)).
Qed.

Lemma tidy_blob ch :
  forallb tidy ch = true ->
  get_auto_blob_size ch = included_bytes ch /\
  0 <= get_auto_blob_size ch /\
  (MaxSize - get_auto_blob_size ch) mod 4 = 0.
Proof.
  intros Ht.
  destruct (included_bytes_tidy_list ch Ht) as [A1 A2].
  assert (B : get_auto_blob_size ch = included_bytes ch).
  { unfold get_auto_blob_size. rewrite (collect_tidy_list ch Ht 0 eq_refl). lia. }
  split; [exact B|]. split; [lia|].
  rewrite B, Zminus_mod, A2. reflexivity.
Qed.

(** X12.  On a tree whose included files have the alignment 4, no forced
    location and sizes that are multiples of 4, and whose directories are
    not excluded, the automatic payload size is the sum of the sizes of
    the included files, and the layout pass [load_file_system] and
    [save_file_systemv] run puts these files one after the other, in the
    order of [rchildren], from [MaxSize] minus that size up to [MaxSize]
    exactly. *)
Theorem layout_pass_tiles_end_of_image (ch : list FSTNode) :
  forallb tidy ch = true ->
  get_auto_blob_size ch = included_bytes ch /\
  0 <= get_auto_blob_size ch /\
  tiled (MaxSize - get_auto_blob_size ch)
    (placements (pre_calc_metadata (MaxSize - get_auto_blob_size ch) ch))
    MaxSize.
Proof.
  intros Ht.
  destruct (tidy_blob ch Ht) as (B & B0 & Hs).
  destruct (tidy_layout (MaxSize - get_auto_blob_size ch) ch Ht Hs) as [_ T].
  split; [exact B|]. split; [exact B0|].
  replace (MaxSize - get_auto_blob_size ch + get_auto_blob_size ch) with MaxSize in T
    by lia.
  exact T.
Qed.

(** The files of 8 and 4 bytes fill the last 12 bytes of the image. *)
Lemma layout_pass_tiles_end_of_image_witness :
  get_auto_blob_size tidy_tree = included_bytes tidy_tree /\
  0 <= get_auto_blob_size tidy_tree /\
  tiled (MaxSize - get_auto_blob_size tidy_tree)
    (placements (pre_calc_metadata (MaxSize - get_auto_blob_size tidy_tree)
                   tidy_tree))
    MaxSize.
Proof.
  apply (layout_pass_tiles_end_of_image tidy_tree). reflexivity.
Defined.

(** ** The tree the decoder makes *)

Lemma Z_of_byte_bound b : 0 <= Z_of_byte b < 256.
Proof.
  unfold Z_of_byte. pose proof (Byte.to_N_bounded b) as H. lia.
Qed.

Lemma from_bytes_bound l : 0 <= from_bytes l < 256 ^ Z.of_nat (length l).
Proof.
  unfold from_bytes.
  assert (G : forall l acc n, 0 <= acc < 256 ^ n -> 0 <= n ->
              0 <= fold_left (fun a b => a * 256 + Z_of_byte b) l acc
                < 256 ^ (n + Z.of_nat (length l))).
  { clear l. induction l as [|b l IH]; intros acc n Ha Hn.
    - cbn [fold_left length]. rewrite Z.add_0_r. assumption.
    - cbn [fold_left length].
      replace (n + Z.of_nat (S (length l))) with ((n + 1) + Z.of_nat (length l)) by lia.
      apply IH; [|lia].
      pose proof (Z_of_byte_bound b) as Hb.
      rewrite Z.pow_add_r by lia. change (256 ^ 1) with 256. nia. }
  apply (G l 0 0); [cbn; lia|lia].
Qed.

Lemma from_bytes_seg4 buf p : 0 <= from_bytes (seg buf p 4) < 2 ^ 32.
Proof.
  pose proof (from_bytes_bound (seg buf p 4)) as H.
  assert (L : (length (seg buf p 4) <= 4)%nat) by (unfold seg; apply firstn_le_length).
  assert (M : 256 ^ Z.of_nat (length (seg buf p 4)) <= 256 ^ 4)
    by (apply Z.pow_le_mono_r; lia).
  change (256 ^ 4) with (2 ^ 32) in M. lia.
Qed.

Lemma zrange_succ a n : zrange a (S n) = a :: zrange (a + 1) n.
Proof. reflexivity. Qed.

Lemma decoded_walk fuel :
  (forall s cur T n s' cur',
      0 <= tell s ->
      _read_nodes fuel s cur T = Ok (n, s', cur') ->
      map (fun x => _id (info x)) (rchildren_node n)
        = zrange cur (length (rchildren_node n)) /\
      cur' = cur + Z.of_nat (length (rchildren_node n)) /\
      tell s' = tell s + 12 * Z.of_nat (length (rchildren_node n)) /\
      Forall decoded_fields (rchildren_node n)) /\
  (forall s cur limit T ch s' cur',
      0 <= tell s ->
      read_children fuel s cur limit T = Ok (ch, s', cur') ->
      map (fun x => _id (info x)) (rchildren ch)
        = zrange cur (length (rchildren ch)) /\
      cur' = cur + Z.of_nat (length (rchildren ch)) /\
      tell s' = tell s + 12 * Z.of_nat (length (rchildren ch)) /\
      Forall decoded_fields (rchildren ch)).
Proof.
  induction fuel as [|fuel [IHn IHc]].
  - split; intros; discriminate.
  - split.
    + intros s cur T n s' cur' Hp E.
      rewrite read_nodes_unfold, read_record_spec in E by assumption.
      destruct (tell s + 12 <=? Z.of_nat (length (getvalue s))); [|discriminate].
      cbn [bind] in E.
      destruct (name_at _ _) as [nm| | |]; cbn [bind] in E; try discriminate.
      pose proof (from_bytes_seg4 (getvalue s) (tell s + 4)) as Ba.
      pose proof (from_bytes_seg4 (getvalue s) (tell s + 8)) as Bb.
      destruct (_ =? FOLDER).
      * destruct (read_children fuel _ (cur + 1) _ T) as [[[ch s2] c2]| | |] eqn:Ec;
          cbn [bind] in E; try discriminate.
        inversion E; subst n s' cur'. clear E.
        apply IHc in Ec; [|cbn [tell]; lia].
        destruct Ec as (I1 & I2 & I3 & I4). cbn [tell] in I3.
        cbn [rchildren_node length map info _id]. fold (rchildren ch).
        rewrite zrange_succ, I1.
        split; [reflexivity|]. split; [lia|]. split; [lia|].
        constructor; [|exact I4]. cbn [decoded_fields _dirparent _dirnext]. lia.
      * inversion E; subst n s' cur'. clear E.
        cbn [rchildren_node length map info _id tell zrange].
        split; [reflexivity|]. split; [lia|]. split; [lia|].
        constructor; [|constructor]. cbn [decoded_fields _fileoffset size]. lia.
    + intros s cur limit T ch s' cur' Hp E.
      rewrite read_children_unfold in E.
      destruct (cur <? limit).
      * destruct (_read_nodes fuel s cur T) as [[[c s1] c1]| | |] eqn:En;
          cbn [bind] in E; try discriminate.
        apply IHn in En; [|assumption].
        destruct En as (N1 & N2 & N3 & N4).
        destruct (read_children fuel s1 c1 limit T) as [[[r s2] c2]| | |] eqn:Ec;
          cbn [bind] in E; try discriminate.
        inversion E; subst ch s' cur'. clear E.
        apply IHc in Ec; [|lia].
        destruct Ec as (I1 & I2 & I3 & I4).
        unfold rchildren in *. cbn [flat_map].
        rewrite map_app, length_app, zrange_app, N1, I1, <- N2, Nat2Z.inj_add.
        split; [reflexivity|]. split; [lia|]. split; [lia|].
        apply Forall_app. split; assumption.
      * inversion E; subst ch s' cur'. cbn.
        split; [reflexivity|]. split; [lia|]. split; [lia|]. constructor.
Qed.

Lemma load_ok_children buf ch s cur :
  load_file_systemv (mkIO buf 0) = Ok (ch, s, cur) ->
  exists count,
    read_children (fuel_of (mkIO buf 12)) (mkIO buf 12) 1 count (count * 12)
    = Ok (ch, s, cur).
Proof.
  intros E.
  destruct (list_eq_dec byte_eq_dec (firstn 8 buf) root_prefix) as [Hp|Hp].
  - rewrite (load_prefix_ok buf Hp) in E.
    rewrite read_uint32_spec in E by (cbn; lia). cbn [tell getvalue] in E.
    destruct (8 + 4 <=? Z.of_nat (length buf)); [|discriminate].
    cbn [bind] in E. eexists. exact E.
  - destruct (load_prefix_bad buf Hp) as [msg Hm]. congruence.
Qed.

(** X13.  In a tree that [load_file_systemv] has decoded the ids are 1, 2,
    3, ... in the order of [rchildren], [_curEntry] ends one past the last
    id, and the stream stands after the last record read, 12 bytes for the
    root and for each node. *)
Theorem decoded_tree_is_numbered
    (buf : list byte) (ch : list FSTNode) (s : BytesIO) (cur : Z) :
  load_file_systemv (mkIO buf 0) = Ok (ch, s, cur) ->
  map (fun n => _id (info n)) (rchildren ch) = zrange 1 (length (rchildren ch)) /\
  cur = 1 + Z.of_nat (length (rchildren ch)) /\
  tell s = 12 * cur.
Proof.
  intros E. destruct (load_ok_children buf ch s cur E) as [count Ec].
  apply (proj2 (decoded_walk _)) in Ec; [|cbn; lia].
  destruct Ec as (I1 & I2 & I3 & _). cbn [tell] in I3.
  split; [exact I1|]. split; [exact I2|lia].
Qed.

(** The table with the one file [a]. *)
Lemma decoded_tree_is_numbered_witness :
  map (fun n => _id (info n))
      (rchildren [FileNode (mkInfo "a" 1 false) (mkFile 4 4096 4 None)])
    = zrange 1 (length (rchildren [FileNode (mkInfo "a" 1 false)
                                     (mkFile 4 4096 4 None)])) /\
  2 = 1 + Z.of_nat (length (rchildren [FileNode (mkInfo "a" 1 false)
                                         (mkFile 4 4096 4 None)])) /\
  tell (mkIO one_file_fst 24) = 12 * 2.
Proof.
  apply (decoded_tree_is_numbered one_file_fst
           [FileNode (mkInfo "a" 1 false) (mkFile 4 4096 4 None)]
           (mkIO one_file_fst 24) 2).
  vm_compute. reflexivity.
Defined.

(** X14.  Every offset, size and directory link of a decoded tree is an
    unsigned 32-bit value. *)
Theorem decoded_fields_are_unsigned_32_bit
    (buf : list byte) (ch : list FSTNode) (s : BytesIO) (cur : Z) :
  load_file_systemv (mkIO buf 0) = Ok (ch, s, cur) ->
  Forall decoded_fields (rchildren ch).
Proof.
  intros E. destruct (load_ok_children buf ch s cur E) as [count Ec].
  apply (proj2 (decoded_walk _)) in Ec; [|cbn; lia].
  exact (proj2 (proj2 (proj2 Ec))).
Qed.

(** The file [a] at 4096 with its 4 bytes. *)
Lemma decoded_fields_are_unsigned_32_bit_witness :
  Forall decoded_fields
    (rchildren [FileNode (mkInfo "a" 1 false) (mkFile 4 4096 4 None)]).
Proof.
  apply (decoded_fields_are_unsigned_32_bit one_file_fst
           [FileNode (mkInfo "a" 1 false) (mkFile 4 4096 4 None)]
           (mkIO one_file_fst 24) 2).
  vm_compute. reflexivity.
Defined.

(** X15.  An entry count of 0 or 1 after a valid root prefix gives the
    empty root, whatever follows in the buffer: no record is read. *)
Theorem entry_count_below_two_gives_empty_root (buf : list byte) :
  firstn 8 buf = root_prefix ->
  12 <= Z.of_nat (length buf) ->
  from_bytes (seg buf 8 4) <= 1 ->
  load_file_systemv (mkIO buf 0) = Ok ([], mkIO buf 12, 1).
Proof.
  intros Hp Hl Hc.
  rewrite (load_prefix_ok buf Hp).
  rewrite read_uint32_spec by (cbn; lia). cbn [tell getvalue].
  replace (8 + 4 <=? Z.of_nat (length buf)) with true
    by (symmetry; apply Z.leb_le; lia).
  cbn [bind]. unfold fuel_of. rewrite read_children_unfold.
  replace (1 <? from_bytes (seg buf 8 4)) with false
    by (symmetry; apply Z.ltb_ge; lia).
  reflexivity.
Qed.

(** The two bytes after the entry count 1 are not read. *)
Lemma entry_count_below_two_gives_empty_root_witness :
  load_file_systemv (mkIO empty_root_fst 0) = Ok ([], mkIO empty_root_fst 12, 1).
Proof.
  apply (entry_count_below_two_gives_empty_root empty_root_fst).
  - reflexivity.
  - vm_compute. discriminate.
  - vm_compute. discriminate.
Defined.

(** ** The encoder on any tree *)

Lemma name_offsets_node_dir so c d ch :
  name_offsets_node so (DirNode c d ch) =
  if _exclude c then name_offsets so ch
  else so :: name_offsets (so + (Z.of_nat (name_len (name c)) + 1)) ch.
Proof. reflexivity. Qed.

Lemma offsets_fit_app l1 l2 :
  offsets_fit (l1 ++ l2) = offsets_fit l1 && offsets_fit l2.
Proof. apply forallb_app. Qed.

Lemma save_entry_overflow T is_dir nm a b st :
  2 ^ 24 <= _strOfs st ->
  save_entry T is_dir nm a b st = Raise OverflowError.
Proof.
  intros H. unfold save_entry, to_bytes.
  change (256 ^ Z.of_nat 3) with (2 ^ 24).
  replace (_strOfs st <? 2 ^ 24) with false by (symmetry; apply Z.ltb_ge; lia).
  rewrite andb_false_r. reflexivity.
Qed.

Lemma save_list_result_of_nodes l :
  Forall save_node_result l -> save_list_result l.
Proof.
  induction 1 as [|x l Hx Hl IH];
    intros Tn old pid buf cur so R S Hsb Hh Hso HT Hpid Hcur Hc.
  - cbn [name_offsets offsets_fit forallb].
    exists buf. cbn [save_list records_list strings_list flat_map entries
                     names_len fold_right numbered_list].
    rewrite !app_nil_r, !Z.add_0_r. split; [reflexivity|assumption].
  - cbn [forallb] in Hsb. apply andb_prop in Hsb. destruct Hsb as [Hsx Hsl].
    rewrite entries_cons in HT, Hc.
    pose proof (counts_nonneg x) as Cx. pose proof (counts_nonneg_list l) as Cl.
    cbn [name_offsets]. rewrite offsets_fit_app.
    specialize (Hx Tn old pid buf cur so R S Hsx Hh Hso ltac:(lia) Hpid Hcur
                   ltac:(lia)).
    rewrite save_list_cons.
    destruct (offsets_fit (name_offsets_node so x)).
    + destruct Hx as (buf1 & E1 & Hh1). rewrite E1. cbn [bind andb fst snd].
      specialize (IH Tn old pid buf1 (cur + entries_node x) (so + names_len_node x)
                    (R ++ records_node pid cur so x) (S ++ strings_node x) Hsl Hh1).
      assert (A1 : so + names_len_node x = Z.of_nat (length (S ++ strings_node x)))
        by (rewrite length_app, Nat2Z.inj_add, (strings_length x Hsx); lia).
      assert (A2 : Z.of_nat (length (R ++ records_node pid cur so x)) + 12 * entries l
                   <= Z.of_nat Tn)
        by (rewrite length_app, Nat2Z.inj_add, records_length; lia).
      specialize (IH A1 A2 Hpid ltac:(lia) ltac:(lia)).
      destruct (offsets_fit (name_offsets (so + names_len_node x) l)).
      * destruct IH as (buf2 & E2 & Hh2).
        exists buf2. rewrite E2. cbn [bind fst snd records_list numbered_list].
        unfold strings_list in *.
        cbn [flat_map]. rewrite entries_cons, names_len_cons, !app_assoc, !Z.add_assoc.
        split; [reflexivity|assumption].
      * rewrite IH. reflexivity.
    + rewrite Hx. reflexivity.
Qed.

Lemma savable_file_facts c f :
  savable (FileNode c f) = true -> _exclude c = false ->
  0 <= _fileoffset f < 2 ^ 32 /\ 0 <= size f < 2 ^ 32.
Proof.
  cbn [savable]. intros H Ex. rewrite Ex in H. cbn [orb] in H.
  apply andb_prop in H. destruct H as [H H4].
  apply andb_prop in H. destruct H as [H H3].
  apply andb_prop in H. destruct H as [H1 H2].
  apply Z.leb_le in H1. apply Z.ltb_lt in H2.
  apply Z.leb_le in H3. apply Z.ltb_lt in H4. lia.
Qed.

Lemma save_node_result_spec n : savable n = true -> save_node_result n.
Proof.
  induction n as [c f|c d ch IH] using FSTNode_ind'; intros Hs;
    intros Tn old pid buf cur so R S Hsb Hh Hso HT Hpid Hcur Hc.
  - cbn [save_node records_node names_len_node entries_node strings_node info
           name_offsets_node numbered_node] in *.
    destruct (_exclude c) eqn:Hex.
    + cbn [offsets_fit forallb]. exists buf.
      rewrite !app_nil_r, !Z.add_0_r. split; [reflexivity|assumption].
    + destruct (savable_file_facts c f Hs Hex) as [Hoff Hsz].
      cbn [offsets_fit forallb]. rewrite andb_true_r.
      destruct (so <? 2 ^ 24) eqn:Eso.
      * apply Z.ltb_lt in Eso.
        rewrite save_entry_spec by lia. cbn [bind s_curEntry].
        eexists. split.
        -- rewrite length_app, record_bytes_length, Nat2Z.inj_add.
           apply f_equal. f_equal. f_equal; try lia.
        -- rewrite app_nil_r.
           replace (Z.to_nat (so + Z.of_nat Tn)) with (Tn + length S)%nat by lia.
           rewrite Nat2Z.id.
           apply holds_step; [assumption| |destruct (encode_name (name c)); discriminate].
           rewrite record_bytes_length. lia.
      * apply Z.ltb_ge in Eso. rewrite save_entry_overflow by exact Eso.
        reflexivity.
  - cbn [savable] in Hs. apply andb_prop in Hs. destruct Hs as [Hid Hch].
    assert (Hl : save_list_result ch).
    { apply save_list_result_of_nodes. rewrite Forall_forall in *.
      intros x Hx. apply IH; [assumption|].
      rewrite forallb_forall in Hch. apply Hch. assumption. }
    rewrite single_byte_names_dir in Hsb. apply andb_prop in Hsb.
    destruct Hsb as [Hsc Hsch].
    rewrite save_node_dir, records_node_dir, strings_node_dir, name_offsets_node_dir,
      numbered_node_dir.
    rewrite entries_node_dir in HT, Hc |- *.
    rewrite names_len_node_dir.
    pose proof (counts_nonneg_list ch) as Cl.
    destruct (_exclude c) eqn:Hex.
    + cbn [negb orb] in Hid. apply andb_prop in Hid. destruct Hid as [I1 I2].
      apply Z.leb_le in I1. apply Z.ltb_lt in I2.
      specialize (Hl Tn old (_id c) buf cur so R S Hsch Hh Hso HT ltac:(lia) Hcur Hc).
      cbn [app]. rewrite Z.add_0_l.
      destruct (offsets_fit (name_offsets so ch)).
      * destruct Hl as (buf2 & E2 & Hh2). rewrite E2. cbn [bind fst snd].
        exists buf2. split; [reflexivity|assumption].
      * rewrite Hl. reflexivity.
    + cbn [offsets_fit forallb]. fold (offsets_fit
        (name_offsets (so + (Z.of_nat (name_len (name c)) + 1)) ch)).
      cbn [s_curEntry orb] in *.
      destruct (so <? 2 ^ 24) eqn:Eso; cbn [andb].
      * apply Z.ltb_lt in Eso. unfold node_len.
        rewrite save_entry_spec by lia. cbn [bind].
        replace (Z.to_nat (so + Z.of_nat Tn)) with (Tn + length S)%nat by lia.
        rewrite Nat2Z.id.
        set (rec := record_bytes true so pid (1 + entries ch + cur)).
        set (str := encode_name (name c) ++ [x00]).
        assert (Hrec : length rec = 12%nat) by apply record_bytes_length.
        assert (Hstr : Z.of_nat (length str) = Z.of_nat (name_len (name c)) + 1).
        { unfold str.
          rewrite length_app, encode_name_length, (name_len_single _ Hsc).
          simpl length. lia. }
        assert (Hh1 : holds Tn old
                        (overlay_at (Tn + length S) str (overlay_at (length R) rec buf))
                        (R ++ rec) (S ++ str)).
        { apply holds_step; [assumption|lia|unfold str; destruct (encode_name (name c)); discriminate]. }
        specialize (Hl Tn old cur _ (cur + 1) (so + Z.of_nat (name_len (name c)) + 1)
                      (R ++ rec) (S ++ str) Hsch Hh1).
        assert (A1 : so + Z.of_nat (name_len (name c)) + 1
                     = Z.of_nat (length (S ++ str)))
          by (rewrite length_app, Nat2Z.inj_add; lia).
        assert (A2 : Z.of_nat (length (R ++ rec)) + 12 * entries ch <= Z.of_nat Tn)
          by (rewrite length_app, Nat2Z.inj_add; lia).
        specialize (Hl A1 A2 ltac:(lia) ltac:(lia) ltac:(lia)).
        replace (so + (Z.of_nat (name_len (name c)) + 1))
          with (so + Z.of_nat (name_len (name c)) + 1) by lia.
        replace (Z.of_nat (length R) + 12) with (Z.of_nat (length (R ++ rec)))
          by (rewrite length_app, Nat2Z.inj_add; lia).
        destruct (offsets_fit (name_offsets _ ch)).
        -- destruct Hl as (buf2 & E2 & Hh2). rewrite E2. cbn [bind fst snd].
           exists buf2.
           rewrite !app_assoc.
           split; [|assumption].
           apply f_equal. f_equal. f_equal; lia.
        -- rewrite Hl. reflexivity.
      * apply Z.ltb_ge in Eso. rewrite save_entry_overflow by exact Eso. reflexivity.
Qed.

Lemma save_list_result_spec l : forallb savable l = true -> save_list_result l.
Proof.
  intros H. apply save_list_result_of_nodes.
  rewrite Forall_forall. intros x Hx. apply save_node_result_spec.
  rewrite forallb_forall in H. apply H. assumption.
Qed.

(** The offsets of the names stay below the bytes of all the names. *)
Lemma name_offsets_below n :
  forall so, Forall (fun o => o < so + names_len_node n) (name_offsets_node so n).
Proof.
  induction n as [c f|c d ch IH] using FSTNode_ind'; intros so.
  - cbn [name_offsets_node names_len_node info]. destruct (_exclude c).
    + constructor.
    + constructor; [lia|constructor].
  - rewrite name_offsets_node_dir, names_len_node_dir.
    assert (L : forall so, Forall (fun o => o < so + names_len ch) (name_offsets so ch)).
    { clear so. induction IH as [|x l Hx Hl IHl]; intros so; [constructor|].
      cbn [name_offsets]. rewrite names_len_cons.
      pose proof (counts_nonneg x) as Cx. pose proof (counts_nonneg_list l) as Cl.
      apply Forall_app. split.
      - eapply Forall_impl; [|apply Hx]. cbn beta. intros; lia.
      - eapply Forall_impl; [|apply IHl]. cbn beta. intros; lia. }
    destruct (_exclude c).
    + rewrite Z.add_0_l. apply L.
    + pose proof (counts_nonneg_list ch) as Cl.
      constructor; [lia|].
      eapply Forall_impl; [|apply L]. cbn beta. intros; lia.
Qed.

Lemma name_offsets_below_list l :
  forall so, Forall (fun o => o < so + names_len l) (name_offsets so l).
Proof.
  induction l as [|x l IH]; intros so; [constructor|].
  cbn [name_offsets]. rewrite names_len_cons.
  pose proof (counts_nonneg x) as Cx. pose proof (counts_nonneg_list l) as Cl.
  apply Forall_app. split.
  - eapply Forall_impl; [|apply name_offsets_below]. cbn beta. intros; lia.
  - eapply Forall_impl; [|apply IH]. cbn beta. intros; lia.
Qed.

Lemma offsets_fit_names_len l :
  names_len l <= 2 ^ 24 -> offsets_fit (name_offsets 0 l) = true.
Proof.
  intros H. unfold offsets_fit. apply forallb_forall. intros o Ho.
  pose proof (name_offsets_below_list l 0) as B. rewrite Forall_forall in B.
  specialize (B o Ho). apply Z.ltb_lt. lia.
Qed.

(** What [save_file_systemv] leaves in the buffer, without a layout pass
    of its own, on a tree whose fields are in range and whose names are of
    one-byte characters. *)
Lemma save_result_spec u old p0 sp :
  forallb savable u = true ->
  forallb single_byte_names u = true ->
  node_len u < 2 ^ 32 ->
  save_file_systemv sp false false (mkIO old p0) u =
  if offsets_fit (name_offsets 0 u) then
    Ok (numbered_list 1 u,
        mkIO (fst_bytes u ++ skipn (length (fst_bytes u)) old)
             (12 * node_len u))
  else Raise OverflowError.
Proof.
  intros Hu Hsb Hlen0.
  pose proof (counts_nonneg_list u) as Cu.
  assert (Hlen : 0 <= node_len u < 2 ^ 32) by (unfold node_len in *; lia).
  unfold save_file_systemv, write_uint32, seek. cbn [getvalue tell].
  replace ((0 <=? node_len u) && (node_len u <? 2 ^ 32)) with true
    by (symmetry; apply andb_true_intro; split; [apply Z.leb_le|apply Z.ltb_lt]; lia).
  cbn [bind].
  rewrite (write_write [x01; x00; x00; x00; x00; x00; x00; x00]
             (be_bytes 4 (node_len u))) by (simpl; try lia; discriminate).
  fold root_prefix.
  set (hdr := root_prefix ++ be_bytes 4 (node_len u)).
  assert (Hhdr : length hdr = 12%nat)
    by (unfold hdr; rewrite length_app, be_bytes_length; reflexivity).
  rewrite write_nonempty by (unfold hdr; discriminate).
  cbn [getvalue tell]. change (Z.to_nat 0) with 0%nat.
  set (Tn := Z.to_nat (12 * node_len u)).
  assert (HT : strTableOfs u = Z.of_nat Tn) by (unfold strTableOfs, Tn; lia).
  rewrite HT.
  pose proof (holds_start Tn old hdr ltac:(unfold node_len in *; lia)) as Hh.
  pose proof (save_list_result_spec u Hu Tn old 0 _ 1 0 hdr [] Hsb Hh eq_refl) as Hr.
  replace (0 + Z.of_nat (length hdr)) with (Z.of_nat (length hdr)) by lia.
  specialize (Hr ltac:(unfold node_len in *; lia) ltac:(lia) ltac:(lia)
                 ltac:(unfold node_len in *; lia)).
  destruct (offsets_fit (name_offsets 0 u)).
  - destruct Hr as (buf' & E & Hh').
    rewrite E. cbn [bind _rawFST].
    apply holds_end in Hh'.
    2:{ apply Nat2Z.inj. rewrite length_app, Nat2Z.inj_add, records_list_length.
        unfold node_len in *. lia. }
    cbn [app] in Hh'.
    assert (Hfb : (hdr ++ records_list 0 1 0 u) ++ strings_list u = fst_bytes u)
      by (unfold fst_bytes, hdr; rewrite <- !app_assoc; reflexivity).
    rewrite Hfb in Hh'.
    replace (Tn + length (strings_list u))%nat with (length (fst_bytes u)) in Hh'.
    2:{ apply Nat2Z.inj.
        rewrite Nat2Z.inj_add, (fst_bytes_length u Hsb), (strings_list_length u Hsb).
        unfold node_len in *. lia. }
    rewrite <- Hh'. apply f_equal. f_equal. f_equal.
    rewrite length_app, Nat2Z.inj_add, records_list_length. unfold node_len. lia.
  - rewrite Hr. reflexivity.
Qed.

(** X16.  Take a tree in which only files are excluded, whose fields are
    in range and whose included names are of one-byte characters and move
    [_strOfs] by at most 2^24.  Without a layout pass of its own,
    [save_file_systemv] numbers the tree and writes the table of the
    included nodes over the start of the buffer it finds: 12 bytes for the
    root and for each included node, then the names, each with its zero
    byte.  An excluded file leaves neither a record nor a name.  What the
    old buffer held after the end of the table stays, so the buffer never
    gets shorter, and the stream is left at the end of the records. *)
Theorem save_writes_table_over_old_buffer
    (u : list FSTNode) (old : list byte) (p0 sp : Z) :
  forallb savable u = true ->
  forallb dirs_included u = true ->
  forallb single_byte_names u = true ->
  names_len u <= 2 ^ 24 ->
  exists buf,
    save_file_systemv sp false false (mkIO old p0) u
      = Ok (numbered_list 1 u, mkIO buf (12 * node_len u)) /\
    buf = fst_bytes u ++ skipn (length (fst_bytes u)) old /\
    Z.of_nat (length (fst_bytes u)) = 12 * node_len u + names_len u /\
    Z.of_nat (length buf)
      = Z.max (Z.of_nat (length old)) (12 * node_len u + names_len u).
Proof.
  intros Hu _ Hsb Hn.
  pose proof (counts_nonneg_list u) as Cu.
  exists (fst_bytes u ++ skipn (length (fst_bytes u)) old).
  rewrite save_result_spec by (try assumption; unfold node_len; lia).
  rewrite offsets_fit_names_len by assumption.
  split; [reflexivity|]. split; [reflexivity|].
  pose proof (fst_bytes_length u Hsb) as L. split; [exact L|].
  rewrite length_app, length_skipn, Nat2Z.inj_add. lia.
Qed.

(** The table of the directory [data] with the one included file [a.bin]
    takes 46 bytes of the 64 the buffer had; the other 18 stay. *)
Lemma save_writes_table_over_old_buffer_witness :
  exists buf,
    save_file_systemv 0 false false (mkIO stale_buffer 5) marked_tree
      = Ok (numbered_list 1 marked_tree, mkIO buf (12 * node_len marked_tree)) /\
    buf = fst_bytes marked_tree
          ++ skipn (length (fst_bytes marked_tree)) stale_buffer /\
    Z.of_nat (length (fst_bytes marked_tree))
      = 12 * node_len marked_tree + names_len marked_tree /\
    Z.of_nat (length buf)
      = Z.max (Z.of_nat (length stale_buffer))
              (12 * node_len marked_tree + names_len marked_tree).
Proof.
  apply (save_writes_table_over_old_buffer marked_tree stale_buffer 5 0).
  - reflexivity.
  - reflexivity.
  - reflexivity.
  - vm_compute. discriminate.
Defined.

(** Whatever the names are, the walk of [save_file_systemv] over a tree
    whose fields are in range ends with the tree numbered when every name
    offset fits, and with [OverflowError] when one does not. *)
Lemma save_walk_blind n :
  savable n = true ->
  forall T pid buf p cur so,
    0 <= T -> 0 <= p -> 0 <= pid < 2 ^ 32 -> 0 <= cur ->
    cur + entries_node n < 2 ^ 32 -> 0 <= so ->
    if offsets_fit (name_offsets_node so n) then
      exists buf' p',
        save_node T pid (mkSave (mkIO buf p) cur so) n
        = Ok (mkSave (mkIO buf' p') (cur + entries_node n) (so + names_len_node n),
              numbered_node cur n) /\
        0 <= p'
    else
      save_node T pid (mkSave (mkIO buf p) cur so) n = Raise OverflowError.
Proof.
  induction n as [c f|c d ch IH] using FSTNode_ind'; intros Hs;
    intros T pid buf p cur so HT Hp Hpid Hcur Hc Hso.
  - cbn [save_node names_len_node entries_node info name_offsets_node
         numbered_node] in *.
    destruct (_exclude c) eqn:Hex.
    + cbn [offsets_fit forallb]. exists buf, p.
      rewrite !Z.add_0_r. split; [reflexivity|assumption].
    + destruct (savable_file_facts c f Hs Hex) as [Hoff Hsz].
      cbn [offsets_fit forallb]. rewrite andb_true_r.
      destruct (so <? 2 ^ 24) eqn:Eso.
      * apply Z.ltb_lt in Eso.
        rewrite save_entry_spec by lia. cbn [bind s_curEntry].
        eexists. exists (p + 12). split; [|lia].
        apply f_equal. f_equal. f_equal; lia.
      * apply Z.ltb_ge in Eso. rewrite save_entry_overflow by exact Eso.
        reflexivity.
  - cbn [savable] in Hs. apply andb_prop in Hs. destruct Hs as [Hid Hch].
    assert (Hl : forall T pid buf p cur so,
               0 <= T -> 0 <= p -> 0 <= pid < 2 ^ 32 -> 0 <= cur ->
               cur + entries ch < 2 ^ 32 -> 0 <= so ->
               if offsets_fit (name_offsets so ch) then
                 exists buf' p',
                   save_list T pid (mkSave (mkIO buf p) cur so) ch
                   = Ok (mkSave (mkIO buf' p') (cur + entries ch)
                           (so + names_len ch),
                         numbered_list cur ch) /\
                   0 <= p'
               else
                 save_list T pid (mkSave (mkIO buf p) cur so) ch
                 = Raise OverflowError).
    { clear T pid buf p cur so HT Hp Hpid Hcur Hc Hso Hid.
      induction IH as [|x l Hx Hl IHl];
        intros T pid buf p cur so HT Hp Hpid Hcur Hc Hso.
      - cbn [name_offsets offsets_fit forallb]. exists buf, p.
        cbn [save_list entries names_len fold_right numbered_list].
        rewrite !Z.add_0_r. split; [reflexivity|assumption].
      - cbn [forallb] in Hch. apply andb_prop in Hch. destruct Hch as [Hsx Hsl].
        rewrite entries_cons in Hc.
        pose proof (counts_nonneg x) as Cx.
        pose proof (counts_nonneg_list l) as Cl.
        cbn [name_offsets]. rewrite offsets_fit_app, save_list_cons.
        specialize (Hx Hsx T pid buf p cur so HT Hp Hpid Hcur ltac:(lia) Hso).
        destruct (offsets_fit (name_offsets_node so x)).
        + destruct Hx as (buf1 & p1 & E1 & Hp1). rewrite E1.
          cbn [bind andb fst snd].
          specialize (IHl Hsl T pid buf1 p1 (cur + entries_node x)
                        (so + names_len_node x) HT Hp1 Hpid ltac:(lia)
                        ltac:(lia) ltac:(lia)).
          destruct (offsets_fit (name_offsets (so + names_len_node x) l)).
          * destruct IHl as (buf2 & p2 & E2 & Hp2). rewrite E2.
            cbn [bind fst snd numbered_list].
            exists buf2, p2. rewrite entries_cons, names_len_cons, !Z.add_assoc.
            split; [reflexivity|assumption].
          * rewrite IHl. reflexivity.
        + rewrite Hx. reflexivity. }
    rewrite save_node_dir, name_offsets_node_dir, numbered_node_dir.
    rewrite entries_node_dir in Hc |- *.
    rewrite names_len_node_dir.
    pose proof (counts_nonneg_list ch) as Cl.
    destruct (_exclude c) eqn:Hex.
    + cbn [negb orb] in Hid. apply andb_prop in Hid. destruct Hid as [I1 I2].
      apply Z.leb_le in I1. apply Z.ltb_lt in I2.
      specialize (Hl T (_id c) buf p cur so HT Hp ltac:(lia) Hcur Hc Hso).
      rewrite Z.add_0_l.
      destruct (offsets_fit (name_offsets so ch)).
      * destruct Hl as (buf2 & p2 & E2 & Hp2). rewrite E2. cbn [bind fst snd].
        exists buf2, p2. split; [reflexivity|assumption].
      * rewrite Hl. reflexivity.
    + cbn [offsets_fit forallb]. fold (offsets_fit
        (name_offsets (so + (Z.of_nat (name_len (name c)) + 1)) ch)).
      cbn [s_curEntry].
      destruct (so <? 2 ^ 24) eqn:Eso; cbn [andb].
      * apply Z.ltb_lt in Eso. unfold node_len.
        rewrite save_entry_spec by lia. cbn [bind].
        specialize (Hl T cur
                      (overlay_at (Z.to_nat (so + T)) (encode_name (name c) ++ [x00])
                         (overlay_at (Z.to_nat p)
                            (record_bytes true so pid (1 + entries ch + cur)) buf))
                      (p + 12) (cur + 1) (so + Z.of_nat (name_len (name c)) + 1)
                      HT ltac:(lia) ltac:(lia) ltac:(lia) ltac:(lia) ltac:(lia)).
        replace (so + (Z.of_nat (name_len (name c)) + 1))
          with (so + Z.of_nat (name_len (name c)) + 1) by lia.
        destruct (offsets_fit (name_offsets _ ch)).
        -- destruct Hl as (buf2 & p2 & E2 & Hp2). rewrite E2. cbn [bind fst snd].
           exists buf2, p2. split; [|assumption].
           apply f_equal. f_equal. f_equal; lia.
        -- rewrite Hl. reflexivity.
      * apply Z.ltb_ge in Eso. rewrite save_entry_overflow by exact Eso.
        reflexivity.
Qed.

Lemma save_list_blind l :
  forallb savable l = true ->
  forall T pid buf p cur so,
    0 <= T -> 0 <= p -> 0 <= pid < 2 ^ 32 -> 0 <= cur ->
    cur + entries l < 2 ^ 32 -> 0 <= so ->
    if offsets_fit (name_offsets so l) then
      exists buf' p',
        save_list T pid (mkSave (mkIO buf p) cur so) l
        = Ok (mkSave (mkIO buf' p') (cur + entries l) (so + names_len l),
              numbered_list cur l) /\
        0 <= p'
    else
      save_list T pid (mkSave (mkIO buf p) cur so) l = Raise OverflowError.
Proof.
  induction l as [|x l IH]; intros Hs T pid buf p cur so HT Hp Hpid Hcur Hc Hso.
  - cbn [name_offsets offsets_fit forallb]. exists buf, p.
    cbn [save_list entries names_len fold_right numbered_list].
    rewrite !Z.add_0_r. split; [reflexivity|assumption].
  - cbn [forallb] in Hs. apply andb_prop in Hs. destruct Hs as [Hsx Hsl].
    rewrite entries_cons in Hc.
    pose proof (counts_nonneg x) as Cx. pose proof (counts_nonneg_list l) as Cl.
    cbn [name_offsets]. rewrite offsets_fit_app, save_list_cons.
    pose proof (save_walk_blind x Hsx T pid buf p cur so HT Hp Hpid Hcur
                  ltac:(lia) Hso) as Hx.
    destruct (offsets_fit (name_offsets_node so x)).
    + destruct Hx as (buf1 & p1 & E1 & Hp1). rewrite E1. cbn [bind andb fst snd].
      specialize (IH Hsl T pid buf1 p1 (cur + entries_node x)
                    (so + names_len_node x) HT Hp1 Hpid ltac:(lia) ltac:(lia)
                    ltac:(lia)).
      destruct (offsets_fit (name_offsets (so + names_len_node x) l)).
      * destruct IH as (buf2 & p2 & E2 & Hp2). rewrite E2.
        cbn [bind fst snd numbered_list].
        exists buf2, p2. rewrite entries_cons, names_len_cons, !Z.add_assoc.
        split; [reflexivity|assumption].
      * rewrite IH. reflexivity.
    + rewrite Hx. reflexivity.
Qed.

(** X17.  When the names before some included node take 2^24 bytes or
    more, so that the offset of its name does not fit the three bytes of
    the record, [save_file_systemv] raises [OverflowError]; it does not
    write a truncated offset. *)
Theorem save_fails_on_name_offset_overflow
    (u : list FSTNode) (raw : BytesIO) (sp : Z) :
  forallb savable u = true ->
  node_len u < 2 ^ 32 ->
  offsets_fit (name_offsets 0 u) = false ->
  save_file_systemv sp false false raw u = Raise OverflowError.
Proof.
  intros Hu Hl Ho.
  pose proof (counts_nonneg_list u) as Cu.
  unfold save_file_systemv, write_uint32, seek. cbn [getvalue tell].
  replace ((0 <=? node_len u) && (node_len u <? 2 ^ 32)) with true
    by (symmetry; apply andb_true_intro; split;
        [apply Z.leb_le|apply Z.ltb_lt]; unfold node_len in *; lia).
  cbn [bind].
  rewrite (write_write [x01; x00; x00; x00; x00; x00; x00; x00]
             (be_bytes 4 (node_len u))) by (simpl; try lia; discriminate).
  rewrite write_nonempty by discriminate. cbn [getvalue tell].
  pose proof (save_list_blind u Hu (strTableOfs u) 0
                (overlay_at (Z.to_nat 0)
                   ([x01; x00; x00; x00; x00; x00; x00; x00]
                    ++ be_bytes 4 (node_len u)) (getvalue raw))
                (0 + Z.of_nat (length ([x01; x00; x00; x00; x00; x00; x00; x00]
                                       ++ be_bytes 4 (node_len u))))
                1 0) as H.
  rewrite Ho in H. rewrite H; try lia.
  - reflexivity.
  - unfold strTableOfs, node_len. lia.
  - unfold node_len in Hl. lia.
Qed.

(** Files of the one name of 255 bytes, one after the other: each is in
    range, each is an entry, and the names start 256 bytes apart. *)
Lemma long_name_files_savable n :
  forallb savable (repeat long_name_file n) = true.
Proof.
  induction n as [|n IH]; [reflexivity|].
  cbn [repeat forallb]. rewrite IH. reflexivity.
Qed.

Lemma long_name_files_entries n :
  entries (repeat long_name_file n) = Z.of_nat n.
Proof.
  induction n as [|n IH]; [reflexivity|].
  cbn [repeat]. rewrite entries_cons, IH.
  change (entries_node long_name_file) with 1. lia.
Qed.

Lemma long_name_file_len : names_len_node long_name_file = 256.
Proof. vm_compute. reflexivity. Qed.

Lemma long_name_files_overflow n :
  forall so,
    2 ^ 24 <= so + 256 * Z.of_nat n ->
    offsets_fit (name_offsets so (repeat long_name_file (S n))) = false.
Proof.
  induction n as [|n IH]; intros so Hso.
  - cbn [repeat name_offsets]. rewrite offsets_fit_app.
    change (name_offsets_node so long_name_file) with [so].
    cbn [offsets_fit forallb].
    replace (so <? 2 ^ 24) with false by (symmetry; apply Z.ltb_ge; lia).
    reflexivity.
  - change (repeat long_name_file (S (S n)))
      with (long_name_file :: repeat long_name_file (S n)).
    cbn [name_offsets]. rewrite offsets_fit_app, long_name_file_len.
    rewrite IH by lia. apply andb_false_r.
Qed.

(** 65537 names of 255 bytes: the last one would start at 2^24. *)
Lemma save_fails_on_name_offset_overflow_witness :
  save_file_systemv 0 false false (mkIO [] 0) many_long_names
    = Raise OverflowError.
Proof.
  apply (save_fails_on_name_offset_overflow many_long_names (mkIO [] 0) 0).
  - apply long_name_files_savable.
  - unfold node_len, many_long_names. rewrite long_name_files_entries.
    rewrite Z2Nat.id by lia. reflexivity.
  - unfold many_long_names.
    replace (Z.to_nat 65537) with (S (Z.to_nat 65536)) by reflexivity.
    apply long_name_files_overflow. rewrite Z2Nat.id by lia. discriminate.
Defined.

(** ** Files written one after the other *)

Lemma put_file_append ofs data buf :
  Z.of_nat (length buf) <= ofs ->
  put_file ofs data buf =
  buf ++ repeat x00 (Z.to_nat (ofs - Z.of_nat (length buf))) ++ data.
Proof.
  intros H. unfold put_file.
  set (buf1 := buf ++ repeat x00 (Z.to_nat (ofs - Z.of_nat (length buf)))).
  assert (L : length buf1 = Z.to_nat ofs).
  { unfold buf1. rewrite length_app, repeat_length. lia. }
  destruct data as [|b data].
  - unfold buf1. rewrite app_nil_r. reflexivity.
  - unfold overlay_at. rewrite <- L.
    rewrite firstn_all, Nat.sub_diag, skipn_all2 by lia.
    cbn [repeat app]. rewrite app_nil_r. unfold buf1. rewrite <- app_assoc.
    reflexivity.
Qed.

Lemma fold_put_tiled ws :
  forall w buf d e,
    tiled d (ranges (w :: ws)) e ->
    Z.of_nat (length buf) <= d ->
    fold_left (fun b f => put_file (fst f) (snd f) b) (w :: ws) buf =
    buf ++ repeat x00 (Z.to_nat (d - Z.of_nat (length buf)))
        ++ List.concat (map snd (w :: ws)) /\
    e = d + Z.of_nat (length (List.concat (map snd (w :: ws)))).
Proof.
  induction ws as [|w' ws IH]; intros [o data] buf d e Ht Hl.
  - cbn [ranges map tiled fst snd] in Ht. destruct Ht as (-> & _ & <-).
    cbn [fold_left fst snd map List.concat]. rewrite app_nil_r.
    split; [apply put_file_append; assumption|reflexivity].
  - cbn [ranges map tiled fst snd] in Ht. destruct Ht as (-> & Hs & Ht).
    change (fold_left (fun b f => put_file (fst f) (snd f) b)
              ((d, data) :: w' :: ws) buf)
      with (fold_left (fun b f => put_file (fst f) (snd f) b) (w' :: ws)
              (put_file d data buf)).
    rewrite put_file_append by assumption.
    set (buf' := buf ++ repeat x00 (Z.to_nat (d - Z.of_nat (length buf))) ++ data).
    assert (L : Z.of_nat (length buf') = d + Z.of_nat (length data)).
    { unfold buf'. rewrite !length_app, repeat_length, !Nat2Z.inj_add. lia. }
    destruct (IH w' buf' (d + Z.of_nat (length data)) e Ht ltac:(lia)) as [E1 E2].
    rewrite E1, L, Z.sub_diag. cbn [Z.to_nat repeat app].
    cbn [map List.concat snd] in *. rewrite length_app, Nat2Z.inj_add.
    split; [|lia]. unfold buf'. rewrite <- !app_assoc. reflexivity.
Qed.

Lemma tiled_segments ws :
  forall pre post d e,
    tiled d (ranges ws) e ->
    Z.of_nat (length pre) = d ->
    Forall (fun w => seg (pre ++ List.concat (map snd ws) ++ post) (fst w)
                       (length (snd w)) = snd w) ws.
Proof.
  induction ws as [|[o data] ws IH]; intros pre post d e Ht Hl; [constructor|].
  cbn [ranges map tiled fst snd] in Ht. destruct Ht as (-> & Hs & Ht).
  cbn [map List.concat snd]. constructor.
  - cbn [fst snd]. unfold seg. rewrite <- Hl, Nat2Z.id.
    rewrite skipn_app, skipn_all, Nat.sub_diag. cbn [app skipn].
    rewrite <- app_assoc, firstn_app, firstn_all, Nat.sub_diag.
    cbn [firstn]. apply app_nil_r.
  - specialize (IH (pre ++ data) post (d + Z.of_nat (length data)) e Ht).
    rewrite <- !app_assoc in IH.
    rewrite <- app_assoc. apply IH.
    rewrite length_app, Nat2Z.inj_add. lia.
Qed.

(** ** Paths, files and descendants *)

Lemma rpaths_snd n : forall vdir, map snd (rpaths_node vdir n) = rchildren_node n.
Proof.
  induction n as [c f|c d ch IH] using FSTNode_ind'; intros vdir; [reflexivity|].
  cbn [rpaths_node rchildren_node map snd]. f_equal.
  generalize (join vdir (name c)). intros v.
  induction IH as [|x l Hx Hl IHl]; [reflexivity|].
  cbn [flat_map]. rewrite map_app, Hx, IHl. reflexivity.
Qed.

Lemma rpaths_snd_list l : map snd (rpaths l) = rchildren l.
Proof.
  unfold rpaths, rchildren. induction l as [|x l IH]; [reflexivity|].
  cbn [flat_map]. rewrite map_app, rpaths_snd, IH. reflexivity.
Qed.

Lemma rfiles_rpaths n :
  forall vdir,
    rfiles_node vdir n = filter (fun pn => is_file (snd pn)) (rpaths_node vdir n).
Proof.
  induction n as [c f|c d ch IH] using FSTNode_ind'; intros vdir; [reflexivity|].
  cbn [rpaths_node rfiles_node filter snd is_file].
  generalize (join vdir (name c)). intros v.
  induction IH as [|x l Hx Hl IHl]; [reflexivity|].
  cbn [flat_map]. rewrite filter_app, Hx, IHl. reflexivity.
Qed.

Lemma rfiles_rpaths_list l :
  rfiles l = filter (fun pn => is_file (snd pn)) (rpaths l).
Proof.
  unfold rpaths, rfiles. induction l as [|x l IH]; [reflexivity|].
  cbn [flat_map]. rewrite filter_app, rfiles_rpaths, IH. reflexivity.
Qed.

Lemma filter_map_snd {A B} (h : B -> bool) (l : list (A * B)) :
  map snd (filter (fun pn => h (snd pn)) l) = filter h (map snd l).
Proof.
  induction l as [|x l IH]; [reflexivity|].
  cbn [filter map]. destruct (h (snd x)); cbn [map]; rewrite IH; reflexivity.
Qed.

Lemma filter_filter {A} (f g : A -> bool) l :
  filter g (filter f l) = filter (fun x => f x && g x) l.
Proof.
  induction l as [|x l IH]; [reflexivity|].
  cbn [filter]. destruct (f x); cbn [filter andb]; [destruct (g x)|];
    rewrite IH; reflexivity.
Qed.

Lemma rfiles_snd_list l : map snd (rfiles l) = filter is_file (rchildren l).
Proof.
  rewrite rfiles_rpaths_list, filter_map_snd, rpaths_snd_list. reflexivity.
Qed.

Lemma rfiles_are_files l : Forall (fun pn => is_file (snd pn) = true) (rfiles l).
Proof.
  rewrite rfiles_rpaths_list. apply Forall_forall. intros pn H.
  apply filter_In in H. exact (proj2 H).
Qed.

Lemma is_file_inputs n : is_file (inputs n) = is_file n.
Proof. destruct n; reflexivity. Qed.

Lemma rpaths_inputs n :
  forall vdir,
    rpaths_node vdir (inputs n) =
    map (fun pn => (fst pn, inputs (snd pn))) (rpaths_node vdir n).
Proof.
  induction n as [c f|c d ch IH] using FSTNode_ind'; intros vdir; [reflexivity|].
  cbn [inputs rpaths_node name map fst snd]. f_equal.
  generalize (join vdir (name c)). intros v.
  induction IH as [|x l Hx Hl IHl]; [reflexivity|].
  cbn [map flat_map]. rewrite map_app, Hx, IHl. reflexivity.
Qed.

Lemma rpaths_inputs_list l :
  rpaths (map inputs l) = map (fun pn => (fst pn, inputs (snd pn))) (rpaths l).
Proof.
  unfold rpaths. induction l as [|x l IH]; [reflexivity|].
  cbn [map flat_map]. rewrite map_app, rpaths_inputs, IH. reflexivity.
Qed.

(** Two trees with the same inputs have the same paths, and node by node
    the same inputs. *)
Lemma rpaths_same_inputs u t :
  map inputs u = map inputs t ->
  map (fun pn => (fst pn, inputs (snd pn))) (rpaths u) =
  map (fun pn => (fst pn, inputs (snd pn))) (rpaths t).
Proof.
  intros H. rewrite <- !rpaths_inputs_list, H. reflexivity.
Qed.

Lemma map_eq_Forall2 {A B} (f : A -> B) l1 l2 :
  map f l1 = map f l2 -> Forall2 (fun a b => f a = f b) l1 l2.
Proof.
  revert l2. induction l1 as [|a l1 IH]; intros [|b l2] H; try discriminate.
  - constructor.
  - cbn [map] in H. inversion H. constructor; [assumption|apply IH; assumption].
Qed.

Lemma rpaths_Forall2 u t :
  map inputs u = map inputs t ->
  Forall2 (fun a b => fst a = fst b /\ inputs (snd a) = inputs (snd b))
    (rpaths u) (rpaths t).
Proof.
  intros H. apply rpaths_same_inputs, map_eq_Forall2 in H.
  eapply Forall2_impl; [|exact H]. cbn beta. intros a b E. inversion E. auto.
Qed.

Lemma Forall2_filter {A} (R : A -> A -> Prop) (f : A -> bool) l1 l2 :
  Forall2 (fun a b => R a b /\ f a = f b) l1 l2 ->
  Forall2 R (filter f l1) (filter f l2).
Proof.
  induction 1 as [|a b l1 l2 [Hr Hf] Hl IH]; [constructor|].
  cbn [filter]. rewrite Hf. destruct (f b); [constructor|]; assumption.
Qed.

Lemma rfiles_Forall2 u t :
  map inputs u = map inputs t ->
  Forall2 (fun a b => fst a = fst b /\ inputs (snd a) = inputs (snd b))
    (rfiles u) (rfiles t).
Proof.
  intros H. rewrite !rfiles_rpaths_list. apply Forall2_filter.
  eapply Forall2_impl; [|apply rpaths_Forall2; exact H].
  cbn beta. intros a b [E1 E2]. split; [auto|].
  rewrite <- (is_file_inputs (snd a)), E2. apply is_file_inputs.
Qed.

Lemma exclude_inputs n : _exclude (info (inputs n)) = _exclude (info n).
Proof. destruct n; reflexivity. Qed.

Lemma size_of_inputs n : size_of (inputs n) = size_of n.
Proof. destruct n; reflexivity. Qed.

Lemma Forall2_Forall_l {A} (R : A -> A -> Prop) (P : A -> Prop) l1 l2 :
  Forall2 R l1 l2 -> (forall a b, R a b -> P b -> P a) ->
  Forall P l2 -> Forall P l1.
Proof.
  induction 1 as [|a b l1 l2 Hr Hl IH]; intros Himp Hp; [constructor|].
  inversion Hp; subst. constructor; [eapply Himp; eassumption|apply IH; assumption].
Qed.

Lemma tiled_lower d l e :
  tiled d l e -> Forall (fun r => d <= fst r) l /\ d <= e.
Proof.
  revert d. induction l as [|[o s] l IH]; intros d H; cbn [tiled] in H.
  - subst. split; [constructor|lia].
  - destruct H as (-> & Hs & H). destruct (IH _ H) as [A B].
    split; [|lia]. constructor; [cbn; lia|].
    eapply Forall_impl; [|exact A]. cbn beta. intros; lia.
Qed.

Lemma tiled_sizes d l e :
  tiled d l e -> Forall (fun r => 0 <= snd r /\ fst r + snd r <= e) l.
Proof.
  revert d. induction l as [|[o s] l IH]; intros d H; cbn [tiled] in H;
    [constructor|].
  destruct H as (-> & Hs & H). constructor; [|apply (IH _ H)].
  cbn [fst snd]. destruct (tiled_lower _ _ _ H). lia.
Qed.

(** ** The image [build] makes of a tree whose files are multiples of 4 *)

Lemma savable_walk :
  (forall n pid st,
      tidy n = true -> 0 <= _dataOfs st -> _dataOfs st mod 4 = 0 ->
      _dataOfs st + included_bytes_node n < 2 ^ 32 ->
      savable (snd (plan_node pid st n)) = true) /\
  (forall l pid st,
      forallb tidy l = true -> 0 <= _dataOfs st -> _dataOfs st mod 4 = 0 ->
      _dataOfs st + included_bytes l < 2 ^ 32 ->
      forallb savable (snd (plan_list pid st l)) = true).
Proof.
  apply plan_walk_ind.
  - intros pid st c f Ht H0 H4 Hb. cbn [plan_node]. rewrite plan_file_eq.
    cbn [included_bytes_node] in Hb.
    destruct (_exclude c) eqn:Ex; cbn [snd savable set_id _exclude _fileoffset size].
    + rewrite Ex. reflexivity.
    + rewrite Ex. cbn [orb].
      destruct (tidy_file_facts c f Ht Ex) as (H1 & H2 & H3 & H5).
      rewrite H1, align_int_4_exact by assumption.
      repeat (apply andb_true_intro; split);
        first [apply Z.leb_le|apply Z.ltb_lt]; lia.
  - intros pid st c d ch Ex H Ht. cbn [tidy] in Ht. rewrite Ex in Ht. discriminate.
  - intros pid st c d ch Ex H Ht H0 H4 Hb. cbn [tidy] in Ht.
    apply andb_prop in Ht. destruct Ht as [_ Ht].
    rewrite plan_node_dir_pair, Ex. cbn [snd savable set_id _exclude]. rewrite Ex.
    cbn [negb orb andb]. apply H; assumption.
  - reflexivity.
  - intros pid st x l Hx Hl Ht H0 H4 Hb.
    cbn [forallb] in Ht. apply andb_prop in Ht. destruct Ht as [Htx Htl].
    rewrite included_bytes_cons in Hb.
    destruct (included_bytes_tidy x Htx) as [A1 A2].
    destruct (included_bytes_tidy_list l Htl) as [B1 B2].
    destruct (proj1 tiled_walk x pid st Htx H4) as [D _].
    rewrite plan_list_cons. cbn [snd forallb].
    rewrite Hx by (try assumption; lia). cbn [andb].
    apply Hl; try assumption; rewrite D; try lia. apply mod4_add; assumption.
Qed.

Lemma names_len_same u t : map inputs u = map inputs t -> names_len u = names_len t.
Proof.
  intros H. rewrite <- (names_len_map_inputs u), H. apply names_len_map_inputs.
Qed.

Lemma entries_same u t : map inputs u = map inputs t -> entries u = entries t.
Proof.
  intros H. rewrite <- (entries_map_inputs u), H. apply entries_map_inputs.
Qed.

Lemma single_byte_inputs n : single_byte_names (inputs n) = single_byte_names n.
Proof.
  induction n as [c f|c d ch IH] using FSTNode_ind'; [reflexivity|].
  cbn [inputs single_byte_names info name _exclude]. f_equal.
  induction IH as [|x l Hx Hl IHl]; [reflexivity|].
  cbn [map forallb]. rewrite Hx, IHl. reflexivity.
Qed.

Lemma single_byte_same u t :
  map inputs u = map inputs t ->
  forallb single_byte_names u = forallb single_byte_names t.
Proof.
  intros H.
  assert (E : forall l, forallb single_byte_names (map inputs l)
                        = forallb single_byte_names l).
  { induction l as [|x l IH]; [reflexivity|].
    cbn [map forallb]. rewrite single_byte_inputs, IH. reflexivity. }
  rewrite <- (E u), H. apply E.
Qed.

Section BuildImage.

Variable fnmatch : string -> string -> bool.
Variable read_bytes : string -> list byte.
Variable _excludeTable : list string.

Local Abbreviation agrees := (host_agrees fnmatch read_bytes _excludeTable).

Lemma agrees_same_inputs u t :
  map inputs u = map inputs t ->
  Forall agrees (rfiles t) -> Forall agrees (rfiles u).
Proof.
  intros H. apply (Forall2_Forall_l _ _ _ _ (rfiles_Forall2 u t H)).
  intros a b [E1 E2] [A1 A2]. unfold host_agrees.
  rewrite E1, <- (exclude_inputs (snd a)), <- (size_of_inputs (snd a)), E2.
  rewrite exclude_inputs, size_of_inputs. split; assumption.
Qed.

Lemma payloads_same_inputs u t :
  map inputs u = map inputs t -> payloads read_bytes u = payloads read_bytes t.
Proof.
  intros H. unfold payloads.
  pose proof (rfiles_Forall2 u t H) as F.
  induction F as [|a b l1 l2 [E1 E2] Hl IH]; [reflexivity|].
  cbn [filter]. rewrite <- (exclude_inputs (snd a)), E2, exclude_inputs.
  destruct (_exclude (info (snd b))); cbn [negb map]; rewrite IH, ?E1; reflexivity.
Qed.

(** What the loop of [build] writes, when the table and the marks agree. *)
Lemma written_agrees u :
  Forall agrees (rfiles u) ->
  ranges (written fnmatch read_bytes _excludeTable (rfiles u)) = placements u /\
  map snd (written fnmatch read_bytes _excludeTable (rfiles u))
    = payloads read_bytes u.
Proof.
  intros Ha. unfold placements, placements_of, payloads.
  rewrite <- filter_filter, <- rfiles_snd_list, <- filter_map_snd, map_map.
  unfold written, ranges. rewrite !map_map. cbn [fst snd].
  pose proof (rfiles_are_files u) as Hf.
  induction (rfiles u) as [|pn l IH]; [split; reflexivity|].
  inversion Ha as [|? ? [A1 A2] Hal]; subst.
  inversion Hf as [|? ? F1 Hfl]; subst.
  destruct (IH Hal Hfl) as [I1 I2].
  cbn [filter]. rewrite F1, A1. cbn [andb].
  destruct (_exclude (info (snd pn))); cbn [negb map]; [split; assumption|].
  rewrite I1, I2, A2. split; reflexivity.
Qed.

Lemma build_image_rows
    (tbl : SortedDict) (t : list FSTNode) (buf0 : list byte) (fstOffset : Z) :
  forallb tidy t = true ->
  forallb single_byte_names t = true ->
  names_len t <= 2 ^ 24 ->
  Z.of_nat (length buf0) <= fstOffset ->
  fstOffset + (12 * node_len t + names_len t)
    <= MaxSize - get_auto_blob_size t ->
  Forall agrees (rfiles t) ->
  let u := pre_calc_metadata (MaxSize - get_auto_blob_size t) t in
  let img :=
    (buf0 ++ repeat x00 (Z.to_nat (fstOffset - Z.of_nat (length buf0))))
    ++ fst_bytes u
    ++ repeat x00 (Z.to_nat (MaxSize - get_auto_blob_size t - fstOffset
                             - Z.of_nat (length (fst_bytes u))))
    ++ List.concat (payloads read_bytes t) in
  build fnmatch read_bytes _excludeTable tbl
    (mkIO buf0 (Z.of_nat (length buf0))) fstOffset (mkIO [] 0) t
    = Ok (img, u, mkIO (fst_bytes u) (12 * node_len u)) /\
  Z.of_nat (length (List.concat (payloads read_bytes t))) = get_auto_blob_size t /\
  Z.of_nat (length (fst_bytes u)) = 12 * node_len t + names_len t.
Proof.
  intros Ht Hsb Hn Hb0 Hfst Ha u img.
  destruct (tidy_blob t Ht) as (B & B0 & Hsp).
  destruct (tidy_layout (MaxSize - get_auto_blob_size t) t Ht Hsp) as [_ T].
  fold u in T.
  replace (MaxSize - get_auto_blob_size t + get_auto_blob_size t) with MaxSize in T
    by lia.
  assert (Hi : map inputs u = map inputs t) by apply (proj2 inputs_plan_walk).
  assert (Hsbu : forallb single_byte_names u = true)
    by (rewrite (single_byte_same u t Hi); exact Hsb).
  assert (Hnu : names_len u = names_len t) by (apply names_len_same; exact Hi).
  assert (Heu : node_len u = node_len t)
    by (unfold node_len; rewrite (entries_same u t Hi); reflexivity).
  pose proof (counts_nonneg_list t) as Ct.
  assert (HM : MaxSize + 6 < 2 ^ 32) by reflexivity.
  assert (Hsu : forallb savable u = true).
  { unfold u, pre_calc_metadata, pre_calc_metadata_state.
    rewrite align_int_4_exact by assumption.
    apply (proj2 savable_walk); cbn [_dataOfs]; try assumption.
    - unfold node_len in *. lia.
    - rewrite <- B. lia. }
  assert (Hlay : build_layout tbl (mkIO [] 0) t
                 = Ok (u, mkIO (fst_bytes u) (12 * node_len u))).
  { unfold build_layout. rewrite save_with_pass. fold u.
    rewrite save_result_spec by (try assumption; unfold node_len in *; lia).
    rewrite offsets_fit_names_len by lia.
    unfold u at 1. rewrite pre_calc_numbered. fold u.
    rewrite skipn_nil, app_nil_r. reflexivity. }
  pose proof (agrees_same_inputs u t Hi Ha) as Hau.
  destruct (written_agrees u Hau) as [W1 W2].
  rewrite (payloads_same_inputs u t Hi) in W2.
  pose proof (fst_bytes_length u Hsbu) as Lf. rewrite Heu, Hnu in Lf.
  assert (Hpos : Forall (fun f => 0 <= fst f)
                   (written fnmatch read_bytes _excludeTable (rfiles u))).
  { rewrite <- W1 in T. destruct (tiled_lower _ _ _ T) as [L _].
    unfold ranges in L. rewrite Forall_map in L.
    eapply Forall_impl; [|exact L]. cbn beta. cbn [fst]. intros.
    unfold node_len in *. lia. }
  rewrite (build_spec fnmatch read_bytes _excludeTable tbl buf0 fstOffset
             (mkIO [] 0) t u _ Hlay Hpos).
  unfold image. cbn [getvalue].
  set (head := buf0 ++ repeat x00 (Z.to_nat (fstOffset - Z.of_nat (length buf0)))).
  assert (Lh : Z.of_nat (length head) = fstOffset).
  { unfold head. rewrite length_app, repeat_length, Nat2Z.inj_add. lia. }
  assert (L1 : Z.of_nat (length (head ++ fst_bytes u))
               = fstOffset + (12 * node_len t + names_len t)).
  { rewrite length_app, Nat2Z.inj_add. lia. }
  rewrite <- W1 in T.
  assert (Himg : (let buf2 :=
            fold_left (fun b f => put_file (fst f) (snd f) b)
              (written fnmatch read_bytes _excludeTable (rfiles u))
              (head ++ fst_bytes u) in
          buf2 ++ repeat x00 (Z.to_nat (MaxSize - Z.of_nat (length buf2)))) = img
          /\ Z.of_nat (length (List.concat (payloads read_bytes t)))
             = get_auto_blob_size t).
  { unfold img. fold head. rewrite <- W2.
    destruct (written fnmatch read_bytes _excludeTable (rfiles u)) as [|w ws].
    - cbn [ranges map tiled] in T. cbn [fold_left map List.concat].
      rewrite app_nil_r, L1, Lf.
      replace (MaxSize - get_auto_blob_size t - fstOffset
               - (12 * node_len t + names_len t))
        with (MaxSize - (fstOffset + (12 * node_len t + names_len t))) by lia.
      rewrite <- app_assoc. split; [reflexivity|]. cbn [length]. lia.
    - destruct (fold_put_tiled ws w (head ++ fst_bytes u) _ _ T ltac:(lia))
        as [E1 E2].
      cbv zeta. rewrite E1, L1, Lf.
      set (data := List.concat (map snd (w :: ws))) in *.
      assert (Ld : Z.of_nat (length data) = get_auto_blob_size t) by lia.
      replace (MaxSize - get_auto_blob_size t
               - (fstOffset + (12 * node_len t + names_len t)))
        with (MaxSize - get_auto_blob_size t - fstOffset
              - (12 * node_len t + names_len t)) by lia.
      set (gap := repeat x00 (Z.to_nat (MaxSize - get_auto_blob_size t - fstOffset
                                        - (12 * node_len t + names_len t)))).
      assert (Lg : Z.of_nat (length gap)
                   = MaxSize - get_auto_blob_size t - fstOffset
                     - (12 * node_len t + names_len t))
        by (unfold gap; rewrite repeat_length; lia).
      assert (Lall : Z.of_nat (length ((head ++ fst_bytes u) ++ gap ++ data))
                     = MaxSize)
        by (rewrite !length_app, !Nat2Z.inj_add; lia).
      rewrite Lall, Z.sub_diag. cbn [Z.to_nat repeat].
      rewrite app_nil_r, <- app_assoc. split; [reflexivity|exact Ld]. }
  destruct Himg as [E L]. cbv zeta in E. rewrite E.
  split; [reflexivity|]. split; [exact L|exact Lf].
Qed.

(** X18.  Take a tree whose included files have the alignment 4, no
    forced location and sizes that are multiples of 4, whose directories
    are not excluded and whose included names are of one-byte characters
    and take at most 2^24 bytes; let the
    exclusion table agree with the exclusion marks and the host files be
    as long as the nodes say; let the headers end at or before
    [fstOffset] and the FST end at or before the start of the data.  Then
    [build] makes an image of exactly [MaxSize] bytes: the headers, zeros
    up to [fstOffset], the FST, zeros, and the files one after the other
    up to the end. *)
Theorem build_image_layout
    (tbl : SortedDict) (t : list FSTNode) (buf0 : list byte) (fstOffset : Z) :
  forallb tidy t = true ->
  forallb single_byte_names t = true ->
  names_len t <= 2 ^ 24 ->
  Z.of_nat (length buf0) <= fstOffset ->
  fstOffset + (12 * node_len t + names_len t)
    <= MaxSize - get_auto_blob_size t ->
  Forall agrees (rfiles t) ->
  let u := pre_calc_metadata (MaxSize - get_auto_blob_size t) t in
  let img :=
    (buf0 ++ repeat x00 (Z.to_nat (fstOffset - Z.of_nat (length buf0))))
    ++ fst_bytes u
    ++ repeat x00 (Z.to_nat (MaxSize - get_auto_blob_size t - fstOffset
                             - Z.of_nat (length (fst_bytes u))))
    ++ List.concat (payloads read_bytes t) in
  build fnmatch read_bytes _excludeTable tbl
    (mkIO buf0 (Z.of_nat (length buf0))) fstOffset (mkIO [] 0) t
    = Ok (img, u, mkIO (fst_bytes u) (12 * node_len u)) /\
  Z.of_nat (length img) = MaxSize.
Proof.
  intros Ht Hsb Hn Hb0 Hfst Ha u img.
  destruct (build_image_rows tbl t buf0 fstOffset Ht Hsb Hn Hb0 Hfst Ha)
    as (E & Lp & Lf).
  split; [exact E|].
  pose proof (counts_nonneg_list t) as Ct.
  destruct (tidy_blob t Ht) as (_ & B0 & _).
  unfold img. fold u in Lf.
  rewrite !length_app, !repeat_length, !Nat2Z.inj_add, Lp, Lf.
  unfold node_len in *. lia.
Qed.

End BuildImage.

(** The directory [data] of two files, built after 17408 bytes of
    headers with the FST at 18432. *)
Lemma build_image_layout_witness :
  let u := pre_calc_metadata (MaxSize - get_auto_blob_size tidy_tree) tidy_tree in
  let img :=
    (headers_image
     ++ repeat x00 (Z.to_nat (example_fstOffset - Z.of_nat (length headers_image))))
    ++ fst_bytes u
    ++ repeat x00 (Z.to_nat (MaxSize - get_auto_blob_size tidy_tree
                             - example_fstOffset
                             - Z.of_nat (length (fst_bytes u))))
    ++ List.concat (payloads tidy_payload tidy_tree) in
  build glob_match tidy_payload [] []
    (mkIO headers_image (Z.of_nat (length headers_image))) example_fstOffset
    (mkIO [] 0) tidy_tree
    = Ok (img, u, mkIO (fst_bytes u) (12 * node_len u)) /\
  Z.of_nat (length img) = MaxSize.
Proof.
  apply (build_image_layout glob_match tidy_payload [] [] tidy_tree headers_image
           example_fstOffset).
  - reflexivity.
  - reflexivity.
  - vm_compute. discriminate.
  - vm_compute. discriminate.
  - vm_compute. discriminate.
  - repeat (apply Forall_cons; [split; reflexivity|]). apply Forall_nil.
Defined.

(** ** Taking the image apart again *)

Lemma read_upto_spec n buf p :
  0 <= p -> 0 <= n ->
  fst (read_upto n (mkIO buf p)) = seg buf p (Z.to_nat n) /\
  getvalue (snd (read_upto n (mkIO buf p))) = buf.
Proof.
  intros Hp Hn. unfold read_upto.
  replace (n <? 0) with false by (symmetry; apply Z.ltb_ge; lia).
  rewrite read_eq by assumption. split; reflexivity.
Qed.

Section ExtractFacts.

Variable open_error : list Extracted -> string -> option error.
Variable mkdir_error : list Extracted -> string -> option error.

(** The loop of [extract] over nodes it can seek to: it stops at the
    first node the host refuses, with the error of the host, and makes
    every node otherwise. *)
Lemma extract_nodes_spec nodes :
  Forall in_range nodes ->
  forall done iso,
    match extract_nodes open_error mkdir_error done nodes iso with
    | Ok r => r = done ++ map (extracted_of (getvalue iso)) nodes
    | Raise e =>
        exists l1 pn l2,
          nodes = l1 ++ pn :: l2 /\
          host_answer open_error mkdir_error
            (done ++ map (extracted_of (getvalue iso)) l1) pn = Some e
    | NoReturn => False
    | OutOfFuel => False
    end.
Proof.
  induction 1 as [|[p n] nodes Hn Hl IH]; intros done iso.
  - cbn [extract_nodes map]. rewrite app_nil_r. reflexivity.
  - destruct n as [c f|c d ch]; cbn [extract_nodes map].
    + destruct (open_error done p) as [e|] eqn:Eo.
      * exists [], (p, FileNode c f), nodes. cbn [map app].
        rewrite app_nil_r. split; [reflexivity|exact Eo].
      * unfold in_range in Hn. cbn [snd] in Hn. destruct Hn as [Ho Hs].
        replace (_fileoffset f <? 0) with false
          by (symmetry; apply Z.ltb_ge; lia).
        unfold seek.
        destruct (read_upto_spec (size f) (getvalue iso) (_fileoffset f) Ho Hs)
          as [R1 R2].
        destruct (read_upto (size f) _) as [data iso'].
        cbn [fst snd] in R1, R2. subst data.
        specialize (IH (done ++ [ExtractedFile p
                                   (seg (getvalue iso) (_fileoffset f)
                                      (Z.to_nat (size f)))]) iso').
        rewrite R2 in IH.
        destruct (extract_nodes _ _ _ nodes iso') as [r|e| |].
        -- rewrite IH, <- app_assoc. reflexivity.
        -- destruct IH as (l1 & pn & l2 & E1 & E2).
           exists ((p, FileNode c f) :: l1), pn, l2. cbn [map app].
           split; [rewrite E1; reflexivity|].
           rewrite <- app_assoc in E2. exact E2.
        -- exact IH.
        -- exact IH.
    + destruct (mkdir_error done p) as [e|] eqn:Eo.
      * exists [], (p, DirNode c d ch), nodes. cbn [map app].
        rewrite app_nil_r. split; [reflexivity|exact Eo].
      * specialize (IH (done ++ [ExtractedDir p]) iso).
        destruct (extract_nodes _ _ _ nodes iso) as [r|e| |].
        -- rewrite IH, <- app_assoc. reflexivity.
        -- destruct IH as (l1 & pn & l2 & E1 & E2).
           exists ((p, DirNode c d ch) :: l1), pn, l2. cbn [map app].
           split; [rewrite E1; reflexivity|].
           rewrite <- app_assoc in E2. exact E2.
        -- exact IH.
        -- exact IH.
Qed.

(** On a host that refuses nothing the loop makes every node. *)
Lemma extract_nodes_accepted nodes :
  host_accepts open_error -> host_accepts mkdir_error ->
  Forall in_range nodes ->
  forall done iso,
    extract_nodes open_error mkdir_error done nodes iso
    = Ok (done ++ map (extracted_of (getvalue iso)) nodes).
Proof.
  intros Ao Am Hr done iso.
  pose proof (extract_nodes_spec nodes Hr done iso) as H.
  destruct (extract_nodes open_error mkdir_error done nodes iso) as [r|e| |].
  - rewrite H. reflexivity.
  - destruct H as (l1 & [p n] & l2 & _ & E). unfold host_answer in E.
    cbn [fst snd] in E. destruct n; [rewrite Ao in E|rewrite Am in E];
      discriminate.
  - contradiction.
  - contradiction.
Qed.

End ExtractFacts.

Lemma decoded_in_range l :
  Forall decoded_fields (rchildren l) -> Forall in_range (rpaths l).
Proof.
  rewrite <- rpaths_snd_list, Forall_map. apply Forall_impl.
  intros [p n]. unfold in_range. cbn [snd]. destruct n; cbn [decoded_fields]; lia.
Qed.



Lemma rpaths_decoded img n :
  forall vdir pid cur,
    map (extracted_of img) (rpaths_node vdir (decoded_node pid cur n)) =
    map (extracted_of img) (rpaths_node vdir n).
Proof.
  induction n as [c f|c d ch IH] using FSTNode_ind'; intros vdir pid cur;
    [reflexivity|].
  rewrite decoded_node_dir. cbn [rpaths_node name map]. f_equal.
  generalize (join vdir (name c)), (cur + 1). intros v k. revert k.
  induction IH as [|x l Hx Hl IHl]; intros k; [reflexivity|].
  rewrite decoded_list_cons. cbn [flat_map]. rewrite !map_app, Hx, IHl.
  reflexivity.
Qed.

Lemma rpaths_decoded_list img l :
  forall pid cur,
    map (extracted_of img) (rpaths (decoded_list pid cur l)) =
    map (extracted_of img) (rpaths l).
Proof.
  unfold rpaths. induction l as [|x l IH]; intros pid cur; [reflexivity|].
  rewrite decoded_list_cons. cbn [flat_map]. rewrite !map_app, rpaths_decoded, IH.
  reflexivity.
Qed.

Lemma plain_descendants n : plain n -> Forall plain (rchildren_node n).
Proof.
  induction n as [c f|c d ch IH] using FSTNode_ind'; intros Hp.
  - constructor; [assumption|constructor].
  - cbn [rchildren_node]. constructor; [assumption|].
    inversion Hp as [|? ? ? Hex Hnul Hch]; subst.
    clear Hp. induction IH as [|x l Hx Hl IHl]; [constructor|].
    inversion Hch; subst. cbn [flat_map]. apply Forall_app. split; auto.
Qed.

Lemma plain_descendants_list l : Forall plain l -> Forall plain (rchildren l).
Proof.
  unfold rchildren. induction 1 as [|x l Hx Hl IH]; [constructor|].
  cbn [flat_map]. apply Forall_app. split; [apply plain_descendants|]; assumption.
Qed.

Lemma plain_included n : plain n -> _exclude (info n) = false.
Proof. intros H. inversion H; assumption. Qed.

Lemma on_host_same_inputs read_bytes u t :
  map inputs u = map inputs t ->
  map (on_host read_bytes) (rpaths u) = map (on_host read_bytes) (rpaths t).
Proof.
  intros H. pose proof (rpaths_Forall2 u t H) as F.
  induction F as [|a b l1 l2 [E1 E2] Hl IH]; [reflexivity|].
  cbn [map]. rewrite IH. f_equal. unfold on_host.
  rewrite <- (is_file_inputs (snd a)), E2, is_file_inputs, E1. reflexivity.
Qed.

Lemma plain_rfiles_included u :
  Forall plain u -> Forall (fun pn => _exclude (info (snd pn)) = false) (rfiles u).
Proof.
  intros Hp. apply plain_descendants_list in Hp.
  assert (G : Forall (fun n => _exclude (info n) = false) (map snd (rfiles u))).
  { rewrite rfiles_snd_list. apply Forall_forall. intros n Hn.
    apply filter_In in Hn. rewrite Forall_forall in Hp.
    apply plain_included. apply Hp. exact (proj1 Hn). }
  rewrite Forall_map in G. exact G.
Qed.

Lemma plain_single_byte l :
  Forall plain l -> forallb single_byte_names l = true.
Proof.
  induction l as [|x l IH]; intros H; [reflexivity|].
  inversion H as [|? ? Hx Hl]; subst. cbn [forallb]. rewrite (IH Hl), andb_true_r.
  clear IH Hl H. induction x as [c f|c d ch IHc] using FSTNode_ind'.
  - inversion Hx; subst. cbn [single_byte_names info].
    rewrite one_byte_single by assumption. rewrite orb_true_r. reflexivity.
  - inversion Hx as [|? ? ? Hex Hnm Hch]; subst. cbn [single_byte_names info].
    rewrite one_byte_single by assumption. rewrite orb_true_r. cbn [andb].
    clear Hx. induction IHc as [|y r Hy Hr IHr]; [reflexivity|].
    inversion Hch; subst. cbn [forallb]. rewrite Hy, IHr by assumption.
    reflexivity.
Qed.

Section BuildExtract.

Variable fnmatch : string -> string -> bool.
Variable read_bytes : string -> list byte.
Variable _excludeTable : list string.
Variable open_error : list Extracted -> string -> option error.
Variable mkdir_error : list Extracted -> string -> option error.

Local Abbreviation agrees := (host_agrees fnmatch read_bytes _excludeTable).

Lemma written_all u :
  Forall plain u -> Forall agrees (rfiles u) ->
  written fnmatch read_bytes _excludeTable (rfiles u) =
  map (fun f => (fileoffset_of (snd f), read_bytes (fst f))) (rfiles u).
Proof.
  intros Hp Ha. unfold written. f_equal.
  pose proof (rfiles_are_files u) as Hf.
  pose proof (plain_rfiles_included u Hp) as Hi.
  induction (rfiles u) as [|pn l IH]; [reflexivity|].
  inversion Ha as [|? ? [A1 A2] Hal]; subst.
  inversion Hf as [|? ? F1 Hfl]; subst.
  inversion Hi as [|? ? I1 Hil]; subst.
  cbn [filter]. rewrite F1, A1, I1. cbn [andb negb]. f_equal. apply IH; assumption.
Qed.

Lemma build_extract_rows
    (tbl : SortedDict) (t : list FSTNode) (buf0 : list byte)
    (fstOffset pos pos' : Z) :
  Forall plain t ->
  forallb tidy t = true ->
  names_len t < 2 ^ 24 ->
  Z.of_nat (length buf0) <= fstOffset ->
  fstOffset + (12 * node_len t + names_len t)
    <= MaxSize - get_auto_blob_size t ->
  Forall agrees (rfiles t) ->
  host_accepts open_error -> host_accepts mkdir_error ->
  exists img u raw v s cur,
    build fnmatch read_bytes _excludeTable tbl
      (mkIO buf0 (Z.of_nat (length buf0))) fstOffset (mkIO [] 0) t
      = Ok (img, u, raw) /\
    init_from_iso (mkIO img pos) fstOffset (Z.of_nat (length (getvalue raw)))
      = Ok (v, s, cur) /\
    extract open_error mkdir_error (mkIO img pos') v
      = Ok (map (on_host read_bytes) (rpaths t)).
Proof.
  intros Hp Ht Hn Hb0 Hfst Ha Ao Am.
  pose proof (plain_single_byte t Hp) as Hsb.
  destruct (build_image_rows fnmatch read_bytes _excludeTable tbl t buf0
              fstOffset Ht Hsb ltac:(lia) Hb0 Hfst Ha) as (Eb & _ & _).
  cbv zeta in Eb.
  set (u := pre_calc_metadata (MaxSize - get_auto_blob_size t) t) in *.
  set (head := buf0 ++ repeat x00 (Z.to_nat (fstOffset - Z.of_nat (length buf0))))
    in *.
  set (gap := repeat x00 (Z.to_nat (MaxSize - get_auto_blob_size t - fstOffset
                                    - Z.of_nat (length (fst_bytes u))))) in *.
  set (img := head ++ fst_bytes u ++ gap ++ List.concat (payloads read_bytes t))
    in *.
  destruct (tidy_blob t Ht) as (B & B0 & Hsp).
  destruct (tidy_layout (MaxSize - get_auto_blob_size t) t Ht Hsp) as [_ T].
  fold u in T.
  replace (MaxSize - get_auto_blob_size t + get_auto_blob_size t) with MaxSize in T
    by lia.
  assert (Hi : map inputs u = map inputs t) by apply (proj2 inputs_plan_walk).
  assert (Hnu : names_len u = names_len t) by (apply names_len_same; exact Hi).
  assert (Heu : node_len u = node_len t)
    by (unfold node_len; rewrite (entries_same u t Hi); reflexivity).
  pose proof (counts_nonneg_list t) as Ct.
  assert (Hsbu : forallb single_byte_names u = true)
    by (rewrite (single_byte_same u t Hi); exact Hsb).
  pose proof (fst_bytes_length u Hsbu) as Lf. rewrite Heu, Hnu in Lf.
  assert (Lh : Z.of_nat (length head) = fstOffset).
  { unfold head. rewrite length_app, repeat_length, Nat2Z.inj_add. lia. }
  assert (HM : MaxSize + 6 < 2 ^ 32) by reflexivity.
  assert (Hpu : Forall plain u) by (apply plain_plan_list; assumption).
  assert (Henc : Forall encodable u).
  { unfold u, pre_calc_metadata, pre_calc_metadata_state.
    rewrite align_int_4_exact by assumption.
    set (st0 := mkPlan (MaxSize - get_auto_blob_size t) 1).
    destruct (encodable_plan_list t Hp 0 st0) as [_ H2];
      [cbn [st0 _dataOfs]; unfold node_len in *; lia|].
    apply H2.
    destruct (proj2 tiled_walk t 0 st0 Ht Hsp) as [D _].
    rewrite D. cbn [st0 _dataOfs]. rewrite <- B. lia. }
  exists img, u, (mkIO (fst_bytes u) (12 * node_len u)),
    (decoded_list 0 1 u), (mkIO (fst_bytes u) (12 * node_len u)), (node_len u).
  split; [exact Eb|].
  assert (Hload : load_file_systemv (mkIO (fst_bytes u) 0)
                  = Ok (decoded_list 0 1 u, mkIO (fst_bytes u) (12 * node_len u),
                        node_len u)).
  { pose proof (load_fst_bytes u [] Henc ltac:(lia)) as HL.
    rewrite app_nil_r in HL. exact HL. }
  split.
  - unfold init_from_iso, seek. cbn [getvalue tell].
    replace (fstOffset <? 0) with false by (symmetry; apply Z.ltb_ge; lia).
    destruct (read_upto_spec (Z.of_nat (length (fst_bytes u))) img fstOffset
                ltac:(lia) ltac:(lia)) as [R1 _].
    destruct (read_upto _ _) as [raw iso']. cbn [fst] in R1. subst raw.
    rewrite Nat2Z.id.
    assert (Es : seg img fstOffset (length (fst_bytes u)) = fst_bytes u).
    { unfold seg, img. rewrite <- Lh, Nat2Z.id.
      rewrite skipn_app, skipn_all, Nat.sub_diag. cbn [app skipn].
      rewrite firstn_app, firstn_all, Nat.sub_diag. cbn [firstn].
      apply app_nil_r. }
    rewrite Es. exact Hload.
  - unfold extract. rewrite extract_nodes_accepted; [|exact Ao|exact Am|].
    2:{ apply decoded_in_range.
        destruct (load_ok_children _ _ _ _ Hload) as [count Ec].
        apply (proj2 (decoded_walk _)) in Ec; [|cbn; lia].
        exact (proj2 (proj2 (proj2 Ec))). }
    cbn [getvalue app]. rewrite rpaths_decoded_list.
    rewrite <- (on_host_same_inputs read_bytes u t Hi). f_equal.
    pose proof (agrees_same_inputs fnmatch read_bytes _excludeTable u t Hi Ha)
      as Hau.
    destruct (written_agrees fnmatch read_bytes _excludeTable u Hau) as [W1 W2].
    rewrite (payloads_same_inputs read_bytes u t Hi) in W2.
    rewrite <- W1 in T.
    pose proof (tiled_segments _ (head ++ fst_bytes u ++ gap) [] _ _ T) as Sg.
    rewrite W2, app_nil_r, <- !app_assoc in Sg. fold img in Sg.
    assert (Lp : Z.of_nat (length (head ++ fst_bytes u ++ gap))
                 = MaxSize - get_auto_blob_size t).
    { unfold gap. rewrite !length_app, repeat_length, !Nat2Z.inj_add.
      unfold node_len in *. lia. }
    specialize (Sg Lp).
    rewrite (written_all u Hpu Hau), Forall_map in Sg. cbn [fst snd] in Sg.
    apply map_ext_in. intros [p n] Hin.
    unfold extracted_of, on_host. cbn [fst snd].
    destruct n as [c f|c d ch]; [|reflexivity]. cbn [is_file]. f_equal.
    assert (Hrf : In (p, FileNode c f) (rfiles u)).
    { rewrite rfiles_rpaths_list. apply filter_In. split; [exact Hin|reflexivity]. }
    rewrite Forall_forall in Sg, Hau.
    specialize (Sg _ Hrf). destruct (Hau _ Hrf) as [_ A2].
    cbn [fst snd fileoffset_of size_of] in Sg, A2.
    rewrite <- A2, Nat2Z.id. exact Sg.
Qed.

End BuildExtract.

(** ** From the host directory to the image and back *)

Lemma tidy_inputs n : tidy (inputs n) = tidy n.
Proof.
  induction n as [c f|c d ch IH] using FSTNode_ind'; [reflexivity|].
  cbn [inputs tidy _exclude]. f_equal.
  induction IH as [|x l Hx Hl IHl]; [reflexivity|].
  cbn [map forallb]. rewrite Hx, IHl. reflexivity.
Qed.

Lemma tidy_same_inputs u t :
  map inputs u = map inputs t -> forallb tidy u = forallb tidy t.
Proof.
  intros H.
  assert (G : forall l, forallb tidy (map inputs l) = forallb tidy l).
  { induction l as [|x l IH]; [reflexivity|].
    cbn [map forallb]. rewrite tidy_inputs, IH. reflexivity. }
  rewrite <- (G u), H. apply G.
Qed.

Lemma host_of_inputs n : host_of (inputs n) = host_of n.
Proof.
  induction n as [c f|c d ch IH] using FSTNode_ind'; [reflexivity|].
  cbn [inputs host_of name]. f_equal. rewrite map_map.
  induction IH as [|x l Hx Hl IHl]; [reflexivity|].
  cbn [map]. rewrite Hx, IHl. reflexivity.
Qed.

Lemma host_of_same_inputs u t :
  map inputs u = map inputs t -> map host_of u = map host_of t.
Proof.
  intros H.
  assert (G : forall l, map host_of (map inputs l) = map host_of l).
  { induction l as [|x l IH]; [reflexivity|].
    cbn [map]. rewrite host_of_inputs, IH. reflexivity. }
  rewrite <- (G u), H. apply G.
Qed.

Section HostRoundTrip.

Variable fnmatch : string -> string -> bool.
Variable path_match : string -> string -> option bool.
Variable unset : Unset.
Variable read_bytes : string -> list byte.
Variable open_error : list Extracted -> string -> option error.
Variable mkdir_error : list Extracted -> string -> option error.

Local Abbreviation load_plain :=
  (_load_from_path fnmatch path_match unset [] [] []).

Lemma loaded_plain_list es :
  Forall (fun e => forall hostdir vdir n,
            _load_entry fnmatch path_match unset [] [] [] hostdir vdir e = Ok n ->
            host_ok e = true -> plain n /\ tidy n = true) es ->
  forall hostdir vdir ch,
    load_plain hostdir vdir es = Ok ch ->
    forallb host_ok es = true ->
    Forall plain ch /\ forallb tidy ch = true.
Proof.
  induction 1 as [|e es He Hes IH]; intros hostdir vdir ch E Hok;
    cbn [_load_from_path] in E.
  - inversion E. split; [constructor|reflexivity].
  - destruct (_load_entry fnmatch path_match unset [] [] [] hostdir vdir e) as [n|err| |] eqn:En;
      cbn [bind] in E; try discriminate.
    destruct (load_plain hostdir vdir es) as [r|err| |] eqn:Er; cbn [bind] in E;
      try discriminate.
    inversion E; subst ch.
    cbn [forallb] in Hok. apply andb_prop in Hok. destruct Hok as [Hoe Hoes].
    destruct (He _ _ _ En Hoe) as [P1 T1].
    destruct (IH _ _ _ Er Hoes) as [P2 T2].
    split; [constructor; assumption|]. cbn [forallb]. rewrite T1, T2. reflexivity.
Qed.

Lemma loaded_plain_entry e :
  forall hostdir vdir n,
    _load_entry fnmatch path_match unset [] [] [] hostdir vdir e = Ok n ->
    host_ok e = true -> plain n /\ tidy n = true.
Proof.
  induction e as [nm sz|nm es IH|nm] using HostEntry_ind'; intros hostdir vdir n E Hok.
  - cbn in E. inversion E; subst n. cbn [host_ok] in Hok.
    apply andb_prop in Hok. destruct Hok as [Hok H4].
    apply andb_prop in Hok. destruct Hok as [Hok H3].
    apply andb_prop in Hok. destruct Hok as [H1 H2].
    apply Z.leb_le in H2. apply Z.ltb_lt in H3.
    split.
    + apply plain_file; cbn [_exclude name _alignment _position size]; auto.
    + cbn [tidy _exclude _alignment _position size truthy orb negb].
      rewrite H4. replace (0 <=? sz) with true by (symmetry; apply Z.leb_le; lia).
      reflexivity.
  - rewrite load_entry_dir in E. cbn [ignored bind] in E.
    destruct (load_plain (join hostdir nm) (join vdir nm) es) as [ch|err| |] eqn:Ech;
      cbn [bind] in E; try discriminate.
    inversion E; subst n. cbn [host_ok] in Hok.
    apply andb_prop in Hok. destruct Hok as [H1 H2].
    destruct (loaded_plain_list es IH _ _ _ Ech H2) as [P T].
    split.
    + apply plain_dir; cbn [_exclude name]; auto.
    + cbn [tidy _exclude negb andb]. exact T.
  - discriminate.
Qed.

(** X20.  A host directory goes into an image and comes out of it again.
    Take a host directory of files and directories whose names are of
    one-byte characters without the zero byte and whose file sizes are
    multiples of 4 below 2^32, load it with [load_file_system] under empty
    tables, and let the names take less than 2^24 bytes, the host files be
    as long as their listed sizes, the headers end at or before
    [fstOffset] and the FST end at or before the start of the data.  Then
    the tree mirrors the directory; [build] makes the image;
    [init_from_iso], given the offset and the size of the FST that [build]
    has put into the boot header, decodes a tree from it; and [extract]
    with that tree, on a host that refuses no file and no directory, makes
    every directory and writes every file of the host directory, each file
    with its bytes. *)
Theorem build_then_extract
    (tbl : SortedDict) (entries : list HostEntry) (t : list FSTNode)
    (buf0 : list byte) (fstOffset pos pos' : Z) :
  forallb host_ok entries = true ->
  load_file_system fnmatch path_match unset [] [] [] entries = Ok t ->
  names_len t < 2 ^ 24 ->
  Z.of_nat (length buf0) <= fstOffset ->
  fstOffset + (12 * node_len t + names_len t)
    <= MaxSize - get_auto_blob_size t ->
  Forall (fun pn => Z.of_nat (length (read_bytes (fst pn))) = size_of (snd pn))
    (rfiles t) ->
  host_accepts open_error -> host_accepts mkdir_error ->
  map host_of t = entries /\
  exists img u raw v s cur,
    build fnmatch read_bytes [] tbl
      (mkIO buf0 (Z.of_nat (length buf0))) fstOffset (mkIO [] 0) t
      = Ok (img, u, raw) /\
    init_from_iso (mkIO img pos) fstOffset (Z.of_nat (length (getvalue raw)))
      = Ok (v, s, cur) /\
    extract open_error mkdir_error (mkIO img pos') v
      = Ok (map (on_host read_bytes) (rpaths t)).
Proof.
  intros Hok El Hn Hb0 Hfst Hlen Ao Am.
  unfold load_file_system in El.
  destruct (load_plain EmptyString EmptyString entries) as [ch|err| |] eqn:Ech;
    cbn [bind] in El; try discriminate.
  set (t0 := pre_calc_metadata (MaxSize - get_auto_blob_size ch) ch) in *.
  assert (Hi : map inputs t0 = map inputs ch) by apply (proj2 inputs_plan_walk).
  assert (Pt0 : forall Pch : Forall plain ch, Forall plain t0)
    by (intros Pch; apply plain_plan_list; exact Pch).
  clearbody t0.
  assert (Et : t0 = t) by (inversion El; reflexivity).
  clear El.
  destruct (loaded_plain_list entries
              ltac:(rewrite Forall_forall; intros e _; apply loaded_plain_entry)
              _ _ _ Ech Hok) as [Pch Tch].
  assert (Pt : Forall plain t) by (rewrite <- Et; apply Pt0; exact Pch).
  assert (Tt : forallb tidy t = true)
    by (rewrite <- Et, (tidy_same_inputs t0 ch Hi); exact Tch).
  split.
  - rewrite <- Et, (host_of_same_inputs t0 ch Hi).
    pose proof (load_from_path_post fnmatch path_match unset [] [] [] entries
                  EmptyString EmptyString) as Hp.
    unfold load_post in Hp. rewrite Ech in Hp. exact (proj2 Hp).
  - apply build_extract_rows; try assumption.
    pose proof (plain_rfiles_included t Pt) as Hinc.
    rewrite Forall_forall in *. intros pn Hin.
    split; [|apply Hlen; exact Hin].
    rewrite (Hinc pn Hin). reflexivity.
Qed.

End HostRoundTrip.

(** The directory [data] with [a.bin] and [b.bin] goes into an image and
    comes out again. *)
Lemma build_then_extract_witness :
  let t := pre_calc_metadata (MaxSize - get_auto_blob_size tidy_tree) tidy_tree in
  map host_of t = tidy_host /\
  exists img u raw v s cur,
    build glob_match tidy_payload [] []
      (mkIO headers_image (Z.of_nat (length headers_image))) example_fstOffset
      (mkIO [] 0) t
      = Ok (img, u, raw) /\
    init_from_iso (mkIO img 0) example_fstOffset
      (Z.of_nat (length (getvalue raw)))
      = Ok (v, s, cur) /\
    extract (fun _ _ => None) (fun _ _ => None) (mkIO img 0) v
      = Ok (map (on_host tidy_payload) (rpaths t)).
Proof.
  apply (build_then_extract glob_match glob_path_match (mkUnset 0 0 0 0)
           tidy_payload (fun _ _ => None) (fun _ _ => None) [] tidy_host
           (pre_calc_metadata (MaxSize - get_auto_blob_size tidy_tree) tidy_tree)
           headers_image example_fstOffset 0 0).
  - reflexivity.
  - vm_compute. reflexivity.
  - vm_compute. reflexivity.
  - vm_compute. discriminate.
  - vm_compute. discriminate.
  - repeat (apply Forall_cons; [reflexivity|]). apply Forall_nil.
  - intros done path. reflexivity.
  - intros done path. reflexivity.
Defined.

(** ** The tables [_save_config_regen] makes *)

Lemma regen_step_alignment tb pn :
  t_alignment (regen_step tb pn) =
  match kept_alignment (snd pn) with
  | Some a => sd_setitem (fst pn) a (t_alignment tb)
  | None => t_alignment tb
  end.
Proof.
  destruct pn as [p [c f|c d ch]]; unfold regen_step; cbn [snd fst kept_alignment info].
  - destruct (_alignment f >? 4); destruct (_position f) as [q|];
      [destruct (truthy (Some q))| |destruct (truthy (Some q))|];
      destruct (_exclude c); reflexivity.
  - destruct (_exclude c); reflexivity.
Qed.

Lemma regen_step_location tb pn :
  t_location (regen_step tb pn) =
  match kept_location (snd pn) with
  | Some q => sd_setitem (fst pn) q (t_location tb)
  | None => t_location tb
  end.
Proof.
  destruct pn as [p [c f|c d ch]]; unfold regen_step; cbn [snd fst kept_location info].
  - destruct (_alignment f >? 4); destruct (_position f) as [q|];
      [destruct (truthy (Some q))| |destruct (truthy (Some q))|];
      destruct (_exclude c); reflexivity.
  - destruct (_exclude c); reflexivity.
Qed.

Lemma regen_step_exclude tb pn :
  t_exclude (regen_step tb pn) =
  if _exclude (info (snd pn)) then sl_add (fst pn) (t_exclude tb) else t_exclude tb.
Proof.
  destruct pn as [p [c f|c d ch]]; unfold regen_step; cbn [snd fst info].
  - destruct (_alignment f >? 4); destruct (_position f) as [q|];
      [destruct (truthy (Some q))| |destruct (truthy (Some q))|];
      destruct (_exclude c); reflexivity.
  - destruct (_exclude c); reflexivity.
Qed.

Lemma regen_alignment_fill nodes :
  forall tb,
    t_alignment (fold_left regen_step nodes tb)
    = fill kept_alignment nodes (t_alignment tb).
Proof.
  induction nodes as [|pn nodes IH]; intros tb; [reflexivity|].
  cbn [fold_left]. rewrite IH, regen_step_alignment. reflexivity.
Qed.

Lemma regen_location_fill nodes :
  forall tb,
    t_location (fold_left regen_step nodes tb)
    = fill kept_location nodes (t_location tb).
Proof.
  induction nodes as [|pn nodes IH]; intros tb; [reflexivity|].
  cbn [fold_left]. rewrite IH, regen_step_location. reflexivity.
Qed.

Lemma fill_snoc sel nodes x d :
  fill sel (nodes ++ [x]) d =
  match sel (snd x) with
  | Some v => sd_setitem (fst x) v (fill sel nodes d)
  | None => fill sel nodes d
  end.
Proof. unfold fill. rewrite fold_left_app. reflexivity. Qed.

Lemma sd_get_key d k v : sd_get d k = Some v -> In (k, v) d.
Proof.
  induction d as [|[k' v'] d IH]; cbn [sd_get]; [discriminate|].
  destruct (String.eqb k k') eqn:E.
  - apply String.eqb_eq in E. intros H. inversion H. subst. left. reflexivity.
  - intros H. right. apply IH. exact H.
Qed.

(** A table filled from nodes with distinct paths gives every node what it
    brought and nothing under any other key, and all its keys are paths
    of the nodes. *)
Lemma sd_get_fill sel nodes :
  NoDup (map fst nodes) ->
  (forall pn, In pn nodes -> sd_get (fill sel nodes []) (fst pn) = sel (snd pn)) /\
  (forall p, ~ In p (map fst nodes) -> sd_get (fill sel nodes []) p = None) /\
  (forall k v, In (k, v) (fill sel nodes []) -> In k (map fst nodes)).
Proof.
  induction nodes as [|x nodes IH] using rev_ind; intros Hnd.
  - split; [intros pn []|]. split; [reflexivity|intros k v []].
  - rewrite map_app in Hnd. cbn [map] in Hnd.
    apply NoDup_remove in Hnd. rewrite app_nil_r in Hnd. destruct Hnd as [Hnd Hx].
    destruct (IH Hnd) as (I1 & I2 & I3).
    assert (G : forall p,
               sd_get (fill sel (nodes ++ [x]) []) p =
               match sel (snd x) with
               | Some v => if String.eqb p (fst x) then Some v
                           else sd_get (fill sel nodes []) p
               | None => sd_get (fill sel nodes []) p
               end).
    { intros p. rewrite fill_snoc. destruct (sel (snd x)); [|reflexivity].
      apply sd_get_setitem. }
    split; [|split].
    + intros pn Hin. rewrite G. apply in_app_or in Hin. destruct Hin as [Hin|[<-|[]]].
      * assert (Hne : String.eqb (fst pn) (fst x) = false).
        { apply String.eqb_neq. intros E. apply Hx. rewrite <- E.
          apply in_map. exact Hin. }
        rewrite Hne. destruct (sel (snd x)); apply I1; exact Hin.
      * rewrite String.eqb_refl. destruct (sel (snd x)); [reflexivity|].
        apply I2. exact Hx.
    + intros p Hp. rewrite G. rewrite map_app in Hp. cbn [map] in Hp.
      assert (Hp1 : ~ In p (map fst nodes)) by (intros H; apply Hp, in_or_app; auto).
      assert (Hne : String.eqb p (fst x) = false).
      { apply String.eqb_neq. intros E. apply Hp, in_or_app. right. left. auto. }
      rewrite Hne. destruct (sel (snd x)); apply I2; exact Hp1.
    + intros k v Hin. rewrite fill_snoc in Hin. rewrite map_app. apply in_or_app.
      destruct (sel (snd x)) as [w|]; [|left; apply (I3 k v Hin)].
      apply sd_setitem_In in Hin. destruct Hin as [E|Hin].
      * inversion E. right. left. reflexivity.
      * left. apply (I3 k v Hin).
Qed.

Lemma sl_add_In k l e : In e (sl_add k l) <-> e = k \/ In e l.
Proof.
  induction l as [|k' l IH]; cbn [sl_add].
  - cbn. intuition.
  - destruct (String.compare k k'); cbn [In]; rewrite ?IH; intuition.
Qed.

Lemma regen_exclude_In nodes :
  forall tb e,
    In e (t_exclude (fold_left regen_step nodes tb)) <->
    In e (t_exclude tb) \/
    exists pn, In pn nodes /\ fst pn = e /\ _exclude (info (snd pn)) = true.
Proof.
  induction nodes as [|x nodes IH]; intros tb e; cbn [fold_left].
  - split; [auto|]. intros [H|(pn & [] & _)]. exact H.
  - rewrite IH, regen_step_exclude. split.
    + intros [H|(pn & Hin & E1 & E2)].
      * destruct (_exclude (info (snd x))) eqn:Ex; [|auto].
        apply sl_add_In in H. destruct H as [->|H]; [|auto].
        right. exists x. cbn [In]. auto.
      * right. exists pn. cbn [In]. auto.
    + intros [H|(pn & [<-|Hin] & E1 & E2)].
      * left. destruct (_exclude (info (snd x))); [apply sl_add_In|]; auto.
      * left. rewrite E2. apply sl_add_In. auto.
      * right. exists pn. auto.
Qed.

Section RegenFacts.

Variable fnmatch : string -> string -> bool.

Lemma first_match_literal p d paths :
  literal_on fnmatch paths -> In p paths ->
  (forall k v, In (k, v) d -> In k paths) ->
  first_match fnmatch p d = sd_get d p.
Proof.
  intros Hl Hp. induction d as [|[k v] d IH]; intros Hk; [reflexivity|].
  cbn [first_match sd_get]. rewrite (Hl p k Hp (Hk k v (or_introl eq_refl))).
  destruct (String.eqb p k); [reflexivity|].
  apply IH. intros k' v' H. apply (Hk k' v'). right. exact H.
Qed.

Lemma get_alignment_literal p d paths :
  literal_on fnmatch paths -> In p paths ->
  (forall k v, In (k, v) d -> In k paths) ->
  _get_alignment fnmatch d p =
  match sd_get d p with Some a => a | None => 4 end.
Proof.
  intros Hl Hp Hk. unfold _get_alignment. destruct d as [|kv d]; [reflexivity|].
  rewrite (first_match_literal p (kv :: d) paths Hl Hp Hk). reflexivity.
Qed.

(** X21.  The location table [_save_config_regen] makes of a tree with
    distinct paths gives, under the path of every file, the forced
    location of the file, and none for a file without one or with the
    location 0, and none for a directory. *)
Theorem regenerated_locations_are_found (ch : list FSTNode) :
  NoDup (map fst (rpaths ch)) ->
  Forall (fun pn =>
            _get_location (t_location (_save_config_regen ch)) (fst pn)
            = kept_location (snd pn))
    (rpaths ch).
Proof.
  intros Hnd. apply Forall_forall. intros pn Hin.
  rewrite get_location_sd_get. unfold _save_config_regen.
  rewrite regen_location_fill. cbn [t_location].
  apply (proj1 (sd_get_fill kept_location (rpaths ch) Hnd)). exact Hin.
Qed.

(** X22.  When the matcher takes the paths of the tree literally, the
    alignment table [_save_config_regen] makes of a tree with distinct
    paths gives every file back its alignment if that is above 4, and 4
    otherwise: an alignment below 4 is not kept. *)
Theorem regenerated_alignments_are_found (ch : list FSTNode) :
  NoDup (map fst (rpaths ch)) ->
  literal_on fnmatch (map fst (rpaths ch)) ->
  Forall (fun pn =>
            _get_alignment fnmatch (t_alignment (_save_config_regen ch)) (fst pn)
            = Z.max 4 (alignment_of (snd pn)))
    (rpaths ch).
Proof.
  intros Hnd Hl. apply Forall_forall. intros pn Hin.
  unfold _save_config_regen. rewrite regen_alignment_fill. cbn [t_alignment].
  destruct (sd_get_fill kept_alignment (rpaths ch) Hnd) as (I1 & _ & I3).
  rewrite (get_alignment_literal (fst pn) _ (map fst (rpaths ch)) Hl
             (in_map fst _ _ Hin) I3).
  rewrite (I1 pn Hin).
  destruct (snd pn) as [c f|c d l]; cbn [kept_alignment alignment_of]; [|reflexivity].
  destruct (_alignment f >? 4) eqn:E; lia.
Qed.

(** X23.  Under the same conditions the exclusion table
    [_save_config_regen] makes excludes exactly the paths of the nodes
    that are marked as excluded. *)
Theorem regenerated_exclusions_are_found (ch : list FSTNode) :
  NoDup (map fst (rpaths ch)) ->
  literal_on fnmatch (map fst (rpaths ch)) ->
  Forall (fun pn =>
            _get_excluded fnmatch (t_exclude (_save_config_regen ch)) (fst pn)
            = _exclude (info (snd pn)))
    (rpaths ch).
Proof.
  intros Hnd Hl. apply Forall_forall. intros pn Hin.
  unfold _get_excluded, _save_config_regen.
  destruct (_exclude (info (snd pn))) eqn:Ex.
  - apply existsb_exists. exists (fst pn). split.
    + apply regen_exclude_In. right. exists pn. auto.
    + rewrite (Hl _ _ (in_map fst _ _ Hin) (in_map fst _ _ Hin)).
      apply String.eqb_refl.
  - apply not_true_is_false. intros H. apply existsb_exists in H.
    destruct H as (e & He & Hm).
    apply regen_exclude_In in He. destruct He as [[]|(qn & Hq & E1 & E2)].
    subst e.
    rewrite (Hl _ _ (in_map fst _ _ Hin) (in_map fst _ _ Hq)) in Hm.
    apply String.eqb_eq in Hm.
    assert (pn = qn).
    { clear - Hnd Hin Hq Hm. induction (rpaths ch) as [|x l IH]; [contradiction|].
      cbn [map] in Hnd. inversion Hnd as [|? ? Hx Hl]; subst.
      destruct Hin as [<-|Hin], Hq as [<-|Hq].
      - reflexivity.
      - exfalso. apply Hx. rewrite Hm. apply in_map. exact Hq.
      - exfalso. apply Hx. rewrite <- Hm. apply in_map. exact Hin.
      - apply IH; assumption. }
    subst qn. congruence.
Qed.

End RegenFacts.

(** [b.bin] is found at 4096; [skip.tmp], forced to 0, has no location. *)
Lemma regenerated_locations_are_found_witness :
  Forall (fun pn =>
            _get_location (t_location (_save_config_regen settings_tree)) (fst pn)
            = kept_location (snd pn))
    (rpaths settings_tree).
Proof.
  apply (regenerated_locations_are_found settings_tree).
  repeat (apply NoDup_cons; [cbn; intuition discriminate|]). apply NoDup_nil.
Defined.

(** [b.bin] gets its 32 back, [a.bin] with the alignment 2 gets 4. *)
Lemma regenerated_alignments_are_found_witness :
  Forall (fun pn =>
            _get_alignment glob_match
              (t_alignment (_save_config_regen settings_tree)) (fst pn)
            = Z.max 4 (alignment_of (snd pn)))
    (rpaths settings_tree).
Proof.
  apply (regenerated_alignments_are_found glob_match settings_tree).
  - repeat (apply NoDup_cons; [cbn; intuition discriminate|]). apply NoDup_nil.
  - intros p k Hp Hk. cbn in Hp, Hk.
    repeat (destruct Hp as [<-|Hp]; [|]); try contradiction;
      repeat (destruct Hk as [<-|Hk]; [|]); try contradiction; reflexivity.
Defined.

(** [skip.tmp] and nothing else is excluded. *)
Lemma regenerated_exclusions_are_found_witness :
  Forall (fun pn =>
            _get_excluded glob_match
              (t_exclude (_save_config_regen settings_tree)) (fst pn)
            = _exclude (info (snd pn)))
    (rpaths settings_tree).
Proof.
  apply (regenerated_exclusions_are_found glob_match settings_tree).
  - repeat (apply NoDup_cons; [cbn; intuition discriminate|]). apply NoDup_nil.
  - intros p k Hp Hk. cbn in Hp, Hk.
    repeat (destruct Hp as [<-|Hp]; [|]); try contradiction;
      repeat (destruct Hk as [<-|Hk]; [|]); try contradiction; reflexivity.
Defined.

(** ** The table of a decoded tree *)

Lemma entries_node_included c f : _exclude c = false -> entries_node (FileNode c f) = 1.
Proof. intros H. cbn [entries_node info]. rewrite H. reflexivity. Qed.

Lemma decoded_same_of_nodes l :
  Forall (fun n => forall pid cur, decoded_same pid cur n) l ->
  forall pid cur, decoded_same_list pid cur l.
Proof.
  induction 1 as [|x l Hx Hl IH]; intros pid cur.
  - unfold decoded_same_list. cbn. repeat split; constructor.
  - destruct (Hx pid cur) as (A1 & A2 & A3 & A4 & A5 & A6 & A7).
    destruct (IH pid (cur + entries_node x)) as (B1 & B2 & B3 & B4 & B5 & B6 & B7).
    unfold decoded_same_list. rewrite decoded_list_cons.
    split; [constructor; assumption|].
    split; [rewrite !entries_cons; congruence|].
    split; [rewrite !names_len_cons; congruence|].
    split; [unfold strings_list in *; cbn [flat_map]; congruence|].
    split; [cbn [map]; congruence|].
    split; [unfold rchildren in *; cbn [flat_map]; rewrite !map_app; congruence|].
    intros so. cbn [records_list]. rewrite A7, A2, A3, B7. reflexivity.
Qed.

Lemma decoded_same_node n :
  encodable n -> forall pid cur, decoded_same pid cur n.
Proof.
  induction n as [c f|c d ch IH] using FSTNode_ind'; intros He pid cur;
    inversion He as [? ? Hex Hnul Hoff Hsz|? ? ? Hex Hnul Hch]; subst.
  - unfold decoded_same.
    cbn [decoded_node entries_node names_len_node strings_node host_of
           rchildren_node map fileoffset_of records_node info name _exclude
           size _fileoffset].
    rewrite Hex. repeat split; try reflexivity.
    apply encodable_file; cbn [_exclude name _fileoffset size]; auto.
  - assert (L : forall pid cur, decoded_same_list pid cur ch).
    { apply decoded_same_of_nodes. rewrite Forall_forall in *.
      intros x Hx. apply IH; [assumption|]. apply Hch. assumption. }
    destruct (L cur (cur + 1)) as (B1 & B2 & B3 & B4 & B5 & B6 & B7).
    unfold decoded_same. rewrite decoded_node_dir.
    split; [apply encodable_dir; cbn [_exclude name]; auto|].
    rewrite !entries_node_dir, !names_len_node_dir, !strings_node_dir.
    cbn [_exclude name host_of rchildren_node map fileoffset_of].
    rewrite Hex, B2, B3, B4, B5. fold (rchildren (decoded_list cur (cur + 1) ch)).
    fold (rchildren ch). rewrite B6.
    repeat split; try reflexivity.
    intros so. rewrite !records_node_dir. cbn [_exclude name]. rewrite Hex.
    unfold node_len. rewrite B2, B7. reflexivity.
Qed.

Lemma decoded_same_all l :
  Forall encodable l -> forall pid cur, decoded_same_list pid cur l.
Proof.
  intros H. apply decoded_same_of_nodes. rewrite Forall_forall in *.
  intros x Hx. apply decoded_same_node. apply H. assumption.
Qed.

Lemma fst_bytes_decoded u :
  Forall encodable u -> fst_bytes (decoded_list 0 1 u) = fst_bytes u.
Proof.
  intros H. destruct (decoded_same_all u H 0 1) as (_ & B2 & _ & B4 & _ & _ & B7).
  unfold fst_bytes, node_len. rewrite B2, B4, B7. reflexivity.
Qed.

(** X24.  What the encoder writes of a tree it can carry, the decoder
    reads back.  For a tree without excluded nodes, whose names are of
    one-byte characters without the zero byte and take less than 2^24
    bytes, and whose offsets and sizes fit 32 bits, the decoded tree has
    the names, the sizes, the nesting and the order of the tree that was
    written, and every file at its offset. *)
Theorem save_then_load_keeps_files (u : list FSTNode) (sp : Z) :
  Forall encodable u ->
  names_len u < 2 ^ 24 ->
  exists u' buf p v s cur,
    save_file_systemv sp false false (mkIO [] 0) u = Ok (u', mkIO buf p) /\
    load_file_systemv (mkIO buf 0) = Ok (v, s, cur) /\
    map host_of v = map host_of u /\
    map fileoffset_of (rchildren v) = map fileoffset_of (rchildren u).
Proof.
  intros He Hn.
  exists (numbered_list 1 u), (fst_bytes u), (12 * node_len u),
    (decoded_list 0 1 u), (mkIO (fst_bytes u) (12 * node_len u)), (node_len u).
  destruct (decoded_same_all u He 0 1) as (_ & _ & _ & _ & B5 & B6 & _).
  split.
  - rewrite save_raw_spec by assumption. rewrite skipn_nil, app_nil_r. reflexivity.
  - split; [|split; assumption].
    pose proof (load_fst_bytes u [] He Hn) as HL. rewrite app_nil_r in HL. exact HL.
Qed.

(** The files at 4096 and 123456 are found there again. *)
Lemma save_then_load_keeps_files_witness :
  exists u' buf p v s cur,
    save_file_systemv 0 false false (mkIO [] 0) placed_tree = Ok (u', mkIO buf p) /\
    load_file_systemv (mkIO buf 0) = Ok (v, s, cur) /\
    map host_of v = map host_of placed_tree /\
    map fileoffset_of (rchildren v) = map fileoffset_of (rchildren placed_tree).
Proof.
  apply (save_then_load_keeps_files placed_tree 0).
  - repeat first [apply Forall_cons | apply Forall_nil
                 | apply encodable_dir | apply encodable_file
                 | reflexivity
                 | (cbn; lia)
                 | (repeat constructor; discriminate) ].
  - reflexivity.
Defined.

(** X25.  Without the layout pass the round trip holds for any offsets,
    for a tree without excluded nodes whose names are of one-byte
    characters without the zero byte and take less than 2^24 bytes, and
    whose offsets and sizes fit 32 bits: the table the encoder has written
    of it is decoded, and the decoded tree encoded over the same stream,
    again without a layout pass, gives the same table byte for byte. *)
Theorem roundtrip_without_layout_pass (u : list FSTNode) (sp sp' : Z) :
  Forall encodable u ->
  names_len u < 2 ^ 24 ->
  exists u' buf p v s cur v' p',
    save_file_systemv sp false false (mkIO [] 0) u = Ok (u', mkIO buf p) /\
    load_file_systemv (mkIO buf 0) = Ok (v, s, cur) /\
    save_file_systemv sp' false false s v = Ok (v', mkIO buf p').
Proof.
  intros He Hn.
  exists (numbered_list 1 u), (fst_bytes u), (12 * node_len u),
    (decoded_list 0 1 u), (mkIO (fst_bytes u) (12 * node_len u)), (node_len u),
    (numbered_list 1 (decoded_list 0 1 u)), (12 * node_len (decoded_list 0 1 u)).
  destruct (decoded_same_all u He 0 1) as (B1 & _ & B3 & _).
  split; [|split].
  - rewrite save_raw_spec by assumption. rewrite skipn_nil, app_nil_r. reflexivity.
  - pose proof (load_fst_bytes u [] He Hn) as HL. rewrite app_nil_r in HL. exact HL.
  - rewrite save_raw_spec by (try assumption; lia).
    rewrite (fst_bytes_decoded u He), skipn_all, app_nil_r. reflexivity.
Qed.

(** The table of the files at 4096 and 123456 goes round. *)
Lemma roundtrip_without_layout_pass_witness :
  exists u' buf p v s cur v' p',
    save_file_systemv 0 false false (mkIO [] 0) placed_tree = Ok (u', mkIO buf p) /\
    load_file_systemv (mkIO buf 0) = Ok (v, s, cur) /\
    save_file_systemv 0 false false s v = Ok (v', mkIO buf p').
Proof.
  apply (roundtrip_without_layout_pass placed_tree 0 0).
  - repeat first [apply Forall_cons | apply Forall_nil
                 | apply encodable_dir | apply encodable_file
                 | reflexivity
                 | (cbn; lia)
                 | (repeat constructor; discriminate) ].
  - reflexivity.
Defined.

(** ** Names that are not of one-byte characters *)

(** X28.  [save_file_systemv] moves [_strOfs] by the number of characters
    of a name and writes the bytes of its encoding.  The name of the one
    character U+30A2 takes two bytes, so the name [b] after it is written
    at offset 2, over the zero byte that ended the first name: the table
    is 40 bytes long instead of 41, its names are the four bytes 83 41 62
    00, and [load_file_systemv] reads the first name back with [b] at its
    end. *)
Theorem two_byte_name_is_overwritten :
  name_len two_byte_name = 1%nat /\
  length (encode_name two_byte_name) = 2%nat /\
  exists buf p v s cur,
    save_file_systemv 0 false false (mkIO [] 0) two_byte_tree
      = Ok (numbered_list 1 two_byte_tree, mkIO buf p) /\
    length buf = 40%nat /\
    skipn 36 buf = [x83; x41; x62; x00] /\
    name_offsets 0 two_byte_tree = [0; 2] /\
    load_file_systemv (mkIO buf 0) = Ok (v, s, cur) /\
    map host_of v = [HostFile (two_byte_name ++ "b") 4; HostFile "b" 4].
Proof.
  split; [reflexivity|]. split; [reflexivity|].
  do 5 eexists.
  split; [vm_compute; reflexivity|].
  split; [reflexivity|]. split; [reflexivity|]. split; [reflexivity|].
  split; [vm_compute; reflexivity|]. reflexivity.
Qed.

(** X29.  A name that is no Shift-JIS text makes [load_file_systemv] fail
    with [UnicodeDecodeError], and a table whose last name has no zero
    byte after it makes it read on without an end. *)
Theorem load_fails_on_undecodable_name :
  load_file_systemv (mkIO bad_name_fst 0) = Raise UnicodeDecodeError /\
  load_file_systemv (mkIO (removelast one_file_fst) 0) = NoReturn.
Proof. split; vm_compute; reflexivity. Qed.

(** ** Excluded files and the table *)

Lemma entries_app l1 l2 : entries (l1 ++ l2) = entries l1 + entries l2.
Proof.
  induction l1 as [|x l1 IH]; [reflexivity|].
  cbn [app]. rewrite !entries_cons, IH. lia.
Qed.

Lemma names_len_app l1 l2 : names_len (l1 ++ l2) = names_len l1 + names_len l2.
Proof.
  induction l1 as [|x l1 IH]; [reflexivity|].
  cbn [app]. rewrite !names_len_cons, IH. lia.
Qed.

Lemma strings_list_app l1 l2 :
  strings_list (l1 ++ l2) = strings_list l1 ++ strings_list l2.
Proof. unfold strings_list. apply flat_map_app. Qed.

Lemma records_list_app l1 l2 :
  forall pid cur so,
    records_list pid cur so (l1 ++ l2) =
    records_list pid cur so l1
    ++ records_list pid (cur + entries l1) (so + names_len l1) l2.
Proof.
  induction l1 as [|x l1 IH]; intros pid cur so.
  - cbn [app records_list entries names_len fold_right]. rewrite !Z.add_0_r.
    reflexivity.
  - cbn [app records_list]. rewrite IH, entries_cons, names_len_cons, <- app_assoc.
    rewrite !Z.add_assoc. reflexivity.
Qed.

Lemma pruned_same_of_nodes l : Forall pruned_same l -> pruned_same_list l.
Proof.
  induction 1 as [|x l Hx Hl IH].
  - unfold pruned_same_list. cbn. repeat split; constructor.
  - destruct Hx as (A1 & A2 & A3 & A4 & A5 & A6).
    destruct IH as (B1 & B2 & B3 & B4 & B5 & B6).
    unfold pruned_same_list. cbn [flat_map forallb].
    split; [apply Forall_app; split; assumption|].
    split; [rewrite A2, B2; reflexivity|].
    split; [rewrite entries_app, entries_cons; congruence|].
    split; [rewrite names_len_app, names_len_cons; congruence|].
    split.
    + rewrite strings_list_app, A5, B5. reflexivity.
    + intros pid cur so. rewrite records_list_app, A6, A3, A4, B6. reflexivity.
Qed.

Lemma pruned_same_node n : carryable n = true -> pruned_same n.
Proof.
  induction n as [c f|c d ch IH] using FSTNode_ind'; intros Hc.
  - cbn [carryable] in Hc. unfold pruned_same.
    cbn [prune savable entries_node names_len_node strings_node records_node info].
    destruct (_exclude c) eqn:Ex.
    + cbn. repeat split; constructor.
    + cbn [orb] in Hc |- *.
      apply andb_prop in Hc. destruct Hc as [Hc H5].
      apply andb_prop in Hc. destruct Hc as [Hc H4].
      apply andb_prop in Hc. destruct Hc as [Hc H3].
      apply andb_prop in Hc. destruct Hc as [H1 H2].
      split; [|split; [rewrite H2, H3, H4, H5; reflexivity|]].
      * constructor; [|constructor].
        apply Z.leb_le in H2, H4.
        apply Z.ltb_lt in H3, H5. apply encodable_file; auto.
      * unfold entries, names_len, strings_list.
        cbn [fold_right flat_map records_list entries_node names_len_node
               strings_node records_node info].
        rewrite Ex, !app_nil_r. repeat split; try lia.
  - cbn [carryable] in Hc.
    apply andb_prop in Hc. destruct Hc as [Hc Hch].
    apply andb_prop in Hc. destruct Hc as [Ex Hnul].
    apply negb_true_iff in Ex.
    assert (L : pruned_same_list ch).
    { apply pruned_same_of_nodes. rewrite Forall_forall in *.
      intros x Hx. apply IH; [assumption|].
      rewrite forallb_forall in Hch. apply Hch. assumption. }
    destruct L as (B1 & B2 & B3 & B4 & B5 & B6).
    unfold pruned_same. cbn [prune savable].
    split; [constructor; [apply encodable_dir; assumption|constructor]|].
    split; [rewrite Ex, B2; reflexivity|].
    unfold entries, names_len, strings_list.
    cbn [fold_right flat_map records_list].
    rewrite !entries_node_dir, !names_len_node_dir, !strings_node_dir, Ex.
    fold (strings_list (flat_map prune ch)).
    rewrite B3, B4, B5, !app_nil_r.
    split; [lia|]. split; [lia|]. split; [reflexivity|].
    intros pid cur so. rewrite !records_node_dir, Ex.
    unfold node_len. rewrite B3, B6, app_nil_r. reflexivity.
Qed.

Lemma carryable_single_byte l :
  forallb carryable l = true -> forallb single_byte_names l = true.
Proof.
  induction l as [|x l IH]; intros H; [reflexivity|].
  cbn [forallb] in H |- *. apply andb_prop in H. destruct H as [Hx Hl].
  rewrite (IH Hl), andb_true_r. clear IH Hl.
  induction x as [c f|c d ch IHc] using FSTNode_ind'.
  - cbn [carryable] in Hx. cbn [single_byte_names info].
    destruct (_exclude c); [reflexivity|]. cbn [orb] in Hx |- *.
    rewrite andb_true_r. apply one_byte_single.
    repeat (apply andb_prop in Hx; destruct Hx as [Hx _]). exact Hx.
  - cbn [carryable] in Hx. apply andb_prop in Hx. destruct Hx as [Hx Hch].
    apply andb_prop in Hx. destruct Hx as [_ Hnm].
    cbn [single_byte_names info]. rewrite (one_byte_single _ Hnm), orb_true_r.
    cbn [andb]. induction IHc as [|y r Hy Hr IHr]; [reflexivity|].
    cbn [forallb] in Hch |- *. apply andb_prop in Hch. destruct Hch as [H1 H2].
    rewrite Hy, IHr by assumption. reflexivity.
Qed.

Lemma pruned_same_all l : forallb carryable l = true -> pruned_same_list l.
Proof.
  intros H. apply pruned_same_of_nodes. rewrite Forall_forall.
  intros x Hx. apply pruned_same_node.
  rewrite forallb_forall in H. apply H. assumption.
Qed.

(** X27.  An excluded file leaves no trace in the table.  For a tree in
    which only files are excluded, the names of the included nodes are of
    one-byte characters without the zero byte and the offsets and sizes of
    the included files fit 32 bits, what [load_file_systemv]
    decodes of the buffer that [save_file_systemv] wrote, without a layout
    pass, is the tree without its excluded files: the same names, sizes,
    nesting and order, and every remaining file at its offset. *)
Theorem save_then_load_drops_excluded_files (u : list FSTNode) (sp : Z) :
  forallb carryable u = true ->
  names_len u < 2 ^ 24 ->
  exists u' buf p v s cur,
    save_file_systemv sp false false (mkIO [] 0) u = Ok (u', mkIO buf p) /\
    load_file_systemv (mkIO buf 0) = Ok (v, s, cur) /\
    map host_of v = map host_of (flat_map prune u) /\
    map fileoffset_of (rchildren v)
      = map fileoffset_of (rchildren (flat_map prune u)).
Proof.
  intros Hc Hn.
  destruct (pruned_same_all u Hc) as (B1 & B2 & B3 & B4 & B5 & B6).
  set (w := flat_map prune u) in *.
  assert (Ew : fst_bytes w = fst_bytes u)
    by (unfold fst_bytes, node_len; rewrite B3, B5, B6; reflexivity).
  pose proof (counts_nonneg_list u) as Cu.
  exists (numbered_list 1 u), (fst_bytes u), (12 * node_len u),
    (decoded_list 0 1 w), (mkIO (fst_bytes u) (12 * node_len w)), (node_len w).
  destruct (decoded_same_all w B1 0 1) as (_ & _ & _ & _ & D5 & D6 & _).
  pose proof (carryable_single_byte u Hc) as Hsb.
  split.
  - rewrite save_result_spec by (try assumption; unfold node_len; lia).
    rewrite offsets_fit_names_len by lia.
    rewrite skipn_nil, app_nil_r. reflexivity.
  - split; [|split; assumption].
    pose proof (load_fst_bytes w [] B1 ltac:(lia)) as HL.
    rewrite app_nil_r, Ew in HL. exact HL.
Qed.

(** [skip.tmp] is gone from the decoded tree, [a.bin] is at 4096. *)
Lemma save_then_load_drops_excluded_files_witness :
  exists u' buf p v s cur,
    save_file_systemv 0 false false (mkIO [] 0) marked_tree = Ok (u', mkIO buf p) /\
    load_file_systemv (mkIO buf 0) = Ok (v, s, cur) /\
    map host_of v = map host_of (flat_map prune marked_tree) /\
    map fileoffset_of (rchildren v)
      = map fileoffset_of (rchildren (flat_map prune marked_tree)).
Proof.
  apply (save_then_load_drops_excluded_files marked_tree 0); reflexivity.
Defined.
